(** * MoIRA-web: the pipeline execution engine, embedded and verified

    A shallow embedding of the backend of MoIRA-web:
    - [Analysis]      : moira/analysis.py (statistical analysis engine),
    - [Preprocessing] : moira/preprocessing.py (beta/M-value transforms,
                        quality control),
    - [Core]          : moira/core.py (the stage orchestrator [run_workflow],
                        the exchange with the language model and the reading
                        of its answer),
    - [Main]          : main.py (the in-memory job store, the background task
                        and the endpoints that query them).

    Python dictionaries keep their insertion order, so they are association
    lists with in-place update.  Calls that leave the Python process (R through
    rpy2, scikit-learn, matplotlib, the file system) are fields of a record of
    handlers: every statement below holds for all their behaviours, including
    raising.  Floating-point numbers are rationals where the code only
    compares them; the Benjamini-Hochberg adjustment rounds its product and
    its quotient to binary64; where the code takes logarithms and powers they
    are reals, extended by the infinities and NaN.  The job store is modelled
    at the grain of the single assignment, which is what a concurrent reader
    can observe. *)

From Stdlib Require Import List String Ascii DecimalString ZArith QArith Qminmax Qabs
  Qround Qpower.
From Stdlib Require Import Reals Lia Lra Lqa Sorted.
From stdpp Require Import base option list strings gmap.
Import ListNotations.
Local Open Scope string_scope.
Local Open Scope list_scope.
Local Open Scope nat_scope.

(** ** Python values and exceptions *)

(** The outcome of a Python call: it raises ([Raise], carrying [str(exc)]) or
    it returns. *)
Inductive Exc (A : Type) : Type :=
  | Raise (msg : string)
  | Ret (a : A).
Arguments Raise {A} msg.
Arguments Ret {A} a.

Global Instance Exc_ret : MRet Exc := fun A a => Ret a.
Global Instance Exc_bind : MBind Exc := fun A B f m =>
  match m with
  | Raise msg => Raise msg
  | Ret a => f a
  end.

(** JSON-like values stored in result payloads. *)
#[local] Set Warnings "-register-all".
Inductive value : Type :=
  | VNone
  | VBool (b : bool)
  | VInt (n : Z)
  | VFloat (q : Q)
  | VStr (s : string)
  | VList (l : list value)
  | VDict (d : list (string * value)).

(** An insertion-ordered dictionary with string keys. *)
Definition pydict (V : Type) : Type := list (string * V).

Fixpoint dict_get {V} (d : pydict V) (k : string) : option V :=
  match d with
  | [] => None
  | (k', v) :: d' => if String.eqb k' k then Some v else dict_get d' k
  end.

(** [d[k] = v]: an existing key keeps its position, a new key goes last. *)
Fixpoint dict_set {V} (d : pydict V) (k : string) (v : V) : pydict V :=
  match d with
  | [] => [(k, v)]
  | (k', v') :: d' =>
      if String.eqb k' k then (k', v) :: d' else (k', v') :: dict_set d' k v
  end.

Definition dict_keys {V} (d : pydict V) : list string := map fst d.
Definition dict_values {V} (d : pydict V) : list V := map snd d.
Definition dict_has {V} (d : pydict V) (k : string) : bool :=
  match dict_get d k with Some _ => true | None => false end.

(** A result payload: what a stage stores in the ledger. *)
Definition payload : Type := pydict value.
Definition ledger : Type := pydict payload.

(** [{"error": msg}] *)
Definition error_entry (msg : string) : payload := [("error", VStr msg)].

(** ** Strings: [str.strip()] and [str.lower()] on ASCII text *)

(** Python's whitespace among the ASCII characters: TAB..CR, FS..US, space. *)
Definition isspace (c : ascii) : bool :=
  let n := nat_of_ascii c in
  ((9 <=? n)%nat && (n <=? 13)%nat) || ((28 <=? n)%nat && (n <=? 32)%nat).

Fixpoint lstrip (s : string) : string :=
  match s with
  | EmptyString => EmptyString
  | String c s' => if isspace c then lstrip s' else s
  end.

Fixpoint rstrip (s : string) : string :=
  match s with
  | EmptyString => EmptyString
  | String c s' =>
      match rstrip s' with
      | EmptyString => if isspace c then EmptyString else String c EmptyString
      | r => String c r
      end
  end.

Definition strip (s : string) : string := rstrip (lstrip s).

Definition lower_ascii (c : ascii) : ascii :=
  let n := nat_of_ascii c in
  if ((65 <=? n)%nat && (n <=? 90)%nat)%bool then ascii_of_nat (n + 32) else c.

Fixpoint lower (s : string) : string :=
  match s with
  | EmptyString => EmptyString
  | String c s' => String (lower_ascii c) (lower s')
  end.

(** [sub in s] for strings. *)
Fixpoint str_contains (sub s : string) : bool :=
  String.prefix sub s ||
  match s with
  | EmptyString => false
  | String _ s' => str_contains sub s'
  end.

(** [str(n)] for a non-negative integer. *)
Definition str_of_nat (n : nat) : string :=
  DecimalString.NilEmpty.string_of_uint (Nat.to_uint n).

(** ** Data frames *)

(** A probe-by-sample numeric matrix (beta values or detection p-values):
    [index] holds the probe identifiers, [columns] the sample identifiers. *)
Record Matrix : Type := {
  index : list string;
  columns : list string;
  cells : list (list Q)
}.

(** A cell of the sample sheet; [None] is a missing value (NaN). *)
Definition cell : Type := option string.

(** The sample metadata table: the row labels and, per column in order, the
    column name with its cells (aligned with the row labels). *)
Record Targets : Type := {
  t_index : list string;
  t_data : pydict (list cell)
}.

Definition t_columns (t : Targets) : list string := dict_keys (t_data t).

(** ** Extended reals: the floating-point results that are not numbers *)

(** The value of a floating-point expression, idealised: a real number, an
    infinity or NaN. *)
Inductive xreal : Type :=
  | Finite (r : R)
  | PosInf
  | NegInf
  | NaN.

(** [np.log2(x)]: minus infinity at zero, NaN below zero. *)
Definition np_log2 (x : xreal) : xreal :=
  match x with
  | Finite r =>
      if Rlt_dec 0 r then Finite (ln r / ln 2)%R
      else if Req_EM_T r 0 then NegInf else NaN
  | PosInf => PosInf
  | NegInf => NaN
  | NaN => NaN
  end.

(** [a / b] on arrays of floats: division by zero does not raise. *)
Definition np_div (a b : R) : xreal :=
  if Req_EM_T b 0 then
    if Rlt_dec 0 a then PosInf else if Rlt_dec a 0 then NegInf else NaN
  else Finite (a / b)%R.

(** [np.clip(x, lo, hi)] *)
Definition np_clip (x lo hi : R) : R := Rmin (Rmax x lo) hi.

(** ** moira/preprocessing.py: the beta/M-value transforms *)

Module Preprocessing.

Definition _beta_to_m_values (beta : R) : xreal :=
  let clipped := np_clip beta (1 / 1000) (999 / 1000) in
  np_log2 (np_div clipped (1 - clipped)).

(** [2**m / (1 + 2**m)], clipped to [0, 1].  In binary64 [2**m] is infinite
    from [m = 1024] on, as it is for an infinite [m]; [inf / inf] is NaN, and
    [np.clip] leaves NaN as it is. *)
Definition _m_values_to_beta (m_value : xreal) : xreal :=
  match m_value with
  | Finite m =>
      if Rle_dec 1024 m then NaN
      else Finite (np_clip (Rpower 2 m / (1 + Rpower 2 m)) 0 1)
  | PosInf => NaN
  | NegInf => Finite 0
  | NaN => NaN
  end.

(** *** [quality_control] *)

(** A probe-by-sample table whose cells may be missing (NaN): the sample
    identifiers and, per probe, its identifier with its cells, one per
    sample. *)
Record Frame : Type := {
  f_columns : list string;
  f_rows : list (string * list (option Q))
}.

Definition f_index (f : Frame) : list string := map fst (f_rows f).

(** [frame.mean(axis=0)] at sample [j]: the mean of the cells that are not
    missing, NaN when there is none.  The mean is the exact one, not its
    floating-point rounding. *)
Definition column_mean (f : Frame) (j : nat) : option Q :=
  match omap (fun r => mjoin (snd r !! j)) (f_rows f) with
  | [] => None
  | xs => Some (fold_right Qplus 0 xs / inject_Z (Z.of_nat (length xs)))%Q
  end.

(** [x < threshold]: false on NaN. *)
Definition below (threshold : Q) (x : option Q) : bool :=
  match x with
  | Some q => negb (Qle_bool threshold q)
  | None => false
  end.

(** Selection by a boolean mask: the entries at the positions where the mask
    is set.  The frames share their labels, so that a mask computed on one
    selects by position in the other. *)
Definition select {A} (mask : list bool) (l : list A) : list A :=
  map fst (List.filter snd (combine l mask)).

(** [frame.loc[:, mask]] *)
Definition select_columns (mask : list bool) (f : Frame) : Frame :=
  {| f_columns := select mask (f_columns f);
     f_rows := map (fun r => (fst r, select mask (snd r))) (f_rows f) |}.

(** [frame[mask]] *)
Definition select_rows (mask : list bool) (f : Frame) : Frame :=
  {| f_columns := f_columns f; f_rows := select mask (f_rows f) |}.

Record QCResult : Type := {
  betas_qc : Frame;
  detP_qc : Frame;
  n_probes_after_qc : nat;
  n_samples_after_qc : nat;
  sex_cpgs_removed : bool
}.

(** [sex_cpgs] is what the R annotation gives for the probes of the sex
    chromosomes, or the exception of the attempt to get it. *)
Definition quality_control (sex_cpgs : Exc (list string))
    (betas detP : Frame) (det_p_threshold : Q) : Exc QCResult :=
  (* 1. Filter samples by mean detection p-value *)
  let good_samples :=
    map (fun j => below det_p_threshold (column_mean detP j))
      (seq 0 (length (f_columns detP))) in
  if negb (existsb Datatypes.id good_samples) then
    Raise "No samples passed QC — all have mean detection p-value ≥ threshold."
  else
    let betas_f := select_columns good_samples betas in
    let detP_f := select_columns good_samples detP in
    (* 2. Filter probes: ALL samples must pass the threshold *)
    let keep_probes :=
      map (fun r => forallb (below det_p_threshold) (snd r)) (f_rows detP_f) in
    let betas_f := select_rows keep_probes betas_f in
    let detP_f := select_rows keep_probes detP_f in
    (* 3. Remove probes with any NaN *)
    let complete :=
      map (fun r => forallb (fun x : option Q => bool_decide (is_Some x)) (snd r))
        (f_rows betas_f) in
    let betas_f := select_rows complete betas_f in
    let detP_f := select_rows complete detP_f in
    (* 4. Keep only CpG probes (those starting with 'cg') *)
    let cpg_mask := map (fun r => String.prefix "cg" (fst r)) (f_rows betas_f) in
    let betas_f := select_rows cpg_mask betas_f in
    let detP_f := select_rows cpg_mask detP_f in
    (* 5. Remove sex chromosome CpGs using R annotation *)
    let '(betas_f, detP_f, sex_cpgs_removed) :=
      match sex_cpgs with
      | Ret sex_cpgs_list =>
          let non_sex :=
            map (fun r => negb (existsb (String.eqb (fst r)) sex_cpgs_list))
              (f_rows betas_f) in
          (select_rows non_sex betas_f, select_rows non_sex detP_f, true)
      | Raise _ => (betas_f, detP_f, false)
      end in
    Ret {| betas_qc := betas_f;
           detP_qc := detP_f;
           n_probes_after_qc := length (f_rows betas_f);
           n_samples_after_qc := length (f_columns betas_f);
           sex_cpgs_removed := sex_cpgs_removed |}.

(** Every row has one cell per sample. *)
Definition rectangular (f : Frame) : Prop :=
  Forall (fun r => length (snd r) = length (f_columns f)) (f_rows f).

(** The two frames carry the same labels. *)
Definition aligned (f g : Frame) : Prop :=
  f_columns f = f_columns g ∧ f_index f = f_index g.


End Preprocessing.

(** ** moira/analysis.py: the statistical analysis engine *)

Module Analysis.

Definition _DEFAULT_N_TOP_CPGS : Z := 10000.

(** *** Sample sheet access *)

(** [series.unique()]: the distinct values in order of first appearance. *)
Fixpoint unique_from {A} (same : A -> A -> bool) (seen l : list A) : list A :=
  match l with
  | [] => []
  | x :: l' =>
      if existsb (same x) seen then unique_from same seen l'
      else x :: unique_from same (x :: seen) l'
  end.

Definition unique {A} (same : A -> A -> bool) (l : list A) : list A :=
  unique_from same [] l.

(** [unique] sees all missing values as one value; [==] sees a missing value
    as different from everything, itself included. *)
Definition cell_same (a b : cell) : bool :=
  match a, b with
  | Some x, Some y => String.eqb x y
  | None, None => true
  | _, _ => false
  end.

Definition cell_eq (a b : cell) : bool :=
  match a, b with
  | Some x, Some y => String.eqb x y
  | _, _ => false
  end.

(** [str(v)] of a cell. *)
Definition cell_str (c : cell) : string := default "nan" c.

(** [series.dropna()] *)
Definition dropna (l : list cell) : list string := omap Datatypes.id l.

Definition column_cells (t : Targets) (col : string) : list cell :=
  default [] (dict_get (t_data t) col).

(** [targets.loc[labels, col]]: for each label in turn, the rows that carry
    it, as pairs of the label and the cell. *)
Definition loc (t : Targets) (labels : list string) (col : string)
    : list (string * cell) :=
  flat_map
    (fun label =>
       List.filter (fun row => String.eqb (fst row) label)
         (combine (t_index t) (column_cells t col)))
    labels.

(** [[s for s in betas.columns if s in targets.index]] *)
Definition common_samples (betas : Matrix) (t : Targets) : list string :=
  List.filter (fun s => existsb (String.eqb s) (t_index t)) (columns betas).

(** [len(targets.loc[common, col].dropna().unique()) == 2] *)
Definition two_valued (t : Targets) (common : list string) (col : string)
    : bool :=
  length (unique String.eqb (dropna (map snd (loc t common col)))) =? 2.

(** The test of the first loop of [_select_group_column]:
    [col and col in targets.columns] and two distinct values. *)
Definition candidate_ok (t : Targets) (common : list string)
    (candidate : option string) : bool :=
  match candidate with
  | None => false
  | Some col =>
      negb (String.eqb col EmptyString)
      && existsb (String.eqb col) (t_columns t)
      && two_valued t common col
  end.

Definition _select_group_column (betas : Matrix) (t : Targets)
    (column_mappings : pydict string) : option string :=
  let candidates :=
    [dict_get column_mappings "genotype"; dict_get column_mappings "tissue"]
    ++ map Some (dict_values column_mappings) in
  let common := common_samples betas t in
  match common with
  | [] => None
  | _ =>
      match List.find (candidate_ok t common) candidates with
      | Some col => col
      | None => List.find (two_valued t common) (t_columns t)
      end
  end.

(** *** Benjamini-Hochberg adjustment *)

Definition Qlt_bool (x y : Q) : bool := negb (Qle_bool y x).

(** [scipy.stats.rankdata(p_values)] with its default method: a value gets
    the average of the 1-based positions that it and its ties occupy in
    sorted order, that is (number of smaller values) + (number of equal
    values + 1) / 2. *)
Definition average_rank (p_values : list Q) (p : Q) : Q :=
  let smaller := length (List.filter (fun q => Qlt_bool q p) p_values) in
  let equal := length (List.filter (fun q => Qeq_bool q p) p_values) in
  (inject_Z (Z.of_nat smaller) + (inject_Z (Z.of_nat equal) + 1) / 2)%Q.

Definition rankdata (p_values : list Q) : list Q :=
  map (average_rank p_values) p_values.

(** The nearest integer, a tie going to the even one. *)
Definition round_half_even (x : Q) : Z :=
  let f := Qfloor x in
  match Qcompare (x - inject_Z f) (1 # 2) with
  | Lt => f
  | Gt => (f + 1)%Z
  | Eq => if Z.even f then f else (f + 1)%Z
  end.

(** [floor(log2(x))] for a positive [x]. *)
Definition floor_log2 (x : Q) : Z :=
  let k := (Z.log2 (Qnum x) - Z.log2 (Zpos (Qden x)))%Z in
  if Qle_bool (Qpower 2 k) x then k else (k - 1)%Z.

(** The binary64 number nearest to a positive number: 53 significant bits,
    exponents from -1074 on (the subnormal numbers included).  Numbers
    beyond the largest binary64 number, which round to infinity, do not
    occur below: a p-value times the number of p-values is at most that
    number. *)
Definition fl64_pos (x : Q) : Q :=
  let e := Z.max (floor_log2 x - 52) (-1074) in
  (inject_Z (round_half_even (x / Qpower 2 e)) * Qpower 2 e)%Q.

(** The value of a floating-point operation whose exact result is [x]. *)
Definition fl64 (x : Q) : Q :=
  match Qcompare x 0 with
  | Eq => 0%Q
  | Gt => fl64_pos x
  | Lt => (- fl64_pos (- x))%Q
  end.

(** [np.minimum(p_values * n / ranks, 1.0)]: a product and a quotient of
    binary64 numbers, each rounded. *)
Definition bh_fdr (p_values : list Q) : list Q :=
  let n := inject_Z (Z.of_nat (length p_values)) in
  map (fun pr => Qmin (fl64 (fl64 (fst pr * n) / snd pr)) 1)%Q
      (combine p_values (rankdata p_values)).

(** *** Differential analysis *)

(** A row of the table of differentially methylated probes. *)
Record Dmp : Type := {
  probe : string;
  log2_fc : Q;
  t_stat : Q;
  p_value : Q;
  fdr : Q
}.

Definition dmp_record (d : Dmp) : value :=
  VDict [ ("probe", VStr (probe d)); ("log2_fc", VFloat (log2_fc d));
          ("t_stat", VFloat (t_stat d)); ("p_value", VFloat (p_value d));
          ("fdr", VFloat (fdr d)) ].

(** [sort_values("fdr")], as a stable insertion sort (pandas does not
    promise an order among equal keys). *)
Fixpoint insert_by_fdr (d : Dmp) (l : list Dmp) : list Dmp :=
  match l with
  | [] => [d]
  | d' :: l' =>
      if Qlt_bool (fdr d) (fdr d') then d :: l
      else d' :: insert_by_fdr d l'
  end.

Definition sort_by_fdr (l : list Dmp) : list Dmp :=
  fold_right insert_by_fdr [] l.

(** Welch's t-test on the M-values of the matched samples, computed by
    scipy on floating-point numbers.  For every probe, in the order of the
    index of the beta matrix: the fold change (mean M-value of group 1 minus
    that of group 2), the t statistic and the p-value.  The three are
    numbers: a test without a number for a result (NaN, for a probe without
    variance) is outside the model. *)
Record ProbeTest : Type := {
  pt_log2_fc : Q;
  pt_t_stat : Q;
  pt_p_value : Q
}.

Definition Welch : Type :=
  Matrix -> list string -> list string -> list string -> list ProbeTest.

Definition differential_analysis (welch : Welch) (betas : Matrix)
    (targets : option Targets) (column_mappings : pydict string)
    (fdr_threshold : Q) (top_n : nat) : payload :=
  match targets with
  | None => error_entry "No targets (samplesheet) provided."
  | Some t =>
      match _select_group_column betas t column_mappings with
      | None =>
          error_entry
            ("Could not find a suitable two-group column in targets. "
             +:+ "Ensure 'genotype' or 'tissue' is mapped and has exactly 2 unique values.")
      | Some group_col =>
          let common := common_samples betas t in
          if length common <? 4 then
            error_entry
              ("Too few matched samples (" +:+ str_of_nat (length common)
               +:+ ") for differential analysis.")
          else
            let groups := loc t common group_col in
            match unique cell_same (map snd groups) with
            | [u1; u2] =>
                let g1_name := cell_str u1 in
                let g2_name := cell_str u2 in
                let g1_samples :=
                  map fst (List.filter (fun row => cell_eq (snd row) u1) groups) in
                let g2_samples :=
                  map fst (List.filter (fun row => cell_eq (snd row) u2) groups) in
                let tests := welch betas common g1_samples g2_samples in
                let p_values := map pt_p_value tests in
                let dmp_df :=
                  sort_by_fdr
                    (map (fun row =>
                            let '(name, test, q) := row in
                            {| probe := name;
                               log2_fc := pt_log2_fc test;
                               t_stat := pt_t_stat test;
                               p_value := pt_p_value test;
                               fdr := q |})
                       (combine (combine (index betas) tests)
                          (bh_fdr p_values))) in
                let sig :=
                  List.filter (fun d => Qlt_bool (fdr d) fdr_threshold) dmp_df in
                [ ("comparison", VStr (g1_name +:+ " vs " +:+ g2_name));
                  ("group_column", VStr group_col);
                  ("groups", VList [VStr g1_name; VStr g2_name]);
                  ("group_sizes",
                   VDict (dict_set
                            (dict_set [] g1_name
                               (VInt (Z.of_nat (length g1_samples))))
                            g2_name (VInt (Z.of_nat (length g2_samples)))));
                  ("n_probes_tested", VInt (Z.of_nat (length dmp_df)));
                  ("n_significant_dmps", VInt (Z.of_nat (length sig)));
                  ("fdr_threshold", VFloat fdr_threshold);
                  ("top_dmps", VList (map dmp_record (take top_n dmp_df))) ]
            | unique_groups =>
                error_entry
                  ("Column '" +:+ group_col +:+ "' has "
                   +:+ str_of_nat (length unique_groups)
                   +:+ " unique values; exactly 2 are required.")
            end
      end
  end.

(** *** Volcano plot *)

Definition RED : string := "#E8433A".   (* significant + large FC *)
Definition BLUE : string := "#2560E0".  (* significant only *)
Definition GREY : string := "#AAAAAA".  (* not significant *)

(** What [create_volcano_plot] does outside its own computation. *)
Record Figure : Type := {
  (** [Path(plots_dir).mkdir(parents=True, exist_ok=True)]: the message of
      the exception, if it raises. *)
  fig_mkdir : string -> option string;
  (** [plt.subplots(figsize=(9, 7))]: the message of the exception, if it
      raises. *)
  fig_subplots : option string;
  (** The calls of matplotlib that follow, from [ax.scatter] to
      [plt.close], on the table, the colours and the path of the file: the
      message of the exception, if one raises. *)
  fig_draw : list payload -> list string -> string -> option string;
  (** The function from [pd.DataFrame] on, for a ["top_dmps"] that is not a
      list of dictionaries with numbers in the fields that are read: what
      pandas makes of such a value is not modelled. *)
  fig_irregular : payload -> string -> string -> Q -> Q -> Exc payload
}.

Definition is_number (v : value) : bool :=
  match v with
  | VInt _ | VFloat _ => true
  | _ => false
  end.

Definition numeric_field (row : payload) (key : string) : bool :=
  match dict_get row key with
  | Some v => is_number v
  | None => true
  end.

(** The rows of [pd.DataFrame(diff_results.get("top_dmps", []))], for a
    list of dictionaries whose fields "fdr", "log2_fc" and "p_value" hold
    numbers where they are present. *)
Definition top_dmps_rows (diff_results : payload) : option (list payload) :=
  match dict_get diff_results "top_dmps" with
  | None => Some []
  | Some (VList rows) =>
      records ← mapM (fun r => match r with VDict d => Some d | _ => None end)
                  rows;
      if forallb
           (fun r => forallb (numeric_field r) ["fdr"; "log2_fc"; "p_value"])
           records
      then Some records else None
  | Some _ => None
  end.

(** The columns of the table are the keys of all its rows. *)
Definition has_column (rows : list payload) (key : string) : bool :=
  existsb (fun r => dict_has r key) rows.

(** [dmps[key]]: [KeyError] for a key that no row has. *)
Definition column (rows : list payload) (key : string) : Exc unit :=
  if has_column rows key then Ret tt else Raise ("'" +:+ key +:+ "'").

(** [row[key]] for a row of the table [rows], as a number: NaN ([None])
    where this row lacks the key and another row has it; [KeyError] where no
    row has it. *)
Definition row_float (rows : list payload) (row : payload) (key : string)
    : Exc (option Q) :=
  _ ← column rows key;
  Ret (match dict_get row key with
       | Some (VFloat q) => Some q
       | Some (VInt n) => Some (inject_Z n)
       | _ => None
       end).

(** A comparison with NaN is false. *)
Definition _colour (rows : list payload) (fc_threshold fdr_threshold : Q)
    (row : payload) : Exc string :=
  q ← row_float rows row "fdr";
  if from_option (fun q => Qlt_bool q fdr_threshold) false q then
    fc ← row_float rows row "log2_fc";
    if from_option (fun fc => Qle_bool fc_threshold (Qabs fc)) false fc
    then Ret RED else Ret BLUE
  else Ret GREY.

(** [dmps.empty]: no row, or no column. *)
Definition empty (rows : list payload) : bool :=
  forallb (fun r => match r with [] => true | _ => false end) rows.

Definition count_colour (c : string) (colours : list string) : nat :=
  length (List.filter (String.eqb c) colours).

Definition create_volcano_plot (fig : Figure) (welch : Welch) (betas : Matrix)
    (targets : option Targets) (diff_results : option payload)
    (column_mappings : pydict string) (step_name plots_dir : string)
    (fc_threshold fdr_threshold : Q) : Exc payload :=
  match fig_mkdir fig plots_dir with
  | Some msg => Raise msg
  | None =>
      let diff_results :=
        match diff_results with
        | None =>
            differential_analysis welch betas targets column_mappings
              (1 # 20) 200
        | Some d => d
        end in
      if dict_has diff_results "error" then Ret diff_results
      else
        match top_dmps_rows diff_results with
        | None =>
            fig_irregular fig diff_results step_name plots_dir fc_threshold
              fdr_threshold
        | Some dmps =>
            if empty dmps then
              Ret (error_entry "No DMPs available for volcano plot.")
            else
              colours ← mapM (_colour dmps fc_threshold fdr_threshold) dmps;
              _ ← column dmps "p_value";
              _ ← from_option Raise (Ret tt) (fig_subplots fig);
              _ ← column dmps "log2_fc";
              let plot_path := plots_dir +:+ "/" +:+ step_name +:+ ".png" in
              _ ← from_option Raise (Ret tt) (fig_draw fig dmps colours plot_path);
              let comparison :=
                default (VStr EmptyString)
                  (dict_get diff_results "comparison") in
              let n_sig_fc := count_colour RED colours in
              Ret [ ("comparison", comparison);
                    ("n_highlighted_dmps", VInt (Z.of_nat n_sig_fc));
                    ("fc_threshold", VFloat fc_threshold);
                    ("fdr_threshold", VFloat fdr_threshold);
                    ("plots", VDict [("volcano", VStr plot_path)]) ]
        end
  end.

(** *** Principal component analysis: which samples and how many probes *)

Fixpoint position {A} (test : A -> bool) (l : list A) : option nat :=
  match l with
  | [] => None
  | x :: l' => if test x then Some 0 else S <$> position test l'
  end.

(** The row of the sample sheet at a position, as a series over the
    columns. *)
Definition row_at (t : Targets) (pos : nat) : pydict cell :=
  map (fun col => (fst col, default None (snd col !! pos))) (t_data t).

(** The positions of the entries that pass a test, in order. *)
Fixpoint positions_from {A} (test : A -> bool) (i : nat) (l : list A)
    : list nat :=
  match l with
  | [] => []
  | x :: l' =>
      if test x then i :: positions_from test (S i) l'
      else positions_from test (S i) l'
  end.

Definition positions {A} (test : A -> bool) (l : list A) : list nat :=
  positions_from test 0 l.

(** What [targets.loc[label]] and [targets[mask].iloc[0]] return: one row
    as a series, or, for a label that several rows carry, the table of
    these rows. *)
Inductive Selection : Type :=
  | Series (row : pydict cell)
  | DataFrame (rows : list (pydict cell)).

(** [targets.loc[label]], for a label of the index. *)
Definition loc_label (t : Targets) (label : string) : Selection :=
  match positions (String.eqb label) (t_index t) with
  | [pos] => Series (row_at t pos)
  | several => DataFrame (map (row_at t) several)
  end.

(** A cell after [astype(str)].  What a missing cell becomes depends on the
    version of pandas: the text "nan" where the column is converted to
    Python strings ([na_text = Some "nan"]), or it stays missing where the
    result is a string array ([na_text = None]). *)
Definition astype_str (na_text : option string) (c : cell) : option string :=
  match c with
  | Some v => Some v
  | None => na_text
  end.

(** [.str.contains(sample_name, na=False, regex=False)] on one cell. *)
Definition cell_contains (na_text : option string) (sample_name : string)
    (c : cell) : bool :=
  match astype_str na_text c with
  | Some text => str_contains sample_name text
  | None => false
  end.

Definition _find_target_row (na_text : option string) (sample_name : string)
    (targets : option Targets) : option Selection :=
  match targets with
  | None => None
  | Some t =>
      if existsb (String.eqb sample_name) (t_index t) then
        Some (loc_label t sample_name)
      else
        (* Partial index match *)
        match List.find (str_contains sample_name) (t_index t) with
        | Some idx => Some (loc_label t idx)
        | None =>
            (* Column-value scan *)
            let hit := cell_contains na_text sample_name in
            match List.find (fun col => existsb hit (snd col)) (t_data t) with
            | Some col => Series <$> (row_at t <$> position hit (snd col))
            | None => None
            end
        end
  end.

(** The samples that enter the analysis: those with a row in the sample
    sheet, or all of them when none has one. *)
Definition matched_samples (na_text : option string) (betas : Matrix)
    (targets : option Targets) : list string :=
  match List.filter
          (fun sample =>
             match _find_target_row na_text sample targets with
             | Some _ => true
             | None => false
             end)
          (columns betas) with
  | [] => columns betas
  | matched => matched
  end.

(** [actual_top = min(n_top_cpgs, len(probe_vars))]: one variance per probe. *)
Definition actual_top (n_top_cpgs : Z) (betas : Matrix) : Z :=
  Z.min n_top_cpgs (Z.of_nat (length (index betas))).

(** The number of rows of [m_top]: [nlargest(actual_top)] selects that many
    probes, none when the number is not positive. *)
Definition n_features (n_top_cpgs : Z) (betas : Matrix) : nat :=
  Z.to_nat (actual_top n_top_cpgs betas).

(** [coords.shape[1]] for [PCA().fit_transform] on a matrix of [n_samples]
    rows and [n_features] columns: scikit-learn keeps
    [min(n_samples, n_features)] components when [n_components] is not
    given. *)
Definition pca_columns (n_samples n_features : nat) : nat :=
  Nat.min n_samples n_features.

(** [n_components = min(10, coords.shape[1])] *)
Definition n_components (na_text : option string) (n_top_cpgs : Z)
    (betas : Matrix) (targets : option Targets) : nat :=
  Nat.min 10
    (pca_columns (length (matched_samples na_text betas targets))
       (n_features n_top_cpgs betas)).

(** The two counts in the payload of [perform_pca]. *)
Definition perform_pca_counts (na_text : option string) (n_top_cpgs : Z)
    (betas : Matrix) (targets : option Targets) : payload :=
  [ ("n_components",
     VInt (Z.of_nat (n_components na_text n_top_cpgs betas targets)));
    ("n_top_cpgs_used", VInt (actual_top n_top_cpgs betas)) ].

(** *** M-values at the call sites of this module *)

(** [np.log2(betas_m / (1 - betas_m + 1e-6))] in [perform_pca]. *)
Definition pca_m_value (beta : R) : xreal :=
  np_log2 (np_div beta (1 - beta + 1 / 1000000)).

(** [np.log2(np.clip(b, 0.001, 0.999) / (1 - np.clip(b, 0.001, 0.999)))] in
    [differential_analysis]. *)
Definition diff_m_value (beta : R) : xreal :=
  np_log2 (np_div (np_clip beta (1 / 1000) (999 / 1000))
             (1 - np_clip beta (1 / 1000) (999 / 1000))).

(** The order of [sort_values("fdr")]. *)
Definition fdr_le (d d' : Dmp) : Prop := (fdr d <= fdr d')%Q.


(** *** What the selection of the grouping column is checked against *)

(** The specification's words, not the code's: [v] is a value of column
    [col] for a sample present in both the beta matrix and the sample
    sheet. *)
Definition group_value (betas : Matrix) (t : Targets) (col v : string)
    : Prop :=
  ∃ s, In s (columns betas)
       ∧ In (s, Some v) (combine (t_index t) (column_cells t col)).

(** The values of [col], restricted to the samples present in both tables,
    are exactly two distinct values. *)
Definition exactly_two_values (betas : Matrix) (t : Targets) (col : string)
    : Prop :=
  ∃ a b, a ≠ b ∧ ∀ v, group_value betas t col v ↔ v = a ∨ v = b.

End Analysis.

(** ** moira/core.py: the stage orchestrator *)

Module Core.

Definition KNOWN_STEPS : list string :=
  [ "read_idat_files"; "quality_control"; "combat_normalization";
    "basic_statistics"; "perform_pca"; "create_heatmap";
    "create_volcano_plot"; "differential_analysis" ].

(** What [preprocessing.read_idat_files] returns. *)
Record ReadIdat : Type := {
  ri_betas : Matrix;
  ri_detP : Matrix;
  ri_n_probes : nat;
  ri_n_samples : nat;
  ri_targets : option Targets
}.

(** What [preprocessing.quality_control] returns. *)
Record QC : Type := {
  betas_qc : Matrix;
  detP_qc : Matrix;
  n_probes_after_qc : nat;
  n_samples_after_qc : nat;
  sex_cpgs_removed : bool
}.

(** What [preprocessing.combat_normalization] returns. *)
Record Combat : Type := {
  betas_combat : Matrix;
  n_batches : nat;
  batches : list value
}.

(** The functions [run_workflow] calls.  The leading [nat] is the position
    of the calling stage in the run: a collaborator may answer differently
    each time it is called. *)
Record Handlers : Type := {
  read_idat_files :
    nat -> string -> string -> pydict string -> Exc ReadIdat;
  quality_control : nat -> Matrix -> Matrix -> Exc QC;
  combat_normalization : nat -> Matrix -> Targets -> string -> Exc Combat;
  basic_statistics : nat -> Matrix -> option Targets -> Exc payload;
  perform_pca :
    nat -> Matrix -> option Targets -> string -> pydict string -> string ->
    Exc payload;
  create_heatmap : nat -> Matrix -> option Targets -> string -> Exc payload;
  differential_analysis :
    nat -> Matrix -> option Targets -> pydict string -> Exc payload;
  create_volcano_plot :
    nat -> Matrix -> option Targets -> option payload -> pydict string ->
    string -> Exc payload;
  (** [Path(plots_dir).mkdir(parents=True, exist_ok=True)]: the message of
      the exception, if it raises. *)
  make_plots_dir : string -> option string;
  (** writing workflow_summary.json: the message of the exception, if any. *)
  write_summary : string -> list string -> ledger -> option string
}.

(** The attributes of a [MoIRA] object that [run_workflow] reads. *)
Record MoIRA : Type := {
  samplesheet_path : string;
  idat_folder : string;
  output_dir : string;
  targets : option Targets;
  column_mappings : pydict string
}.

(** The local variables of [run_workflow]: the result ledger and the
    pipeline state. *)
Record State : Type := {
  results : ledger;
  current_betas : option Matrix;
  current_detP : option Matrix;
  current_targets : option Targets
}.

Definition set_result (st : State) (k : string) (v : payload) : State :=
  {| results := dict_set (results st) k v;
     current_betas := current_betas st;
     current_detP := current_detP st;
     current_targets := current_targets st |}.

Definition set_betas (st : State) (b : Matrix) : State :=
  {| results := results st;
     current_betas := Some b;
     current_detP := current_detP st;
     current_targets := current_targets st |}.

(** [{k: v for k, v in res.items() if k != "plots"}] followed by
    [["plot_files"] = list(res.get("plots", {}).values())]. *)
Definition without_plots (res : payload) : payload :=
  List.filter (fun kv => negb (String.eqb (fst kv) "plots")) res.

Definition plot_files (res : payload) : Exc (list value) :=
  match dict_get res "plots" with
  | None => Ret []
  | Some (VDict d) => Ret (dict_values d)
  | Some _ => Raise "object has no attribute 'values'"
  end.

Definition with_plot_files (res : payload) : Exc payload :=
  files ← plot_files res;
  Ret (dict_set (without_plots res) "plot_files" (VList files)).

(** The body of the [try] statement for one stage: it raises, or it returns
    the updated local variables.  Every exception is raised by a
    precondition check or by the handler call, before any assignment (an
    exception of [with_plot_files] is raised after the first assignment to
    the stage's own key, which the [except] clause then overwrites). *)
Definition try_body (m : MoIRA) (h : Handlers) (plots_dir : string)
    (idx : nat) (step : string) (st : State) : Exc State :=
  if String.eqb step "read_idat_files" then
    res ← read_idat_files h idx (idat_folder m) (samplesheet_path m)
            (column_mappings m);
    Ret {| results :=
             dict_set (results st) "read_idat_files"
               [ ("n_probes", VInt (Z.of_nat (ri_n_probes res)));
                 ("n_samples", VInt (Z.of_nat (ri_n_samples res))) ];
           current_betas := Some (ri_betas res);
           current_detP := Some (ri_detP res);
           current_targets := ri_targets res |}
  else if String.eqb step "quality_control" then
    match current_betas st, current_detP st with
    | Some betas, Some detP =>
        res ← quality_control h idx betas detP;
        Ret (set_result (set_betas st (betas_qc res)) "quality_control"
               [ ("n_probes_after_qc", VInt (Z.of_nat (n_probes_after_qc res)));
                 ("n_samples_after_qc", VInt (Z.of_nat (n_samples_after_qc res)));
                 ("sex_cpgs_removed", VBool (sex_cpgs_removed res)) ])
    | _, _ => Raise "quality_control requires read_idat_files to run first."
    end
  else if String.eqb step "combat_normalization" then
    match current_betas st with
    | None =>
        Raise "combat_normalization requires read_idat_files (and optionally quality_control) to run first."
    | Some betas =>
        match current_targets st with
        | None => Raise "combat_normalization requires targets (samplesheet)."
        | Some tg =>
            let batch_col :=
              default "batch" (dict_get (column_mappings m) "batch") in
            res ← combat_normalization h idx betas tg batch_col;
            Ret (set_result (set_betas st (betas_combat res))
                   "combat_normalization"
                   [ ("n_batches", VInt (Z.of_nat (n_batches res)));
                     ("batches", VList (batches res));
                     ("batch_column", VStr batch_col) ])
        end
    end
  else if String.eqb step "basic_statistics" then
    match current_betas st with
    | None => Raise "basic_statistics requires beta values."
    | Some betas =>
        res ← basic_statistics h idx betas (current_targets st);
        Ret (set_result st "basic_statistics" res)
    end
  else if String.eqb step "perform_pca" then
    match current_betas st with
    | None => Raise "perform_pca requires beta values."
    | Some betas =>
        res ← perform_pca h idx betas (current_targets st) "pca"
                (column_mappings m) plots_dir;
        entry ← with_plot_files res;
        Ret (set_result st "perform_pca" entry)
    end
  else if String.eqb step "create_heatmap" then
    match current_betas st with
    | None => Raise "create_heatmap requires beta values."
    | Some betas =>
        res ← create_heatmap h idx betas (current_targets st) plots_dir;
        entry ← with_plot_files res;
        Ret (set_result st "create_heatmap" entry)
    end
  else if String.eqb step "differential_analysis" then
    match current_betas st with
    | None => Raise "differential_analysis requires beta values."
    | Some betas =>
        res ← differential_analysis h idx betas (current_targets st)
                (column_mappings m);
        Ret (set_result st "differential_analysis" res)
    end
  else if String.eqb step "create_volcano_plot" then
    match current_betas st with
    | None => Raise "create_volcano_plot requires beta values."
    | Some betas =>
        let diff_results := dict_get (results st) "differential_analysis" in
        res ← create_volcano_plot h idx betas (current_targets st)
                diff_results (column_mappings m) plots_dir;
        entry ← with_plot_files res;
        Ret (set_result st "create_volcano_plot" entry)
    end
  else Ret st.

(** One iteration of the loop after the progress callback: the [try] body
    and its [except Exception] clause. *)
Definition run_stage (m : MoIRA) (h : Handlers) (plots_dir : string)
    (idx : nat) (step : string) (st : State) : State :=
  match try_body m h plots_dir idx step st with
  | Ret st' => st'
  | Raise msg => set_result st step (error_entry msg)
  end.

Definition normalize (raw_step : string) : string := lower (strip raw_step).

Section Loop.
(** The state the progress callback mutates. *)
Context {W : Type}.
Variable m : MoIRA.
Variable h : Handlers.
Variable on_progress : option (string -> nat -> nat -> W -> W).
Variable plots_dir : string.
Variable total : nat.

(** [for idx, raw_step in enumerate(workflow_steps, 1)], from [idx] on. *)
Fixpoint run_steps (idx : nat) (workflow_steps : list string)
    (w : W) (st : State) : W * State :=
  match workflow_steps with
  | [] => (w, st)
  | raw_step :: rest =>
      let step := normalize raw_step in
      let w' :=
        match on_progress with
        | Some callback => callback step idx total w
        | None => w
        end in
      run_steps (S idx) rest w' (run_stage m h plots_dir idx step st)
  end.
End Loop.

Definition initial_state (m : MoIRA) : State :=
  {| results := [];
     current_betas := None;
     current_detP := None;
     current_targets := targets m |}.

Definition plots_dir_of (m : MoIRA) : string := output_dir m +:+ "/plots".
Definition summary_path_of (m : MoIRA) : string :=
  output_dir m +:+ "/workflow_summary.json".

(** [MoIRA.run_workflow]: the final state of the callback and either the
    ledger or the exception that escaped. *)
Definition run_workflow {W} (m : MoIRA) (h : Handlers)
    (workflow_steps : list string)
    (on_progress : option (string -> nat -> nat -> W -> W)) (w : W)
    : W * Exc ledger :=
  let plots_dir := plots_dir_of m in
  match make_plots_dir h plots_dir with
  | Some msg => (w, Raise msg)
  | None =>
      let total := length workflow_steps in
      let '(w', st) :=
        run_steps m h on_progress plots_dir total 1 workflow_steps w
          (initial_state m) in
      match write_summary h (summary_path_of m) workflow_steps
              (results st) with
      | Some msg => (w', Raise msg)
      | None => (w', Ret (results st))
      end
  end.

(** The calls [on_progress(step, idx, total)] that the loop makes, in order,
    from position [idx] on. *)
Fixpoint progress_calls_from (total idx : nat) (workflow_steps : list string)
    : list (string * nat * nat) :=
  match workflow_steps with
  | [] => []
  | raw_step :: rest =>
      (normalize raw_step, idx, total) :: progress_calls_from total (S idx) rest
  end.

Definition progress_calls (workflow_steps : list string)
    : list (string * nat * nat) :=
  progress_calls_from (length workflow_steps) 1 workflow_steps.

(** A callback that appends each call to a log. *)
Definition record_call (step : string) (idx total : nat)
    (log : list (string * nat * nat)) : list (string * nat * nat) :=
  (log ++ [(step, idx, total)])%list.

(** The local variables of [run_workflow] after the first [k] iterations of
    its loop. *)
Definition state_after (m : MoIRA) (h : Handlers)
    (workflow_steps : list string) (k : nat) : State :=
  snd (run_steps (W := unit) m h None (plots_dir_of m)
         (length workflow_steps) 1 (take k workflow_steps) tt
         (initial_state m)).

(** The handlers with the two stages that [Analysis] models in full plugged
    in, called with the default thresholds as [run_workflow] does. *)
Definition with_engine (fig : Analysis.Figure) (welch : Analysis.Welch)
    (h : Handlers) : Handlers :=
  {| read_idat_files := read_idat_files h;
     quality_control := quality_control h;
     combat_normalization := combat_normalization h;
     basic_statistics := basic_statistics h;
     perform_pca := perform_pca h;
     create_heatmap := create_heatmap h;
     differential_analysis := fun _ betas targets column_mappings =>
       Ret (Analysis.differential_analysis welch betas targets
              column_mappings (1 # 20) 200);
     create_volcano_plot :=
       fun _ betas targets diff_results column_mappings plots_dir =>
         Analysis.create_volcano_plot fig welch betas targets diff_results
           column_mappings "volcano" plots_dir 1 (1 # 20);
     make_plots_dir := make_plots_dir h;
     write_summary := write_summary h |}.

(** [step in KNOWN_STEPS] *)
Definition is_known (step : string) : bool :=
  existsb (String.eqb step) KNOWN_STEPS.

(** *** [OpenRouterAI._normalize_json], on ASCII text *)

(** The line feed, as a string. *)
Definition LF : string := String (ascii_of_nat 10) EmptyString.

(** [s.endswith(suffix)] *)
Fixpoint endswith (suffix s : string) : bool :=
  String.eqb suffix s ||
  match s with
  | EmptyString => false
  | String _ s' => endswith suffix s'
  end.

(** [s.find(sub)]: the first position of [sub] in [s]; [None] is -1. *)
Fixpoint find (sub s : string) : option nat :=
  if String.prefix sub s then Some 0
  else
    match s with
    | EmptyString => None
    | String _ s' => S <$> find sub s'
    end.

(** [s.rfind(sub)]: the last position of [sub] in [s]; [None] is -1. *)
Fixpoint rfind (sub s : string) : option nat :=
  match s with
  | EmptyString => if String.prefix sub s then Some 0 else None
  | String _ s' =>
      match rfind sub s' with
      | Some k => Some (S k)
      | None => if String.prefix sub s then Some 0 else None
      end
  end.

(** [s[n:]] and [s[:n]] *)
Fixpoint str_drop (n : nat) (s : string) : string :=
  match n, s with
  | S n', String _ s' => str_drop n' s'
  | _, _ => s
  end.

Fixpoint str_take (n : nat) (s : string) : string :=
  match n, s with
  | S n', String c s' => String c (str_take n' s')
  | _, _ => EmptyString
  end.

(** [s.lstrip(chars)] *)
Fixpoint lstrip_chars (chars : list ascii) (s : string) : string :=
  match s with
  | EmptyString => EmptyString
  | String c s' =>
      if existsb (Ascii.eqb c) chars then lstrip_chars chars s' else s
  end.

(** [re.sub] of the pattern [<think>.*?</think>] by the empty string, with
    [re.DOTALL]: from left to right, an opening tag that a closing tag
    follows is removed with everything up to the nearest closing tag; [skip]
    counts the characters of the match that are still to be dropped. *)
Fixpoint remove_think_from (skip : nat) (s : string) : string :=
  match s with
  | EmptyString => EmptyString
  | String c s' =>
      match skip with
      | S skip' => remove_think_from skip' s'
      | 0 =>
          if String.prefix "<think>" s then
            match find "</think>" (str_drop 7 s) with
            | Some k => remove_think_from (6 + k + 8) s'
            | None => String c (remove_think_from 0 s')
            end
          else String c (remove_think_from 0 s')
      end
  end.

(** The loop [for i in range(start, len(s))] over the text from the first
    brace on: the number of characters up to and including the brace that
    brings [depth] back to zero. *)
Fixpoint object_end (depth : Z) (s : string) : option nat :=
  match s with
  | EmptyString => None
  | String c s' =>
      if Ascii.eqb c "{" then S <$> object_end (depth + 1) s'
      else if Ascii.eqb c "}" then
        if (depth - 1 =? 0)%Z then Some 1
        else S <$> object_end (depth - 1) s'
      else S <$> object_end depth s'
  end.

(** 2. Strip markdown code fences *)
Definition strip_fences (s : string) : string :=
  if String.prefix "```" s then
    match find LF s with
    | Some nl =>
        let s := str_drop (nl + 1) s in
        match rfind "```" s with
        | Some end_ => rstrip (str_take end_ s)
        | None => s
        end
    | None => s
    end
  else s.

(** 3. Strip bare "json" prefix some models emit *)
Definition strip_json_prefix (s : string) : string :=
  if String.prefix "json" (lower s) then
    let rest :=
      lstrip_chars
        [ascii_of_nat 13; ascii_of_nat 10; " "%char; ascii_of_nat 9; ":"%char]
        (str_drop 4 s) in
    if String.prefix "{" rest then rest else s
  else s.

(** 4. Extract the outermost { ... } object *)
Definition extract_object (s : string) : string :=
  if String.prefix "{" s && endswith "}" s then s
  else
    match find "{" s with
    | Some start =>
        match object_end 0 (str_drop start s) with
        | Some n => str_take n (str_drop start s)
        | None => s
        end
    | None => s
    end.

Definition _normalize_json (text : string) : string :=
  let s := strip text in
  (* 1. Remove <think>...</think> reasoning blocks *)
  let s := strip (remove_think_from 0 s) in
  let s := strip_fences s in
  let s := strip_json_prefix s in
  let s := strip s in
  extract_object s.

(** *** [OpenRouterAI._parse_response], after [json.loads] *)

(** The truth value of a JSON value in a condition. *)
Definition truthy (v : value) : bool :=
  match v with
  | VNone => false
  | VBool b => b
  | VInt n => negb (Z.eqb n 0)
  | VFloat q => negb (Qeq_bool q 0)
  | VStr s => negb (String.eqb s EmptyString)
  | VList l => match l with [] => false | _ => true end
  | VDict d => match d with [] => false | _ => true end
  end.

(** [v and str(v).lower() not in (...)], the three excluded texts being
    "null", "none" and the empty one.  Only a string can print as one of the
    three: a true number, boolean, list or dictionary prints with a digit,
    as "true", or with a bracket. *)
Definition keep_mapping (v : value) : bool :=
  truthy v &&
  match v with
  | VStr s => negb (existsb (String.eqb (lower s)) ["null"; "none"; EmptyString])
  | _ => true
  end.

(** The elements that [for s in steps_raw] visits: a list gives its
    elements; an empty dictionary or string gives nothing; anything else
    either yields strings, on which [s.get] raises, or cannot be iterated. *)
Definition iterate_steps (steps_raw : value) : Exc (list value) :=
  match steps_raw with
  | VList l => Ret l
  | VDict [] => Ret []
  | VStr EmptyString => Ret []
  | VDict _ | VStr _ => Raise "'str' object has no attribute 'get'"
  | _ => Raise "object is not iterable"
  end.

(** One round of [s["tool"] for s in steps_raw if s.get("tool") in
    KNOWN_STEPS]: the tool to keep, if any. *)
Definition known_tool (s : value) : Exc (option string) :=
  match s with
  | VDict d =>
      match dict_get d "tool" with
      | Some (VStr tool) => Ret (if is_known tool then Some tool else None)
      | _ => Ret None
      end
  | _ => Raise "object has no attribute 'get'"
  end.

(** [data.get(key, {})], which must then be a dictionary. *)
Definition get_dict (data : pydict value) (key : string) : Exc (pydict value) :=
  match dict_get data key with
  | None => Ret []
  | Some (VDict d) => Ret d
  | Some _ => Raise "object has no attribute"
  end.

(** [_parse_response] from the value [data] that [json.loads] returned. *)
Definition _parse_response (data : value)
    : Exc (pydict value * list string) :=
  match data with
  | VDict data =>
      (* Column mappings — drop null/empty values *)
      raw_mappings ← get_dict data "column_mappings";
      let mappings := List.filter (fun kv => keep_mapping (snd kv)) raw_mappings in
      (* Workflow steps — keep only known tools, preserve order *)
      workflow ← get_dict data "workflow";
      steps_raw ← iterate_steps (default (VList []) (dict_get workflow "steps"));
      tools ← mapM known_tool steps_raw;
      Ret (mappings, omap Datatypes.id tools)
  | _ => Raise "object has no attribute 'get'"
  end.

(** The tool that an element of the suggested workflow names, when it is a
    dictionary with a string under "tool". *)
Definition tool_of (s : value) : option string :=
  match s with
  | VDict d =>
      match dict_get d "tool" with
      | Some (VStr tool) => Some tool
      | _ => None
      end
  | _ => None
  end.

(** *** [OpenRouterAI._make_request]: the retry loop *)

(** [str(n)] for an integer. *)
Definition str_of_Z (z : Z) : string :=
  DecimalString.NilZero.string_of_int (Z.to_int z).

(** How one pass through the [try] block ends, as the HTTP exchange decides:
    an exception is raised somewhere in the block ([Failed], with
    [str(exc)]); the status is 200 and the body has an "error" member
    ([ModelError], with [str(data['error'])]); the status is 200 and the
    message carries the text [content], which is
    [msg.get("content")], else [msg.get("reasoning_content")], else the
    empty text ([Message]);
    or the status is another one ([Status], with the message of the error
    body or the first 300 characters of the response text). *)
Inductive Reply : Type :=
  | Failed (exc : string)
  | ModelError (err : string)
  | Message (content : string)
  | Status (status_code : Z) (detail : string).

(** The [try] block on a reply: the content to return ([inl]), or the new
    value of [last_error] ([inr]). *)
Definition attempt_result (r : Reply) : string + string :=
  match r with
  | Failed exc => inr exc
  | ModelError err => inr ("OpenRouter model error: " +:+ err)
  | Message content =>
      if String.eqb (strip content) EmptyString
      then inr "Model returned empty content"
      else inl content
  | Status status_code detail =>
      inr ("OpenRouter " +:+ str_of_Z status_code +:+ ": " +:+ detail)
  end.

(** What the loop does to the outside world, in order: the request of an
    attempt and [time.sleep(seconds)]. *)
Inductive Event : Type :=
  | Post (attempt : nat)
  | Sleep (seconds : nat).

(** [for attempt in range(max_retries)], over the attempts that are left;
    [reply attempt] is what the request of that attempt meets. *)
Fixpoint attempts_from (reply : nat -> Reply) (max_retries : Z)
    (attempts : list nat) (last_error : string) (log : list Event)
    : list Event * Exc string :=
  match attempts with
  | [] =>
      (log,
       Raise ("OpenRouter request failed after " +:+ str_of_Z max_retries
              +:+ " attempts: " +:+ last_error))
  | attempt :: rest =>
      let log := log ++ [Post attempt] in
      match attempt_result (reply attempt) with
      | inl content => (log, Ret content)
      | inr last_error =>
          let log :=
            if (Z.of_nat attempt <? max_retries - 1)%Z
            then log ++ [Sleep (2 ^ attempt)]
            else log in
          attempts_from reply max_retries rest last_error log
      end
  end.

Definition _make_request (reply : nat -> Reply) (max_retries : Z)
    : list Event * Exc string :=
  attempts_from reply max_retries (seq 0 (Z.to_nat max_retries))
    "Unknown error" [].

(** The seconds slept during a run. *)
Definition seconds_slept (log : list Event) : nat :=
  list_sum (map (fun e => match e with Sleep s => s | Post _ => 0 end) log).

(** *** [OpenRouterAI.analyze_samplesheet] *)

(** [_parse_response] from the text of the answer.  [json_loads] is
    [json.loads]: the value, or the message of its [JSONDecodeError]. *)
Definition _parse_response_text (json_loads : string -> Exc value)
    (text : string) : Exc (pydict value * list string) :=
  match json_loads (_normalize_json text) with
  | Raise exc => Raise ("AI returned invalid JSON: " +:+ exc)
  | Ret data => _parse_response data
  end.

(** [self.api_key = api_key or os.environ.get("OPENAI_API_KEY", ...)], the
    default of the lookup being the empty text. *)
Definition ai_api_key (api_key env_key : string) : string :=
  if String.eqb api_key EmptyString then env_key else api_key.

(** [analyze_samplesheet]: the requests and sleeps of [_make_request], which
    is called with its default of 3 attempts, and the outcome.  The prompt
    does not enter: what each request meets is [reply]. *)
Definition analyze_samplesheet (json_loads : string -> Exc value)
    (api_key : string) (reply : nat -> Reply)
    : list Event * Exc (pydict value * list string) :=
  if String.eqb api_key EmptyString then
    ([], Raise "OpenRouter API key is not configured.")
  else
    let '(log, raw) := _make_request reply 3 in
    (log, text ← raw; _parse_response_text json_loads text).

(** The events of [k] attempts from attempt [i] on: a request, and a sleep of
    [2 ^ attempt] seconds between two requests. *)
Fixpoint schedule (i k : nat) : list Event :=
  match k with
  | 0 => []
  | 1 => [Post i]
  | S k' => Post i :: Sleep (2 ^ i) :: schedule (S i) k'
  end.

End Core.

(** ** main.py: the job store and the background task *)

Module Main.

Inductive Status : Type := pending | running | completed | failed.

Definition status_name (s : Status) : string :=
  match s with
  | pending => "pending"
  | running => "running"
  | completed => "completed"
  | failed => "failed"
  end.

(** An entry of [_jobs]. *)
Record Job : Type := {
  status : Status;
  step : option string;
  step_idx : nat;
  total_steps : nat;
  result : option ledger;
  error : option string;
  user_id : string;
  created_at : string
}.

(** [job["status"] = s] and the other field assignments. *)
Definition set_status (s : Status) (j : Job) : Job :=
  {| status := s; step := step j; step_idx := step_idx j;
     total_steps := total_steps j; result := result j; error := error j;
     user_id := user_id j; created_at := created_at j |}.

Definition set_step (name : string) (j : Job) : Job :=
  {| status := status j; step := Some name; step_idx := step_idx j;
     total_steps := total_steps j; result := result j; error := error j;
     user_id := user_id j; created_at := created_at j |}.

Definition set_step_idx (i : nat) (j : Job) : Job :=
  {| status := status j; step := step j; step_idx := i;
     total_steps := total_steps j; result := result j; error := error j;
     user_id := user_id j; created_at := created_at j |}.

Definition set_total_steps (n : nat) (j : Job) : Job :=
  {| status := status j; step := step j; step_idx := step_idx j;
     total_steps := n; result := result j; error := error j;
     user_id := user_id j; created_at := created_at j |}.

Definition set_result (r : ledger) (j : Job) : Job :=
  {| status := status j; step := step j; step_idx := step_idx j;
     total_steps := total_steps j; result := Some r; error := error j;
     user_id := user_id j; created_at := created_at j |}.

Definition set_error (msg : string) (j : Job) : Job :=
  {| status := status j; step := step j; step_idx := step_idx j;
     total_steps := total_steps j; result := result j; error := Some msg;
     user_id := user_id j; created_at := created_at j |}.

(** The record POST /run stores under a fresh identifier. *)
Definition new_job (user now : string) (workflow_steps : list string) : Job :=
  {| status := pending; step := None; step_idx := 0;
     total_steps := length workflow_steps; result := None; error := None;
     user_id := user; created_at := now |}.

Record HTTPException : Type := {
  status_code : nat;
  detail : string
}.

(** POST /run for an authenticated user with an uploaded project; [job_id]
    is the value of [uuid.uuid4()] and [now] the creation time.  Returns the
    new store and the response [(job_id, status)]. *)
Definition run_workflow (user job_id now : string)
    (workflow_steps : list string) (jobs : gmap string Job)
    : HTTPException + gmap string Job * (string * Status) :=
  match workflow_steps with
  | [] => inl {| status_code := 400;
                 detail := "workflow_steps cannot be empty." |}
  | _ => inr (<[job_id := new_job user now workflow_steps]> jobs,
              (job_id, pending))
  end.

(** The assignments to a job record after its launch,
    [_jobs[job_id][field] = value], one field at a time: a reader of the
    store can see the record between any two of them. *)
Inductive Transition : Type :=
  | SetStatus (s : Status)
  | SetStep (step_name : string)
  | SetStepIdx (idx : nat)
  | SetTotalSteps (total : nat)
  | SetResult (r : ledger)
  | SetError (msg : string).

Definition apply (t : Transition) (j : Job) : Job :=
  match t with
  | SetStatus s => set_status s j
  | SetStep step_name => set_step step_name j
  | SetStepIdx idx => set_step_idx idx j
  | SetTotalSteps total => set_total_steps total j
  | SetResult r => set_result r j
  | SetError msg => set_error msg j
  end.

(** The three assignments of the callback [_progress], in order. *)
Definition progress_of (call : string * nat * nat) : list Transition :=
  let '(step_name, idx, total) := call in
  [SetStep step_name; SetStepIdx idx; SetTotalSteps total].

(** [_jobs[job_id][...] = ...].  The task runs only for an identifier that
    POST /run has inserted, and no entry is ever removed, so the [KeyError]
    of a missing identifier cannot occur; [alter] leaves such a store as it
    is. *)
Definition write (job_id : string) (t : Transition)
    (jobs : gmap string Job) : gmap string Job :=
  alter (apply t) job_id jobs.

(** The project metadata read by the task. *)
Record Meta : Type := {
  samplesheet : string;
  meta_idat_folder : option string
}.

Definition TEMP_DIR : string := "temp".

Definition user_dir (user : string) : string := TEMP_DIR +:+ "/" +:+ user.
Definition samplesheet_path_of (user : string) (meta : Meta) : string :=
  user_dir user +:+ "/" +:+ samplesheet meta.

(** The [MoIRA] object built by [_run_workflow_sync] once the sample sheet
    is loaded. *)
Definition make_moira (user : string) (meta : Meta)
    (column_mappings : pydict string) (sheet : Targets) : Core.MoIRA :=
  {| Core.samplesheet_path := samplesheet_path_of user meta;
     Core.idat_folder := default (user_dir user) (meta_idat_folder meta);
     Core.output_dir := user_dir user +:+ "/outputs";
     Core.targets := Some sheet;
     Core.column_mappings := column_mappings |}.

Section Task.
(** The state mutated by the progress callback, and the callback. *)
Context {W : Type}.
Variable h : Core.Handlers.
(** [MoIRA(...)] followed by [load_samplesheet()]: the sample sheet, unless
    one of them raises. *)
Variable load_samplesheet : string -> Exc Targets.
Variable _progress : string -> nat -> nat -> W -> W.

Definition _run_workflow_sync (user : string) (meta : Meta)
    (workflow_steps : list string) (column_mappings : pydict string)
    (w : W) : W * Exc ledger :=
  match load_samplesheet (samplesheet_path_of user meta) with
  | Raise msg => (w, Raise msg)
  | Ret sheet =>
      let moira := make_moira user meta column_mappings sheet in
      Core.run_workflow moira h workflow_steps (Some _progress) w
  end.
End Task.

(** [_run_workflow_task], with the callback writing to [_jobs[job_id]]. *)
Definition _run_workflow_task (h : Core.Handlers)
    (load_samplesheet : string -> Exc Targets) (job_id user : string)
    (meta : Meta) (workflow_steps : list string)
    (column_mappings : pydict string) (jobs : gmap string Job)
    : gmap string Job :=
  let jobs := write job_id (SetStatus running) jobs in
  match _run_workflow_sync h load_samplesheet
          (fun step_name idx total jobs =>
             let jobs := write job_id (SetStep step_name) jobs in
             let jobs := write job_id (SetStepIdx idx) jobs in
             write job_id (SetTotalSteps total) jobs)
          user meta workflow_steps column_mappings jobs with
  | (jobs, Ret r) =>
      let jobs := write job_id (SetStatus completed) jobs in
      write job_id (SetResult r) jobs
  | (jobs, Raise msg) =>
      let jobs := write job_id (SetStatus failed) jobs in
      write job_id (SetError msg) jobs
  end.

(** The same task with a callback that only records its assignments: the
    sequence of assignments the task performs on its record. *)
Definition task_transitions (h : Core.Handlers)
    (load_samplesheet : string -> Exc Targets) (user : string)
    (meta : Meta) (workflow_steps : list string)
    (column_mappings : pydict string) : list Transition :=
  match _run_workflow_sync h load_samplesheet
          (fun step_name idx total log =>
             (log ++ [SetStep step_name; SetStepIdx idx;
                      SetTotalSteps total])%list)
          user meta workflow_steps column_mappings [] with
  | (log, Ret r) =>
      (SetStatus running :: log ++ [SetStatus completed; SetResult r])%list
  | (log, Raise msg) =>
      (SetStatus running :: log ++ [SetStatus failed; SetError msg])%list
  end.

(** The job record after the first [k] transitions of its task. *)
Definition job_after (k : nat) (ts : list Transition) (j : Job) : Job :=
  fold_left (fun j t => apply t j) (take k ts) j.

Definition terminal (s : Status) : bool :=
  match s with
  | completed | failed => true
  | _ => false
  end.

(** A record whose task is between setting it running and its last two
    assignments, in a run of [n] requested stages. *)
Definition in_flight (n : nat) (j : Job) : Prop :=
  status j = running ∧ result j = None ∧ error j = None
  ∧ (step_idx j ≤ n)%nat ∧ total_steps j = n.

(** An assignment of the progress callback in a run of [n] requested
    stages. *)
Definition progress_write (n : nat) (t : Transition) : Prop :=
  match t with
  | SetStep _ => True
  | SetStepIdx idx => (idx ≤ n)%nat
  | SetTotalSteps total => total = n
  | _ => False
  end.

(** The server between two assignments: the job store and, for every
    launched job, the assignments that its task has still to perform.  The
    tasks of different jobs, POST /run and the readers of the store run
    concurrently, and nothing but the single assignment is atomic. *)
Record Server : Type := {
  store : gmap string Job;
  todo : gmap string (list Transition)
}.

Definition boot : Server := {| store := ∅; todo := ∅ |}.

(** One step of the server: POST /run stores a record under a fresh
    identifier and schedules its task, whose collaborators may behave in any
    way; or some task performs its next assignment. *)
Inductive server_step : Server -> Server -> Prop :=
  | step_launch (h : Core.Handlers) (load : string -> Exc Targets)
      (user job_id now : string) (meta : Meta) (steps : list string)
      (cm : pydict string) (s : Server) (jobs' : gmap string Job)
      (response : string * Status) :
      store s !! job_id = None ->
      run_workflow user job_id now steps (store s) = inr (jobs', response) ->
      server_step s
        {| store := jobs';
           todo := <[job_id := task_transitions h load user meta steps cm]>
                     (todo s) |}
  | step_write (job_id : string) (t : Transition) (rest : list Transition)
      (s : Server) :
      todo s !! job_id = Some (t :: rest) ->
      server_step s
        {| store := write job_id t (store s);
           todo := <[job_id := rest]> (todo s) |}.

Definition reachable (s : Server) : Prop := rtc server_step boot s.

(** A record and the assignments still to come are a moment of the task of
    some launch. *)
Definition moment (job : Job) (rest : list Transition) : Prop :=
  ∃ h load user now meta steps cm k,
    let ts := task_transitions h load user meta steps cm in
    job = job_after k ts (new_job user now steps) ∧ rest = drop k ts.

(** Every record of the store is a moment of its task, and only the
    identifiers of the store have a task. *)
Definition consistent (s : Server) : Prop :=
  ∀ job_id,
    match store s !! job_id, todo s !! job_id with
    | Some job, Some rest => moment job rest
    | None, None => True
    | _, _ => False
    end.

(** GET /jobs/{job_id}/result for a verified [user]. *)
Definition get_job_result (user job_id : string) (jobs : gmap string Job)
    : HTTPException + option ledger :=
  match jobs !! job_id with
  | None => inl {| status_code := 404; detail := "Job not found." |}
  | Some job =>
      if negb (String.eqb (user_id job) user) then
        inl {| status_code := 403; detail := "Forbidden." |}
      else
        match status job with
        | completed => inr (result job)
        | s => inl {| status_code := 400;
                      detail := "Job is not completed yet (current status: '"
                                  +:+ status_name s +:+ "')." |}
        end
  end.

(** The response of GET /jobs/{job_id}. *)
Record JobStatus : Type := {
  js_job_id : string;
  js_status : Status;
  js_step : option string;
  js_step_idx : nat;
  js_total_steps : nat;
  js_error : option string;
  js_created_at : string
}.

(** GET /jobs/{job_id} for a verified [user]. *)
Definition get_job (user job_id : string) (jobs : gmap string Job)
    : HTTPException + JobStatus :=
  match jobs !! job_id with
  | None => inl {| status_code := 404; detail := "Job not found." |}
  | Some job =>
      if negb (String.eqb (user_id job) user) then
        inl {| status_code := 403; detail := "Forbidden." |}
      else
        inr {| js_job_id := job_id;
               js_status := status job;
               js_step := step job;
               js_step_idx := step_idx job;
               js_total_steps := total_steps job;
               js_error := error job;
               js_created_at := created_at job |}
  end.

(** POST /analyze for a verified user.  [meta] is the project metadata, if
    the user has uploaded a project; [summary] is what [MoIRA(...)],
    [load_samplesheet()] and [build_samplesheet_summary()] give: the summary
    of the sample sheet or the message of the exception; [env_key] is the
    value of OPENAI_API_KEY in the environment when the AI client is
    built.  Returns the requests and sleeps of the exchange with the model,
    and the response. *)
Definition analyze (_OPENAI_API_KEY env_key : string) (meta : option Meta)
    (summary : Exc string) (json_loads : string -> Exc value)
    (reply : nat -> Core.Reply)
    : list Core.Event * (HTTPException + pydict value * list string) :=
  match meta with
  | None =>
      ([], inl {| status_code := 404;
                  detail := "No uploaded project found for this user. Please upload files first." |})
  | Some _ =>
      if String.eqb _OPENAI_API_KEY EmptyString then
        ([], inl {| status_code := 500;
                    detail := "Server misconfiguration: OPENAI_API_KEY is not set." |})
      else
        match summary with
        | Raise msg => ([], inl {| status_code := 500; detail := msg |})
        | Ret _ =>
            match Core.analyze_samplesheet json_loads
                    (Core.ai_api_key _OPENAI_API_KEY env_key) reply with
            | (log, Raise msg) =>
                (log, inl {| status_code := 500; detail := msg |})
            | (log, Ret (column_mappings, workflow_steps)) =>
                match column_mappings with
                | [] =>
                    (log,
                     inl {| status_code := 422;
                            detail := "AI could not extract column mappings from the samplesheet. Please check the samplesheet format and try a more descriptive prompt." |})
                | _ => (log, inr (column_mappings, workflow_steps))
                end
            end
        end
  end.

End Main.

(** ** A sample environment

    Used to evaluate the model on concrete runs: R is not installed, so the
    three preprocessing stages raise; the analysis stages return small
    payloads; the file system works. *)

Module Sample.

Definition no_R {A} : Exc A := Raise "R package 'sesame' not found.".

Definition offline : Core.Handlers :=
  {| Core.read_idat_files := fun _ _ _ _ => no_R;
     Core.quality_control := fun _ _ _ => no_R;
     Core.combat_normalization := fun _ _ _ _ => no_R;
     Core.basic_statistics := fun _ _ _ => Ret [("missing_values", VInt 0)];
     Core.perform_pca := fun _ _ _ _ _ _ => Ret [("n_components", VInt 2)];
     Core.create_heatmap := fun _ _ _ _ => Ret [("n_samples", VInt 2)];
     Core.differential_analysis := fun _ _ _ _ => Ret [("n_probes_tested", VInt 0)];
     Core.create_volcano_plot := fun _ _ _ _ _ _ => Ret [("n_highlighted_dmps", VInt 0)];
     Core.make_plots_dir := fun _ => None;
     Core.write_summary := fun _ _ _ => None |}.

(** IDAT files can be read, and the quality control then fails. *)
Definition two_by_two : Matrix :=
  {| index := ["cg01"; "cg02"]; columns := ["s1"; "s2"];
     cells := [[1 # 10; 2 # 10]; [8 # 10; 9 # 10]] |}.

Definition qc_fails : Core.Handlers :=
  {| Core.read_idat_files := fun _ _ _ _ =>
       Ret {| Core.ri_betas := two_by_two; Core.ri_detP := two_by_two;
              Core.ri_n_probes := 2; Core.ri_n_samples := 2;
              Core.ri_targets := None |};
     Core.quality_control := fun _ _ _ => no_R;
     Core.combat_normalization := fun _ _ _ _ => no_R;
     Core.basic_statistics := fun _ _ _ => Ret [("missing_values", VInt 0)];
     Core.perform_pca := fun _ _ _ _ _ _ => Ret [("n_components", VInt 2)];
     Core.create_heatmap := fun _ _ _ _ => Ret [("n_samples", VInt 2)];
     Core.differential_analysis := fun _ _ _ _ => Ret [("n_probes_tested", VInt 0)];
     Core.create_volcano_plot := fun _ _ _ _ _ _ => Ret [("n_highlighted_dmps", VInt 0)];
     Core.make_plots_dir := fun _ => None;
     Core.write_summary := fun _ _ _ => None |}.

(** A file system and a plotting library that do not fail. *)
Definition figure : Analysis.Figure :=
  {| Analysis.fig_mkdir := fun _ => None;
     Analysis.fig_subplots := None;
     Analysis.fig_draw := fun _ _ _ => None;
     Analysis.fig_irregular := fun _ _ _ _ _ =>
       Raise "DataFrame constructor not properly called!" |}.

Definition sheet : Targets :=
  {| t_index := ["0"; "1"];
     t_data := [("Sample_Name", [Some "s1"; Some "s2"])] |}.

Definition load_samplesheet (path : string) : Exc Targets := Ret sheet.

Definition meta : Main.Meta :=
  {| Main.samplesheet := "samples.csv"; Main.meta_idat_folder := None |}.

Definition moira : Core.MoIRA := Main.make_moira "u1" meta [] sheet.

End Sample.

(** * Verification *)

(** ** Dictionaries *)

Section Dict.
Context {V : Type}.
Implicit Types (d : pydict V) (k : string) (v : V).

Lemma dict_get_set_eq d k v : dict_get (dict_set d k v) k = Some v.
Proof.
  induction d as [|[k' v'] d IH]; simpl.
  - by rewrite String.eqb_refl.
  - destruct (String.eqb k' k) eqn:E; simpl; by rewrite E.
Qed.

Lemma dict_get_set_ne d k k' v :
  k ≠ k' → dict_get (dict_set d k v) k' = dict_get d k'.
Proof.
  intros Hne. induction d as [|[k0 v0] d IH]; simpl.
  - destruct (String.eqb_spec k k'); [done | reflexivity].
  - destruct (String.eqb_spec k0 k) as [->|]; simpl.
    + destruct (String.eqb_spec k k'); [done | reflexivity].
    + by rewrite IH.
Qed.

Lemma dict_get_None_keys d k : dict_get d k = None ↔ k ∉ dict_keys d.
Proof.
  induction d as [|[k' v'] d IH]; simpl.
  - split; [intros _; apply not_elem_of_nil | done].
  - rewrite not_elem_of_cons. destruct (String.eqb_spec k' k) as [->|Hne].
    + split; [done | intros [? _]; done].
    + rewrite IH. split; [intros ?; split; [congruence | done] | by intros [_ ?]].
Qed.

(** Assigning to a key keeps the order of the keys: a new key goes last. *)
Lemma dict_keys_set d k v :
  dict_keys (dict_set d k v) =
    if dict_has d k then dict_keys d else (dict_keys d ++ [k])%list.
Proof.
  unfold dict_has. induction d as [|[k' v'] d IH]; simpl; [done |].
  destruct (String.eqb k' k); simpl; [done |].
  rewrite IH. by destruct (dict_get d k).
Qed.

Lemma dict_has_keys d k : dict_has d k = false ↔ k ∉ dict_keys d.
Proof.
  rewrite <- dict_get_None_keys. unfold dict_has.
  destruct (dict_get d k); split; congruence.
Qed.
End Dict.

(** ** The loop of [run_workflow] *)

Section Orchestrator.
Import Core.
Variable m : MoIRA.
Variable h : Handlers.
Implicit Types (st : State) (step raw : string) (steps : list string).

(** The state of the pipeline does not depend on the progress callback. *)
Lemma run_steps_state {W} (cb : option (string → nat → nat → W → W))
    pd total idx steps (w : W) st :
  snd (run_steps m h cb pd total idx steps w st)
  = snd (run_steps (W := unit) m h None pd 0 idx steps tt st).
Proof.
  revert idx w st. induction steps as [|raw steps IH]; intros; simpl; [done |].
  by rewrite IH.
Qed.

(** The callback sees exactly the calls of [progress_calls_from], in order. *)
Lemma run_steps_world {W} (cb : string → nat → nat → W → W)
    pd total idx steps (w : W) st :
  fst (run_steps m h (Some cb) pd total idx steps w st)
  = fold_left (fun w '(name, i, t) => cb name i t w)
      (progress_calls_from total idx steps) w.
Proof.
  revert idx w st. induction steps as [|raw steps IH]; intros; simpl; [done |].
  by rewrite IH.
Qed.

Lemma run_steps_app pd total idx steps1 steps2 st :
  snd (run_steps (W := unit) m h None pd total idx (steps1 ++ steps2) tt st)
  = snd (run_steps (W := unit) m h None pd total (idx + length steps1) steps2 tt
           (snd (run_steps (W := unit) m h None pd total idx steps1 tt st))).
Proof.
  revert idx st. induction steps1 as [|raw steps1 IH]; intros; simpl.
  - by rewrite Nat.add_0_r.
  - rewrite IH. do 2 f_equal. lia.
Qed.

(** Each iteration runs the stage on the state left by the previous one. *)
Lemma state_after_S steps k raw :
  steps !! k = Some raw →
  state_after m h steps (S k)
  = run_stage m h (plots_dir_of m) (S k) (normalize raw)
      (state_after m h steps k).
Proof.
  intros Hk. unfold state_after.
  rewrite (take_S_r _ _ _ Hk), run_steps_app. simpl.
  rewrite length_take_le; [done |].
  apply lookup_lt_Some in Hk. lia.
Qed.

Lemma state_after_all {W} (cb : option (string → nat → nat → W → W)) steps w :
  snd (run_steps m h cb (plots_dir_of m) (length steps) 1 steps w
         (initial_state m))
  = state_after m h steps (length steps).
Proof.
  unfold state_after. rewrite firstn_all.
  rewrite run_steps_state. symmetry. apply run_steps_state.
Qed.

(** What [run_workflow] returns. *)
Lemma run_workflow_returns {W} (cb : option (string → nat → nat → W → W))
    steps w :
  snd (run_workflow m h steps cb w) =
    match make_plots_dir h (plots_dir_of m) with
    | Some msg => Raise msg
    | None =>
        let l := results (state_after m h steps (length steps)) in
        match write_summary h (summary_path_of m) steps l with
        | Some msg => Raise msg
        | None => Ret l
        end
    end.
Proof.
  unfold run_workflow. destruct (make_plots_dir h _); [done |].
  rewrite <- (state_after_all cb steps w).
  destruct (run_steps _ _ _ _ _ _ _ _ _) as [w' st]; simpl.
  by destruct (write_summary _ _ _ _).
Qed.

Lemma run_workflow_calls {W} (cb : string → nat → nat → W → W) steps w :
  fst (run_workflow m h steps (Some cb) w) =
    match make_plots_dir h (plots_dir_of m) with
    | Some _ => w
    | None => fold_left (fun w '(name, i, t) => cb name i t w)
                (progress_calls steps) w
    end.
Proof.
  unfold run_workflow, progress_calls. destruct (make_plots_dir h _); [done |].
  rewrite <- (run_steps_world cb (plots_dir_of m) _ _ _ w (initial_state m)).
  destruct (run_steps _ _ _ _ _ _ _ _ _) as [w' st]; simpl.
  by destruct (write_summary _ _ _ _).
Qed.

End Orchestrator.

(** ** One stage *)

Ltac split_stage :=
  repeat match goal with
  | |- context [String.eqb ?s ?t] =>
      destruct (String.eqb_spec s t) as [->|?]
  | H : context [String.eqb ?s ?t] |- _ =>
      destruct (String.eqb_spec s t) as [->|?]
  end.

Ltac known_step :=
  unfold Core.KNOWN_STEPS; rewrite ?elem_of_cons; tauto.

Ltac unfold_stage :=
  unfold Core.run_stage, Core.try_body, Core.with_plot_files,
    Core.plot_files, mbind, Exc_bind, Core.set_result, Core.set_betas in *.

Section Stage.
Import Core.
Variable m : MoIRA.
Variable h : Handlers.
Implicit Types (st : State) (step raw : string) (steps : list string).

Lemma unknown_step step :
  (step ∉ KNOWN_STEPS) ↔
  (step ≠ "read_idat_files" ∧ step ≠ "quality_control" ∧
   step ≠ "combat_normalization" ∧ step ≠ "basic_statistics" ∧
   step ≠ "perform_pca" ∧ step ≠ "create_heatmap" ∧
   step ≠ "create_volcano_plot" ∧ step ≠ "differential_analysis").
Proof. unfold KNOWN_STEPS. rewrite !not_elem_of_cons. pose proof (not_elem_of_nil step). tauto. Qed.

(** A stage outside the vocabulary leaves every local variable as it is. *)
Lemma try_body_unknown pd idx step st :
  step ∉ KNOWN_STEPS → try_body m h pd idx step st = Ret st.
Proof.
  rewrite unknown_step. intros (?&?&?&?&?&?&?&?).
  unfold try_body. split_stage; done.
Qed.

(** A stage of the vocabulary either raises or assigns to its own key. *)
Lemma try_body_known pd idx step st :
  step ∈ KNOWN_STEPS →
  (∃ msg, try_body m h pd idx step st = Raise msg) ∨
  (∃ st' v, try_body m h pd idx step st = Ret st' ∧
            results st' = dict_set (results st) step v).
Proof.
  intros Hk. destruct (decide (step ∈ KNOWN_STEPS)) as [_|]; [|done].
  unfold_stage. split_stage;
    try (exfalso; revert Hk; apply unknown_step; done);
    repeat case_match; simplify_eq; eauto.
Qed.

Lemma run_stage_cases pd idx step st :
  ((step ∉ KNOWN_STEPS) ∧ run_stage m h pd idx step st = st) ∨
  (step ∈ KNOWN_STEPS ∧
   ∃ v, results (run_stage m h pd idx step st) = dict_set (results st) step v).
Proof.
  destruct (decide (step ∈ KNOWN_STEPS)) as [Hk|Hk].
  - right. split; [done |]. unfold run_stage.
    destruct (try_body_known pd idx step st Hk) as [[msg ->]|(st'&v&->&?)];
      simpl; eauto.
  - left. split; [done |]. unfold run_stage. by rewrite try_body_unknown.
Qed.

(** Without a beta matrix, every stage but [read_idat_files] fails its
    precondition check. *)
Lemma try_body_requires_betas pd idx step st :
  current_betas st = None →
  step ∈ KNOWN_STEPS → step ≠ "read_idat_files" →
  ∃ msg, try_body m h pd idx step st = Raise msg.
Proof.
  intros Hb Hk Hne. unfold_stage. rewrite Hb.
  split_stage; try done; eauto.
  exfalso; revert Hk; apply unknown_step; done.
Qed.

(** A stage that raises leaves the pipeline state as it was and stores the
    error under its own key. *)
Lemma run_stage_raise pd idx step st msg :
  try_body m h pd idx step st = Raise msg →
  run_stage m h pd idx step st = set_result st step (error_entry msg).
Proof. unfold run_stage. by intros ->. Qed.

End Stage.

(** ** The keys of the ledger *)

Section Keys.
Import Core.
Variable m : MoIRA.
Variable h : Handlers.
Implicit Types (st : State) (step raw : string) (steps : list string).

Lemma dict_set_NoDup {V} (d : pydict V) k v :
  NoDup (dict_keys d) → NoDup (dict_keys (dict_set d k v)).
Proof.
  intros Hd. rewrite dict_keys_set. destruct (dict_has d k) eqn:E; [done |].
  apply NoDup_app. split_and!; [done | | apply NoDup_singleton].
  intros x Hx Hx'. apply list_elem_of_singleton in Hx' as ->.
  by apply dict_has_keys in E.
Qed.

(** The loop only appends keys: those of the stages of the vocabulary that
    it meets, normalized, in the order in which it meets them first. *)
Lemma run_steps_keys pd total idx steps st :
  NoDup (dict_keys (results st)) →
  ∃ new,
    dict_keys
      (results (snd (run_steps (W := unit) m h None pd total idx steps tt st)))
    = (dict_keys (results st) ++ new)%list
    ∧ new `sublist_of` map normalize steps
    ∧ (∀ k, k ∈ new → k ∈ KNOWN_STEPS)
    ∧ NoDup
        (dict_keys
           (results
              (snd (run_steps (W := unit) m h None pd total idx steps tt st)))).
Proof.
  revert idx st. induction steps as [|raw steps IH]; intros idx st Hnd; simpl.
  - exists []. rewrite app_nil_r. split_and!; [done | done | | done].
    intros k Hk. by apply elem_of_nil in Hk.
  - destruct (run_stage_cases m h pd idx (normalize raw) st)
      as [[Hunk Heq]|[Hkn [v Heq]]].
    + rewrite Heq.
      destruct (IH (S idx) st Hnd) as (new & Hkeys & Hsub & Hknown & Hnd').
      exists new. split_and!; try done. by apply sublist_cons.
    + assert (NoDup (dict_keys
                (results (run_stage m h pd idx (normalize raw) st)))) as Hnd1
        by (rewrite Heq; by apply dict_set_NoDup).
      destruct (IH (S idx) _ Hnd1) as (new & Hkeys & Hsub & Hknown & Hnd').
      rewrite Heq, dict_keys_set in Hkeys.
      destruct (dict_has (results st) (normalize raw)).
      * exists new. split_and!; try done. by apply sublist_cons.
      * exists (normalize raw :: new). split_and!; try done.
        -- by rewrite Hkeys, <- app_assoc.
        -- by apply sublist_skip.
        -- intros k [->|Hk]%elem_of_cons; auto.
Qed.

Lemma state_after_keys steps k :
  let keys := dict_keys (results (state_after m h steps k)) in
  keys `sublist_of` map normalize steps
  ∧ (∀ key, key ∈ keys → key ∈ KNOWN_STEPS)
  ∧ NoDup keys.
Proof.
  unfold state_after.
  destruct (run_steps_keys (plots_dir_of m) (length steps) 1 (take k steps)
              (initial_state m)) as (new & Hkeys & Hsub & Hknown & Hnd);
    [apply NoDup_nil_2 |].
  simpl in *. rewrite Hkeys. split_and!; [| done | by rewrite <- Hkeys].
  etrans; [exact Hsub |].
  rewrite <- (take_drop k steps) at 2. rewrite map_app.
  by apply sublist_inserts_r.
Qed.

End Keys.

(** ** Progress calls *)

Lemma progress_calls_from_length total idx steps :
  length (Core.progress_calls_from total idx steps) = length steps.
Proof. revert idx. induction steps; intros; simpl; [done | by rewrite IHsteps]. Qed.

Lemma progress_calls_from_lookup total idx steps i raw :
  steps !! i = Some raw →
  Core.progress_calls_from total idx steps !! i
  = Some (Core.normalize raw, idx + i, total).
Proof.
  revert idx i. induction steps as [|r steps IH]; intros idx [|i] Hi;
    simplify_eq/=.
  - by rewrite Nat.add_0_r.
  - rewrite (IH (S idx) i Hi). do 3 f_equal. lia.
Qed.

Lemma progress_calls_from_bound total idx steps name i t :
  (name, i, t) ∈ Core.progress_calls_from total idx steps →
  idx ≤ i < idx + length steps ∧ t = total.
Proof.
  revert idx. induction steps as [|r steps IH]; intros idx; simpl.
  - by intros ?%elem_of_nil.
  - intros [?|Hin]%elem_of_cons; [simplify_eq; lia |].
    apply IH in Hin. lia.
Qed.

Lemma fold_left_record {A B} (f : A → B) (l : list A) (acc : list B) :
  fold_left (fun log x => (log ++ [f x])%list) l acc = (acc ++ map f l)%list.
Proof.
  revert acc. induction l as [|x l IH]; intros; simpl.
  - by rewrite app_nil_r.
  - by rewrite IH, <- app_assoc.
Qed.

Lemma fold_record_call calls acc :
  fold_left (fun w '(name, i, t) => Core.record_call name i t w) calls acc
  = (acc ++ calls)%list.
Proof.
  revert acc. induction calls as [|[[name i] t] calls IH]; intros; simpl.
  - by rewrite app_nil_r.
  - rewrite IH. unfold Core.record_call. by rewrite <- app_assoc.
Qed.

(** ** The background task *)

Section Task.
Import Main.
Variable h : Core.Handlers.
Variable load : string → Exc Targets.
Variables (user : string) (meta : Meta) (cm : pydict string).
Implicit Types (steps : list string) (j : Job) (ts : list Transition).

Lemma fold_calls {W} (f : Transition → W → W) calls (w : W) :
  fold_left
    (fun w '(name, i, t) =>
       f (SetTotalSteps t) (f (SetStepIdx i) (f (SetStep name) w)))
    calls w
  = fold_left (fun w t => f t w) (flat_map progress_of calls) w.
Proof.
  revert w. induction calls as [|[[??]?] l IH]; intros; simpl;
    [done | by rewrite IH].
Qed.

(** The assignments of a task, spelled out. *)
Lemma task_transitions_eq steps :
  task_transitions h load user meta steps cm =
    match load (samplesheet_path_of user meta) with
    | Raise msg => [SetStatus running; SetStatus failed; SetError msg]
    | Ret sheet =>
        let m := make_moira user meta cm sheet in
        match Core.make_plots_dir h (Core.plots_dir_of m) with
        | Some msg => [SetStatus running; SetStatus failed; SetError msg]
        | None =>
            let l := Core.results (Core.state_after m h steps (length steps)) in
            (SetStatus running
               :: flat_map progress_of (Core.progress_calls steps) ++
              match Core.write_summary h (Core.summary_path_of m) steps l with
              | Some msg => [SetStatus failed; SetError msg]
              | None => [SetStatus completed; SetResult l]
              end)%list
        end
    end.
Proof.
  unfold task_transitions, _run_workflow_sync.
  destruct (load _) as [msg|sheet]; [done |]. simpl.
  set (m := make_moira user meta cm sheet).
  set (cb := fun name i t log =>
               (log ++ [SetStep name; SetStepIdx i; SetTotalSteps t])%list).
  pose proof (run_workflow_calls m h cb steps []) as Hfst.
  pose proof (run_workflow_returns m h (Some cb) steps []) as Hsnd.
  destruct (Core.run_workflow m h steps (Some cb) []) as [log r].
  simpl in Hfst, Hsnd. subst log r.
  destruct (Core.make_plots_dir h _); [done |].
  assert (∀ calls acc,
            fold_left (fun w '(name, i, t) => cb name i t w) calls acc
            = (acc ++ flat_map progress_of calls)%list) as ->.
  { induction calls as [|[[??]?] calls IH]; intros acc; simpl.
    - by rewrite app_nil_r.
    - rewrite IH. unfold cb. by rewrite <- app_assoc. }
  simpl. by destruct (Core.write_summary _ _ _ _).
Qed.

Lemma apply_progress_write n t j :
  progress_write n t → in_flight n j → in_flight n (apply t j).
Proof.
  intros Ht (?&?&?&?&?). destruct t; simpl in Ht; try done;
    subst; by repeat split.
Qed.

Lemma fold_progress_in_flight n ts j :
  Forall (progress_write n) ts → in_flight n j →
  in_flight n (fold_left (fun j t => apply t j) ts j).
Proof.
  intros Hts. revert j. induction Hts as [|t ts Ht _ IH]; intros j Hj;
    simpl; [done |].
  by apply IH, apply_progress_write.
Qed.

Lemma progress_of_writes n calls :
  (∀ name i t, (name, i, t) ∈ calls → i ≤ n ∧ t = n) →
  Forall (progress_write n) (flat_map progress_of calls).
Proof.
  induction calls as [|[[name i] t] calls IH]; intros Hb; simpl;
    [constructor |].
  destruct (Hb name i t) as [? ->]; [by left |].
  repeat constructor; [done |]. apply IH.
  intros name' i' t' Hin. apply (Hb name' i' t'). by right.
Qed.

Lemma progress_calls_bound steps name i t :
  (name, i, t) ∈ Core.progress_calls steps →
  i ≤ length steps ∧ t = length steps.
Proof.
  unfold Core.progress_calls. intros Hin%progress_calls_from_bound. lia.
Qed.

(** The four phases of a job record: as launched, in flight, between the
    last two assignments, finished. *)
Lemma job_after_phases n mid st fin j0 k :
  Forall (progress_write n) mid →
  status j0 = pending → result j0 = None → error j0 = None →
  step_idx j0 ≤ n → total_steps j0 = n →
  let ts := (SetStatus running :: mid ++ [SetStatus st; fin])%list in
  (k = 0 ∧ job_after k ts j0 = j0)
  ∨ (0 < k ≤ S (length mid) ∧ in_flight n (job_after k ts j0))
  ∨ (k = S (S (length mid)) ∧
     ∃ j, in_flight n j ∧ job_after k ts j0 = set_status st j)
  ∨ (length ts ≤ k ∧
     ∃ j, in_flight n j ∧ job_after k ts j0 = apply fin (set_status st j)).
Proof.
  intros Hb Hs Hr He Hi Ht ts.
  assert (in_flight n (apply (SetStatus running) j0)) as H1
    by (by repeat split).
  assert (length ts = S (S (S (length mid)))) as Hlen.
  { unfold ts. simpl. rewrite length_app. simpl. lia. }
  destruct k as [|k]; [by left | right].
  destruct (decide (k ≤ length mid)) as [Hk|Hk].
  - left. split; [lia |]. unfold job_after, ts. simpl.
    rewrite take_app_le by lia.
    apply fold_progress_in_flight; [| done].
    by apply Forall_take.
  - right. destruct (decide (k = S (length mid))) as [->|Hk'].
    + left. split; [done |]. unfold job_after, ts. simpl.
      rewrite take_app_ge by lia.
      replace (S (length mid) - length mid) with 1 by lia.
      rewrite fold_left_app. simpl.
      eexists. split; [| reflexivity]. by apply fold_progress_in_flight.
    + right. split; [lia |]. unfold job_after.
      rewrite take_ge by lia. unfold ts. simpl. rewrite fold_left_app. simpl.
      eexists. split; [| reflexivity]. by apply fold_progress_in_flight.
Qed.

(** The task writes to its own record only, and what it writes there is the
    record's sequence of assignments. *)
Lemma fold_write job_id ts (jobs : gmap string Job) :
  fold_left (fun w t => write job_id t w) ts jobs
  = alter (fun j => fold_left (fun j t => apply t j) ts j) job_id jobs.
Proof.
  revert jobs. induction ts as [|t ts IH]; intros; simpl.
  - symmetry. by apply alter_id.
  - rewrite IH. unfold write. by rewrite alter_alter_eq.
Qed.

Lemma run_workflow_task_eq job_id steps (jobs : gmap string Job) :
  _run_workflow_task h load job_id user meta steps cm jobs
  = fold_left (fun w t => write job_id t w)
      (task_transitions h load user meta steps cm) jobs.
Proof.
  rewrite task_transitions_eq.
  unfold _run_workflow_task, _run_workflow_sync.
  destruct (load _) as [msg|sheet]; [done |]. simpl.
  set (m := make_moira user meta cm sheet).
  set (cb := fun name i t jobs =>
               write job_id (SetTotalSteps t)
                 (write job_id (SetStepIdx i)
                    (write job_id (SetStep name) jobs))).
  set (jobs1 := write job_id (SetStatus running) jobs).
  pose proof (run_workflow_calls m h cb steps jobs1) as Hfst.
  pose proof (run_workflow_returns m h (Some cb) steps jobs1) as Hsnd.
  destruct (Core.run_workflow m h steps (Some cb) jobs1) as [jobs2 r].
  simpl in Hfst, Hsnd. subst jobs2 r.
  destruct (Core.make_plots_dir h _); [done |]. simpl.
  rewrite fold_left_app. simpl.
  subst cb. rewrite (fold_calls (write job_id)).
  by destruct (Core.write_summary _ _ _ _).
Qed.

(** The record of a launched job once its task has returned. *)
Lemma task_store job_id steps j0 (jobs : gmap string Job) :
  let ts := task_transitions h load user meta steps cm in
  _run_workflow_task h load job_id user meta steps cm (<[job_id := j0]> jobs)
    !! job_id
  = Some (job_after (length ts) ts j0).
Proof.
  intros ts. rewrite run_workflow_task_eq, fold_write.
  rewrite lookup_alter_eq, lookup_insert_eq. simpl.
  unfold job_after. by rewrite firstn_all.
Qed.

End Task.

(** ** Failure isolation *)

Section Isolation.
Variable m : Core.MoIRA.
Variable h : Core.Handlers.
Implicit Types (st : Core.State) (step raw : string) (steps : list string).

(** A stage never touches the ledger entry of another stage. *)
Lemma run_stage_other_key pd idx step st k :
  step ≠ k →
  dict_get (Core.results (Core.run_stage m h pd idx step st)) k
  = dict_get (Core.results st) k.
Proof.
  intros Hne.
  destruct (run_stage_cases m h pd idx step st) as [[_ ->]|[_ [v ->]]];
    [done | by apply dict_get_set_ne].
Qed.

(** Only a successful [read_idat_files] provides a beta matrix. *)
Lemma run_stage_no_betas pd idx step st :
  Core.current_betas st = None → step ≠ "read_idat_files" →
  Core.current_betas (Core.run_stage m h pd idx step st) = None.
Proof.
  intros Hb Hne. destruct (decide (step ∈ Core.KNOWN_STEPS)) as [Hk|Hk].
  - destruct (try_body_requires_betas m h pd idx step st Hb Hk Hne) as [msg Hr].
    by rewrite (run_stage_raise _ _ _ _ _ _ _ Hr).
  - unfold Core.run_stage. by rewrite try_body_unknown.
Qed.

Lemma state_after_no_betas steps i n :
  Core.current_betas (Core.state_after m h steps i) = None →
  (∀ j raw, i ≤ j < i + n → steps !! j = Some raw →
            Core.normalize raw ≠ "read_idat_files") →
  i + n ≤ length steps →
  Core.current_betas (Core.state_after m h steps (i + n)) = None.
Proof.
  intros Hb. induction n as [|n IH]; intros Hno Hlen.
  - by rewrite Nat.add_0_r.
  - destruct (lookup_lt_is_Some_2 steps (i + n)) as [raw Hraw]; [lia |].
    replace (i + S n) with (S (i + n)) by lia.
    rewrite (state_after_S _ _ _ _ _ Hraw). apply run_stage_no_betas.
    + apply IH; [| lia]. intros j raw' ? ?. apply (Hno j raw'); [lia | done].
    + apply (Hno (i + n) raw); [lia | done].
Qed.

Lemma state_after_keeps_entry steps i n k v :
  dict_get (Core.results (Core.state_after m h steps i)) k = Some v →
  (∀ j raw, i ≤ j < i + n → steps !! j = Some raw → Core.normalize raw ≠ k) →
  i + n ≤ length steps →
  dict_get (Core.results (Core.state_after m h steps (i + n))) k = Some v.
Proof.
  intros Hv. induction n as [|n IH]; intros Hno Hlen.
  - by rewrite Nat.add_0_r.
  - destruct (lookup_lt_is_Some_2 steps (i + n)) as [raw Hraw]; [lia |].
    replace (i + S n) with (S (i + n)) by lia.
    rewrite (state_after_S _ _ _ _ _ Hraw), run_stage_other_key.
    + apply IH; [| lia]. intros j raw' ? ?. apply (Hno j raw'); [lia | done].
    + apply (Hno (i + n) raw); [lia | done].
Qed.

End Isolation.

(** ** The life of a job record *)

Section Lifecycle.
Import Main.
Variable h : Core.Handlers.
Variable load : string → Exc Targets.
Variables (user : string) (meta : Meta) (cm : pydict string) (now : string).
Implicit Types (steps : list string) (j job : Job) (ts : list Transition).

(** A task sets its record running, reports progress some number of times
    and ends by setting the status and then the result, or the status and
    then the error. *)
Lemma task_transitions_shape steps :
  ∃ mid st fin,
    task_transitions h load user meta steps cm
    = SetStatus running :: mid ++ [SetStatus st; fin]
    ∧ Forall (progress_write (length steps)) mid
    ∧ ((∃ l, st = completed ∧ fin = SetResult l
             ∧ mid = flat_map progress_of (Core.progress_calls steps))
       ∨ (∃ msg, st = failed ∧ fin = SetError msg)).
Proof.
  rewrite task_transitions_eq.
  destruct (load _) as [msg|sheet].
  { exists [], failed, (SetError msg). split_and!; [done | done | eauto]. }
  simpl. destruct (Core.make_plots_dir h _) as [msg|].
  { exists [], failed, (SetError msg). split_and!; [done | done | eauto]. }
  assert (Forall (progress_write (length steps))
            (flat_map progress_of (Core.progress_calls steps))) as Hmid.
  { apply progress_of_writes. intros ???. apply progress_calls_bound. }
  destruct (Core.write_summary _ _ _ _) as [msg|].
  - eexists _, failed, (SetError msg). split_and!; [done | done | eauto].
  - eexists _, completed, (SetResult _).
    split_and!; [done | done |]. left. by eexists.
Qed.

Lemma new_job_phases steps mid st fin k :
  Forall (progress_write (length steps)) mid →
  let ts := SetStatus running :: mid ++ [SetStatus st; fin] in
  let j0 := new_job user now steps in
  (k = 0 ∧ job_after k ts j0 = j0)
  ∨ (0 < k ≤ S (length mid) ∧ in_flight (length steps) (job_after k ts j0))
  ∨ (k = S (S (length mid)) ∧
     ∃ j, in_flight (length steps) j ∧ job_after k ts j0 = set_status st j)
  ∨ (length ts ≤ k ∧
     ∃ j, in_flight (length steps) j
          ∧ job_after k ts j0 = apply fin (set_status st j)).
Proof.
  intros Hb. apply job_after_phases; simpl; try done. lia.
Qed.

Lemma fold_progress_step_idx total idx steps j :
  step_idx (fold_left (fun j t => apply t j)
              (flat_map progress_of
                 (Core.progress_calls_from total idx steps)) j)
  = match steps with [] => step_idx j | _ => idx + length steps - 1 end.
Proof.
  revert idx j. induction steps as [|raw steps IH]; intros; simpl; [done |].
  rewrite IH. destruct steps; simpl; lia.
Qed.

Lemma fold_progress_total total idx steps j :
  total_steps (fold_left (fun j t => apply t j)
                 (flat_map progress_of
                    (Core.progress_calls_from total idx steps)) j)
  = match steps with [] => total_steps j | _ => total end.
Proof.
  revert idx j. induction steps as [|raw steps IH]; intros; simpl; [done |].
  rewrite IH. by destruct steps.
Qed.

(** When the loop is over, the last progress call has been made. *)
Lemma progress_done steps :
  let j := fold_left (fun j t => apply t j)
             (flat_map progress_of (Core.progress_calls steps))
             (apply (SetStatus running) (new_job user now steps)) in
  in_flight (length steps) j
  ∧ step_idx j = length steps ∧ total_steps j = length steps.
Proof.
  simpl. split.
  - apply fold_progress_in_flight.
    + apply progress_of_writes. intros ???. apply progress_calls_bound.
    + repeat split; simpl; lia.
  - unfold Core.progress_calls.
    rewrite fold_progress_step_idx, fold_progress_total.
    destruct steps; simpl; split; lia.
Qed.

(** The record of a job when its task has returned, by the way the run
    ended. *)
Lemma task_final steps :
  let ts := task_transitions h load user meta steps cm in
  let job := job_after (length ts) ts (new_job user now steps) in
  let before_the_loop msg :=
    status job = failed ∧ error job = Some msg ∧ result job = None
    ∧ step job = None ∧ step_idx job = 0 ∧ total_steps job = length steps in
  match load (samplesheet_path_of user meta) with
  | Raise msg => before_the_loop msg
  | Ret sheet =>
      let m := make_moira user meta cm sheet in
      match Core.make_plots_dir h (Core.plots_dir_of m) with
      | Some msg => before_the_loop msg
      | None =>
          let l := Core.results (Core.state_after m h steps (length steps)) in
          step_idx job = length steps ∧ total_steps job = length steps
          ∧ match Core.write_summary h (Core.summary_path_of m) steps l with
            | Some msg =>
                status job = failed ∧ error job = Some msg ∧ result job = None
            | None =>
                status job = completed ∧ result job = Some l
                ∧ error job = None
            end
      end
  end.
Proof.
  intros ts job before_the_loop. subst before_the_loop job ts.
  unfold job_after. rewrite firstn_all, task_transitions_eq.
  destruct (load _) as [msg|sheet]; [by split_and! |]. simpl.
  destruct (Core.make_plots_dir h _) as [msg|]; [by split_and! |].
  cbn [fold_left]. rewrite fold_left_app.
  destruct (progress_done steps) as ((_ & Hr & He & _) & Hidx & Htotal).
  revert Hr He Hidx Htotal.
  generalize (fold_left (fun j t => apply t j)
                (flat_map progress_of (Core.progress_calls steps))
                (apply (SetStatus running) (new_job user now steps))).
  intros J Hr He Hidx Htotal.
  destruct (Core.write_summary _ _ _ _) as [msg|]; simpl;
    by rewrite ?Hr, ?He.
Qed.

(** What holds of the record after every number of assignments. *)
Lemma prefix_invariant steps k :
  let ts := task_transitions h load user meta steps cm in
  let job := job_after k ts (new_job user now steps) in
  (is_Some (result job) → status job = completed)
  ∧ (is_Some (error job) → status job = failed)
  ∧ step_idx job ≤ total_steps job
  ∧ (length ts ≤ k →
     terminal (status job) = true
     ∧ (status job = completed → is_Some (result job))
     ∧ (status job = failed → is_Some (error job)))
  ∧ (terminal (status job) = true → result job = None → error job = None →
     ∃ fin, drop k ts = [fin]
            ∧ ((status job = completed ∧ ∃ l, fin = SetResult l)
               ∨ (status job = failed ∧ ∃ msg, fin = SetError msg)))
  ∧ (∀ k', k ≤ k' → terminal (status job) = true →
           status (job_after k' ts (new_job user now steps)) = status job).
Proof.
  intros ts job.
  destruct (task_transitions_shape steps) as (mid & st & fin & Hts & Hb & Hfin).
  assert (length ts = S (S (S (length mid)))) as Hlen.
  { subst ts. rewrite Hts. simpl. rewrite length_app. simpl. lia. }
  assert (terminal st = true
          ∧ ((st = completed ∧ ∃ l, fin = SetResult l)
             ∨ (st = failed ∧ ∃ msg, fin = SetError msg))) as [Hst Hcases].
  { destruct Hfin as [(l & -> & -> & _)|(msg & -> & ->)]; split; eauto. }
  assert (∀ k', S (S (length mid)) ≤ k' →
            status (job_after k' ts (new_job user now steps)) = st) as Hlate.
  { intros k' Hk'.
    pose proof (new_job_phases steps mid st fin k' Hb) as Hp.
    cbv zeta in Hp. rewrite <- Hts in Hp. fold ts in Hp.
    destruct Hp as [[-> _]|[[? _]|[[_ (j & _ & Hj)]|[_ (j & _ & Hj)]]]];
      try lia; rewrite Hj.
    - done.
    - by destruct Hcases as [(_ & l & ->)|(_ & msg & ->)]. }
  pose proof (new_job_phases steps mid st fin k Hb) as Hp.
  cbv zeta in Hp. rewrite <- Hts in Hp. fold ts in Hp. fold job in Hp.
  destruct Hp
    as [[-> Hj]|[[Hk Hj]|[[Hk (j & Hj & Hjob)]|[Hk (j & Hj & Hjob)]]]].
  - (* as launched *)
    subst job. rewrite Hj. simpl.
    split_and!; try done; try (by intros [??]); try (intros; lia).
  - (* in flight *)
    destruct Hj as (Hs & Hr & He & Hi & Ht).
    rewrite Hs, Hr, He, Ht. simpl.
    split_and!; try done; try (by intros [??]); try (intros; lia).
  - (* between the last two assignments *)
    destruct Hj as (Hs & Hr & He & Hi & Ht).
    rewrite Hjob. simpl. rewrite Hr, He, Ht.
    split_and!; try done; try (by intros [??]); try (intros; lia).
    + intros _ _ _. exists fin. split; [| done].
      subst ts. rewrite Hts, Hk. simpl. rewrite drop_app_ge by lia.
      by replace (S (length mid) - length mid) with 1 by lia.
    + intros k' Hk' _. apply Hlate. lia.
  - (* finished *)
    destruct Hj as (Hs & Hr & He & Hi & Ht).
    rewrite Hjob.
    destruct Hcases as [(-> & l & ->)|(-> & msg & ->)]; simpl;
      rewrite ?Hr, ?He, ?Ht;
      (split_and!; try done; try (by intros [??]); try (by eexists);
       try (intros k' Hk' _; apply Hlate; lia)).
Qed.

Lemma apply_user_id t j : user_id (apply t j) = user_id j.
Proof. by destruct t. Qed.

Lemma job_after_user_id k ts j : user_id (job_after k ts j) = user_id j.
Proof.
  unfold job_after. generalize (take k ts). intros l. revert j.
  induction l as [|t l IH]; intros; simpl; [done |].
  by rewrite IH, apply_user_id.
Qed.

Lemma job_after_S k ts j t rest :
  drop k ts = t :: rest →
  job_after (S k) ts j = apply t (job_after k ts j) ∧ drop (S k) ts = rest.
Proof.
  intros Hdrop.
  assert (ts !! k = Some t) as Hk.
  { rewrite <- (Nat.add_0_r k), <- lookup_drop, Hdrop. done. }
  split.
  - unfold job_after. rewrite (take_S_r _ _ _ Hk), fold_left_app. done.
  - rewrite (drop_S _ _ _ Hk) in Hdrop. by injection Hdrop.
Qed.

End Lifecycle.

(** ** The server *)

Section Server.
Import Main.
Implicit Types (s : Server) (job : Job) (rest : list Transition).

Lemma moment_next job t rest :
  moment job (t :: rest) → moment (apply t job) rest.
Proof.
  intros (h & load & user & now & meta & steps & cm & k & -> & Hrest).
  symmetry in Hrest. apply (job_after_S _ _ (new_job user now steps)) in Hrest
    as [Hjob Hdrop].
  exists h, load, user, now, meta, steps, cm, (S k). simpl.
  by rewrite Hjob, Hdrop.
Qed.

(** A moment of a task satisfies what holds after every number of
    assignments. *)
Lemma moment_invariant job rest :
  moment job rest →
  (is_Some (result job) → status job = completed)
  ∧ (is_Some (error job) → status job = failed)
  ∧ step_idx job ≤ total_steps job
  ∧ (rest = [] →
     terminal (status job) = true
     ∧ (status job = completed → is_Some (result job))
     ∧ (status job = failed → is_Some (error job)))
  ∧ (terminal (status job) = true → result job = None → error job = None →
     ∃ fin, rest = [fin]
            ∧ ((status job = completed ∧ ∃ l, fin = SetResult l)
               ∨ (status job = failed ∧ ∃ msg, fin = SetError msg)))
  ∧ (∀ t rest', rest = t :: rest' → terminal (status job) = true →
                status (apply t job) = status job).
Proof.
  intros (h & load & user & now & meta & steps & cm & k & -> & ->).
  simpl.
  destruct (prefix_invariant h load user meta cm now steps k)
    as (Hr & He & Hidx & Hend & Htorn & Hstable).
  split_and!; try done.
  - intros Hnil. apply Hend.
    destruct (decide (length (task_transitions h load user meta steps cm) ≤ k))
      as [|Hlt]; [done |].
    apply (f_equal length) in Hnil. rewrite length_drop in Hnil.
    simpl in Hnil. lia.
  - intros t rest' Hrest Hterm.
    apply (job_after_S _ _ (new_job user now steps)) in Hrest as [<- _].
    apply Hstable; [lia | done].
Qed.

Lemma step_consistent s s' :
  consistent s → server_step s s' → consistent s'.
Proof.
  intros Hs Hstep id. specialize (Hs id).
  destruct Hstep as [h load user job_id now meta steps cm s jobs' resp
                       Hfresh Hrun | job_id t rest s Htodo]; simpl.
  - unfold run_workflow in Hrun. destruct steps as [|x steps']; [done |].
    injection Hrun as <- _.
    destruct (decide (id = job_id)) as [->|Hne].
    + rewrite !lookup_insert_eq.
      exists h, load, user, now, meta, (x :: steps'), cm, 0. done.
    + by rewrite !lookup_insert_ne.
  - unfold write. destruct (decide (id = job_id)) as [->|Hne].
    + rewrite lookup_alter_eq, lookup_insert_eq. rewrite Htodo in Hs.
      destruct (store s !! job_id) as [job|]; [| done]. simpl.
      by apply moment_next.
    + by rewrite lookup_alter_ne, lookup_insert_ne.
Qed.

Lemma reachable_consistent s : reachable s → consistent s.
Proof.
  unfold reachable. intros Hreach.
  apply (rtc_ind_r (R := server_step) consistent boot); [| | exact Hreach].
  - intros id. simpl. by rewrite !lookup_empty.
  - intros s1 s2 _ Hstep Hs1. by eapply step_consistent.
Qed.

(** No step of the server removes a record, changes its owner or changes a
    status that is [completed] or [failed]. *)
Lemma step_keeps s s' job_id job :
  consistent s → server_step s s' → store s !! job_id = Some job →
  ∃ job', store s' !! job_id = Some job'
          ∧ user_id job' = user_id job
          ∧ (terminal (status job) = true → status job' = status job).
Proof.
  intros Hs Hstep Hjob. specialize (Hs job_id). rewrite Hjob in Hs.
  destruct Hstep as [h load user id now meta steps cm s jobs' resp
                       Hfresh Hrun | id t rest s Htodo]; simpl.
  - unfold run_workflow in Hrun. destruct steps as [|x steps']; [done |].
    injection Hrun as <- _. exists job.
    rewrite lookup_insert_ne by (intros ->; congruence). done.
  - unfold write. destruct (decide (job_id = id)) as [->|Hne].
    + rewrite lookup_alter_eq, Hjob. simpl. eexists. split; [done |].
      rewrite Htodo in Hs. split; [apply apply_user_id |].
      destruct (moment_invariant job (t :: rest) Hs) as (_ & _ & _ & _ & _ & H).
      by apply (H t rest).
    + exists job. by rewrite lookup_alter_ne.
Qed.

Lemma steps_keep s s' job_id job :
  consistent s → rtc server_step s s' → store s !! job_id = Some job →
  ∃ job', store s' !! job_id = Some job'
          ∧ user_id job' = user_id job
          ∧ (terminal (status job) = true → status job' = status job).
Proof.
  intros Hs Hsteps. revert job. induction Hsteps as [s|s s1 s' Hstep _ IH];
    intros job Hjob; [by exists job |].
  destruct (step_keeps s s1 job_id job Hs Hstep Hjob)
    as (job1 & Hjob1 & Huser1 & Hstatus1).
  destruct (IH (step_consistent _ _ Hs Hstep) job1 Hjob1)
    as (job' & Hjob' & Huser' & Hstatus').
  exists job'. split_and!; [done | congruence |].
  intros Hterm. rewrite Hstatus'; rewrite Hstatus1; done.
Qed.

(** A launch followed by any number of the assignments of its task is a
    run of the server. *)
Lemma reachable_prefix h load user job_id now meta steps cm k :
  steps ≠ [] →
  let ts := task_transitions h load user meta steps cm in
  k ≤ length ts →
  reachable {| store := {[ job_id := job_after k ts (new_job user now steps) ]};
               todo := {[ job_id := drop k ts ]} |}.
Proof.
  intros Hsteps ts. unfold reachable. induction k as [|k IH]; intros Hk.
  - eapply rtc_r; [apply rtc_refl |].
    unfold job_after. simpl. rewrite <- !insert_empty.
    apply (step_launch h load user job_id now meta steps cm boot _
             (job_id, pending)); [apply lookup_empty |].
    unfold run_workflow. by destruct steps.
  - eapply rtc_r; [apply IH; lia |].
    destruct (lookup_lt_is_Some_2 ts k) as [t Ht]; [lia |].
    assert (drop k ts = t :: drop (S k) ts) as Hdrop by (by apply drop_S).
    destruct (job_after_S k ts (new_job user now steps) t _ Hdrop)
      as [-> _].
    pose proof (step_write job_id t (drop (S k) ts)
                  {| store := {[ job_id := job_after k ts
                                             (new_job user now steps) ]};
                     todo := {[ job_id := drop k ts ]} |}) as Hstep.
    cbn [store todo] in Hstep. unfold write in Hstep.
    rewrite alter_singleton_eq, insert_singleton_eq in Hstep.
    apply Hstep. by rewrite lookup_singleton_eq, Hdrop.
Qed.

End Server.

(** C2, as amended.  The server stores a record at POST /run and its tasks
    assign the fields of their records one at a time, in any interleaving.
    In every state of the store that it reaches, every record satisfies:
    [result] is present only when the status is [completed] and [error] only
    when it is [failed]; [step_idx] is at most [total_steps]; and when the
    task of the record has no assignment left, the status is [completed] or
    [failed], a completed record has its result and a failed record its
    error.  A record whose status is [completed] or [failed] while result
    and error are both absent is between the last two assignments of its
    task: exactly the assignment of the result or of the error is still to
    come.  No later step of the server removes a record, changes its owner,
    or changes a status that is [completed] or [failed].  The states after
    a launch and any number of the assignments of its task are such states;
    [_run_workflow_task] performs these assignments on its own entry, in
    order; the launch stores the record as created, with status
    [pending]. *)
Theorem job_record_invariant (s : Main.Server) (job_id : string)
    (job : Main.Job)
    (Hreach : Main.reachable s)
    (Hjob : Main.store s !! job_id = Some job) :
  (is_Some (Main.result job) → Main.status job = Main.completed)
  ∧ (is_Some (Main.error job) → Main.status job = Main.failed)
  ∧ Main.step_idx job ≤ Main.total_steps job
  ∧ (∃ rest,
       Main.todo s !! job_id = Some rest
       ∧ (rest = [] →
          Main.terminal (Main.status job) = true
          ∧ (Main.status job = Main.completed → is_Some (Main.result job))
          ∧ (Main.status job = Main.failed → is_Some (Main.error job)))
       ∧ (Main.terminal (Main.status job) = true →
          Main.result job = None → Main.error job = None →
          ∃ fin, rest = [fin]
                 ∧ ((Main.status job = Main.completed
                     ∧ ∃ l, fin = Main.SetResult l)
                    ∨ (Main.status job = Main.failed
                       ∧ ∃ msg, fin = Main.SetError msg))))
  ∧ (∀ s', rtc Main.server_step s s' →
       ∃ job', Main.store s' !! job_id = Some job'
               ∧ Main.user_id job' = Main.user_id job
               ∧ (Main.terminal (Main.status job) = true →
                  Main.status job' = Main.status job))
  ∧ (∀ h load user id now meta steps cm k,
       steps ≠ [] →
       let ts := Main.task_transitions h load user meta steps cm in
       k ≤ length ts →
       Main.reachable
         {| Main.store :=
              {[ id := Main.job_after k ts (Main.new_job user now steps) ]};
            Main.todo := {[ id := drop k ts ]} |})
  ∧ (∀ h load id user meta steps cm (jobs : gmap string Main.Job),
       Main._run_workflow_task h load id user meta steps cm jobs
       = fold_left (fun jobs t => Main.write id t jobs)
           (Main.task_transitions h load user meta steps cm) jobs)
  ∧ (∀ user id now steps (jobs : gmap string Main.Job),
       steps ≠ [] →
       Main.run_workflow user id now steps jobs
       = inr (<[id := Main.new_job user now steps]> jobs,
              (id, Main.pending))).
Proof.
  pose proof (reachable_consistent s Hreach) as Hs.
  pose proof (Hs job_id) as Hid. rewrite Hjob in Hid.
  destruct (Main.todo s !! job_id) as [rest|] eqn:Hrest; [| done].
  destruct (moment_invariant job rest Hid)
    as (Hr & He & Hidx & Hend & Htorn & _).
  split_and!; try done.
  - by exists rest.
  - intros s' Hsteps. by apply (steps_keep s).
  - intros. by apply reachable_prefix.
  - intros. apply run_workflow_task_eq.
  - intros user id now steps jobs Hsteps. unfold Main.run_workflow.
    by destruct steps.
Qed.

Lemma job_record_invariant_witness :
  let job :=
    Main.apply (Main.SetStatus Main.running)
      (Main.new_job "u1" "2024-01-01" ["perform_pca"]) in
  Main.step_idx job ≤ Main.total_steps job.
Proof.
  intros job.
  pose (ts := Main.task_transitions Sample.offline Sample.load_samplesheet
                "u1" Sample.meta ["perform_pca"] []).
  pose (s1 := {| Main.store :=
                   <["job-1" := Main.new_job "u1" "2024-01-01" ["perform_pca"]]>
                     (Main.store Main.boot);
                 Main.todo := <["job-1" := ts]> (Main.todo Main.boot) |}).
  pose (s2 := {| Main.store :=
                   Main.write "job-1" (Main.SetStatus Main.running)
                     (Main.store s1);
                 Main.todo := <["job-1" := tail ts]> (Main.todo s1) |}).
  refine (proj1 (proj2 (proj2 (job_record_invariant s2 "job-1" job _ _)))).
  - eapply rtc_l; [| eapply rtc_l; [| apply rtc_refl]].
    + apply (Main.step_launch Sample.offline Sample.load_samplesheet "u1"
               "job-1" "2024-01-01" Sample.meta ["perform_pca"] [] Main.boot
               (Main.store s1) ("job-1", Main.pending)); reflexivity.
    + apply (Main.step_write "job-1" (Main.SetStatus Main.running) (tail ts)
               s1). reflexivity.
  - reflexivity.
Defined.

(** C2 as stated fails between the last two assignments of a task: the
    status is already [completed] and the result still absent, and the
    result endpoint answers with an absent result. *)
Lemma job_record_torn_counterexample :
  let ts :=
    Main.task_transitions Sample.offline Sample.load_samplesheet "u1"
      Sample.meta ["perform_pca"] [] in
  let job :=
    Main.job_after 5 ts (Main.new_job "u1" "2024-01-01" ["perform_pca"]) in
  let s := {| Main.store := {[ "job-1" := job ]};
              Main.todo := {[ "job-1" := drop 5 ts ]} |} in
  Main.reachable s
  ∧ drop 5 ts
    = [Main.SetResult
         [("perform_pca", error_entry "perform_pca requires beta values.")]]
  ∧ Main.status job = Main.completed
  ∧ Main.result job = None
  ∧ ¬ (is_Some (Main.result job) ↔ Main.status job = Main.completed)
  ∧ Main.get_job_result "u1" "job-1" (Main.store s) = inr None.
Proof.
  intros ts job s. split_and!.
  - apply reachable_prefix; [done | vm_compute; lia].
  - reflexivity.
  - reflexivity.
  - reflexivity.
  - intros [_ H]. by destruct (H eq_refl).
  - reflexivity.
Qed.

(** C10, as amended.  When [run_workflow] reaches its loop (its plots
    directory could be created), the progress callback is called exactly
    once for every element of the requested list, in order, with the
    trimmed and lowercased name, the 1-based position and the length of the
    whole list, whether the name is in the vocabulary or not and whether the
    stage fails or not; when the plots directory cannot be created it is
    not called at all.  The record of a job whose task has returned has a
    status [completed] or [failed] and [total_steps] equal to the length of
    the requested list; [step_idx] is equal to it when the run reached the
    loop, as in every completed job, and 0 when the sample sheet could not
    be loaded or the plots directory not created. *)
Theorem progress_called_for_every_requested_stage (m : Core.MoIRA)
    (h : Core.Handlers) (steps : list string) :
  fst (Core.run_workflow m h steps (Some Core.record_call) [])
  = match Core.make_plots_dir h (Core.plots_dir_of m) with
    | None => Core.progress_calls steps
    | Some _ => []
    end
  ∧ length (Core.progress_calls steps) = length steps
  ∧ (∀ i raw, steps !! i = Some raw →
       Core.progress_calls steps !! i
       = Some (Core.normalize raw, S i, length steps))
  ∧ (∀ load user meta cm now job_id (jobs : gmap string Main.Job),
       let finished :=
         Main._run_workflow_task h load job_id user meta steps cm
           (<[job_id := Main.new_job user now steps]> jobs) in
       ∃ job,
         finished !! job_id = Some job
         ∧ Main.terminal (Main.status job) = true
         ∧ Main.total_steps job = length steps
         ∧ (Main.status job = Main.completed →
            Main.step_idx job = length steps)
         ∧ match load (Main.samplesheet_path_of user meta) with
           | Raise _ => Main.status job = Main.failed ∧ Main.step_idx job = 0
           | Ret sheet =>
               match Core.make_plots_dir h
                       (Core.plots_dir_of
                          (Main.make_moira user meta cm sheet)) with
               | Some _ =>
                   Main.status job = Main.failed ∧ Main.step_idx job = 0
               | None => Main.step_idx job = length steps
               end
           end).
Proof.
  split_and!.
  - rewrite run_workflow_calls.
    destruct (Core.make_plots_dir h _); [done |]. apply fold_record_call.
  - apply progress_calls_from_length.
  - intros i raw Hi. unfold Core.progress_calls.
    by rewrite (progress_calls_from_lookup _ _ _ _ _ Hi).
  - intros load user meta cm now job_id jobs finished.
    eexists. split; [apply task_store |].
    pose proof (task_final h load user meta cm now steps) as Hfinal.
    cbv zeta in Hfinal.
    destruct (load _) as [msg|sheet].
    { destruct Hfinal as (Hs & _ & _ & _ & Hidx & Htotal).
      rewrite Hs, Hidx. by split_and!. }
    destruct (Core.make_plots_dir h _) as [msg|].
    { destruct Hfinal as (Hs & _ & _ & _ & Hidx & Htotal).
      rewrite Hs, Hidx. by split_and!. }
    destruct Hfinal as (Hidx & Htotal & Hsum).
    destruct (Core.write_summary _ _ _ _) as [msg|];
      destruct Hsum as (Hs & _ & _); rewrite Hs; by split_and!.
Qed.

Lemma progress_called_for_every_requested_stage_witness :
  fst (Core.run_workflow Sample.moira Sample.offline
         [" Read_IDAT_Files "; "polish"; "quality_control"]
         (Some Core.record_call) [])
  = [("read_idat_files", 1, 3); ("polish", 2, 3); ("quality_control", 3, 3)].
Proof.
  exact (proj1 (progress_called_for_every_requested_stage Sample.moira
                  Sample.offline
                  [" Read_IDAT_Files "; "polish"; "quality_control"])).
Defined.

(** C10 as stated fails for a job whose sample sheet cannot be loaded: the
    callback is never called for the one requested stage, and the finished
    job reports step 0 of 1. *)
Lemma progress_not_called_counterexample :
  let load := fun _ : string => @Raise Targets "samples.csv not found" in
  let steps := ["perform_pca"] in
  let finished :=
    Main._run_workflow_task Sample.offline load "job-1" "u1" Sample.meta steps
      [] {[ "job-1" := Main.new_job "u1" "2024-01-01" steps ]} in
  fst (Main._run_workflow_sync Sample.offline load Core.record_call "u1"
         Sample.meta steps [] [])
  = []
  ∧ finished !! "job-1"
    = Some {| Main.status := Main.failed; Main.step := None;
              Main.step_idx := 0; Main.total_steps := 1;
              Main.result := None;
              Main.error := Some "samples.csv not found";
              Main.user_id := "u1"; Main.created_at := "2024-01-01" |}.
Proof. split; reflexivity. Qed.

(** C4, as amended.  The keys of the returned ledger are distinct names of
    the vocabulary and form a subsequence of the requested list after each
    name is trimmed and lowercased; a requested name whose normalized form is
    outside the vocabulary has no entry, neither a result nor an error. *)
Theorem ledger_keys_follow_normalized_request {W} (m : Core.MoIRA)
    (h : Core.Handlers) (steps : list string)
    (cb : option (string → nat → nat → W → W)) (w w' : W) (l : ledger)
    (Hret : Core.run_workflow m h steps cb w = (w', Ret l)) :
  dict_keys l `sublist_of` map Core.normalize steps
  ∧ NoDup (dict_keys l)
  ∧ (∀ key, key ∈ dict_keys l → key ∈ Core.KNOWN_STEPS)
  ∧ (∀ raw, raw ∈ steps → Core.normalize raw ∉ Core.KNOWN_STEPS →
            dict_get l (Core.normalize raw) = None).
Proof.
  pose proof (run_workflow_returns m h cb steps w) as Hsnd.
  rewrite Hret in Hsnd. simpl in Hsnd.
  assert (l = Core.results (Core.state_after m h steps (length steps))) as ->.
  { destruct (Core.make_plots_dir h _); [done |].
    destruct (Core.write_summary _ _ _ _); by simplify_eq. }
  destruct (state_after_keys m h steps (length steps)) as (Hsub & Hknown & Hnd).
  split_and!; try done.
  intros raw _ Hunk. apply dict_get_None_keys. intros Hin. by apply Hknown in Hin.
Qed.

Lemma ledger_keys_follow_normalized_request_witness :
  dict_keys [("perform_pca", error_entry "perform_pca requires beta values.")]
  `sublist_of` map Core.normalize ["Perform_PCA"; "polish"].
Proof.
  exact (proj1 (ledger_keys_follow_normalized_request (W := unit) Sample.moira
                  Sample.offline ["Perform_PCA"; "polish"] None tt tt
                  [("perform_pca", error_entry "perform_pca requires beta values.")]
                  eq_refl)).
Defined.

(** C4 as stated fails: the requested name "Perform_PCA" is not in the
    vocabulary, yet the run stores an entry for it, under the key
    "perform_pca", which is not an element of the requested list. *)
Lemma ledger_keys_literal_counterexample :
  ∃ l, snd (Core.run_workflow Sample.moira Sample.offline ["Perform_PCA"]
              None tt) = Ret l
       ∧ ("Perform_PCA" ∉ Core.KNOWN_STEPS)
       ∧ dict_keys l = ["perform_pca"]
       ∧ ¬ (∀ key, key ∈ dict_keys l → key ∈ ["Perform_PCA"]).
Proof.
  eexists. split; [reflexivity |]. split_and!.
  - apply unknown_step. by repeat split.
  - reflexivity.
  - intros Hall. specialize (Hall "perform_pca"). simpl in Hall.
    assert ("perform_pca" ∈ ["Perform_PCA"]) as Hin by (apply Hall; by left).
    by apply list_elem_of_singleton in Hin.
Qed.

(** C1, as amended.  Let the stage at position [i] of the requested list
    raise inside the [try] statement of a job's run.  Then (1) the loop
    stores an entry with the error message under the stage's key and leaves
    the pipeline state as it was, the beta matrix of the last successful
    stage included; (2) every later requested stage is run, on the state
    left by its predecessor; (3) a later stage of the vocabulary gets its
    own error entry from its own precondition check when it finds no beta
    matrix: the failed stage left none and no [read_idat_files] is requested
    in between; (4) the error entry is in the ledger at the end of the loop
    unless the same stage is requested again later; (5) when the task has
    returned, the record of the job is [completed] and holds that ledger
    whenever the plots directory and the summary file can be written, and
    with the sample sheet loaded it is [failed] only when one of these two
    raises. *)
Theorem stage_failure_is_isolated (h : Core.Handlers)
    (load : string → Exc Targets) (user : string) (meta : Main.Meta)
    (cm : pydict string) (now : string) (steps : list string)
    (sheet : Targets) (i : nat) (raw msg : string) :
  let m := Main.make_moira user meta cm sheet in
  let pd := Core.plots_dir_of m in
  let after := Core.state_after m h steps in
  let final := Core.results (after (length steps)) in
  load (Main.samplesheet_path_of user meta) = Ret sheet →
  steps !! i = Some raw →
  Core.try_body m h pd (S i) (Core.normalize raw) (after i) = Raise msg →
  after (S i)
  = Core.set_result (after i) (Core.normalize raw) (error_entry msg)
  ∧ dict_get (Core.results (after (S i))) (Core.normalize raw)
    = Some (error_entry msg)
  ∧ Core.current_betas (after (S i)) = Core.current_betas (after i)
  ∧ (∀ j raw', i < j → steps !! j = Some raw' →
       after (S j) = Core.run_stage m h pd (S j) (Core.normalize raw') (after j))
  ∧ (∀ j raw', i < j → steps !! j = Some raw' →
       Core.current_betas (after i) = None →
       (∀ j' r, i < j' ≤ j → steps !! j' = Some r →
                Core.normalize r ≠ "read_idat_files") →
       Core.normalize raw' ∈ Core.KNOWN_STEPS →
       ∃ msg',
         Core.try_body m h pd (S j) (Core.normalize raw') (after j) = Raise msg'
         ∧ dict_get (Core.results (after (S j))) (Core.normalize raw')
           = Some (error_entry msg'))
  ∧ ((∀ j r, i < j → steps !! j = Some r →
             Core.normalize r ≠ Core.normalize raw) →
     dict_get final (Core.normalize raw) = Some (error_entry msg))
  ∧ (∀ job_id (jobs : gmap string Main.Job),
       let finished :=
         Main._run_workflow_task h load job_id user meta steps cm
           (<[job_id := Main.new_job user now steps]> jobs) in
       ∃ job,
         finished !! job_id = Some job
         ∧ (Core.make_plots_dir h pd = None →
            Core.write_summary h (Core.summary_path_of m) steps final = None →
            Main.status job = Main.completed ∧ Main.result job = Some final
            ∧ Main.error job = None)
         ∧ (Main.status job = Main.failed ↔
            is_Some (Core.make_plots_dir h pd)
            ∨ is_Some (Core.write_summary h (Core.summary_path_of m) steps
                         final))).
Proof.
  intros m pd after final Hload Hi Hraise.
  assert (after (S i)
          = Core.set_result (after i) (Core.normalize raw) (error_entry msg))
    as Hrec.
  { unfold after. rewrite (state_after_S _ _ _ _ _ Hi).
    by apply run_stage_raise. }
  assert (dict_get (Core.results (after (S i))) (Core.normalize raw)
          = Some (error_entry msg)) as Hentry.
  { rewrite Hrec. simpl. apply dict_get_set_eq. }
  assert (∀ j raw', steps !! j = Some raw' →
            after (S j)
            = Core.run_stage m h pd (S j) (Core.normalize raw') (after j))
    as Hnext by (intros; by apply state_after_S).
  split_and!; try done.
  - by rewrite Hrec.
  - intros; by apply Hnext.
  - (* a later stage without a beta matrix *)
    intros j raw' Hij Hj Hb Hno Hknown.
    assert (Core.current_betas (after j) = None) as Hbj.
    { replace j with (S i + (j - S i)) by lia. unfold after.
      apply state_after_no_betas.
      - fold after. rewrite Hrec. done.
      - intros j' r ? ?. apply (Hno j' r); [lia | done].
      - apply lookup_lt_Some in Hj. lia. }
    assert (Core.normalize raw' ≠ "read_idat_files") as Hne
      by (apply (Hno j raw'); [lia | done]).
    destruct (try_body_requires_betas m h pd (S j) _ _ Hbj Hknown Hne)
      as [msg' Hr].
    exists msg'. split; [done |].
    rewrite (Hnext j raw' Hj), (run_stage_raise _ _ _ _ _ _ _ Hr). simpl.
    apply dict_get_set_eq.
  - (* the entry stays *)
    intros Hlast. unfold final.
    assert (S i ≤ length steps) as Hlen
      by (apply lookup_lt_Some in Hi; lia).
    pose proof (state_after_keeps_entry m h steps (S i) (length steps - S i)
                  _ _ Hentry) as Hkeep.
    replace (S i + (length steps - S i)) with (length steps) in Hkeep by lia.
    apply Hkeep; [| done].
    intros j r ? ?. apply (Hlast j r); [lia | done].
  - (* the record of the job *)
    intros job_id jobs finished.
    eexists. split; [apply task_store |].
    pose proof (task_final h load user meta cm now steps) as Hfinal.
    cbv zeta in Hfinal. rewrite Hload in Hfinal. fold m pd in Hfinal.
    destruct (Core.make_plots_dir h pd) as [e|].
    { destruct Hfinal as (Hs & _). rewrite Hs.
      split; [done |]. split; [intros _; left; by eexists | done]. }
    fold after final in Hfinal. destruct Hfinal as (_ & _ & Hsum).
    destruct (Core.write_summary h (Core.summary_path_of m) steps final)
      as [e|]; destruct Hsum as (Hs & H1 & H2); rewrite Hs.
    + split; [done |]. split; [intros _; right; by eexists | done].
    + split; [done |]. split; [done | by intros [[??]|[??]]].
Qed.

Lemma stage_failure_is_isolated_witness :
  dict_get
    (Core.results
       (Core.state_after Sample.moira Sample.offline
          ["read_idat_files"; "quality_control"] 1))
    "read_idat_files"
  = Some (error_entry "R package 'sesame' not found.").
Proof.
  exact (proj1 (proj2
    (stage_failure_is_isolated Sample.offline Sample.load_samplesheet "u1"
       Sample.meta [] "2024-01-01T00:00:00"
       ["read_idat_files"; "quality_control"] Sample.sheet 0
       "read_idat_files" "R package 'sesame' not found."
       eq_refl eq_refl eq_refl))).
Defined.

(** C1 as stated fails when the quality control raises after the IDAT
    files have been read: the statistics requested next depend on the
    filtered matrix, and they are computed on the matrix as it was read and
    get a result, not an error entry. *)
Lemma dependent_stage_runs_counterexample :
  let steps := ["read_idat_files"; "quality_control"; "basic_statistics"] in
  let after := Core.state_after Sample.moira Sample.qc_fails steps in
  Core.try_body Sample.moira Sample.qc_fails
    (Core.plots_dir_of Sample.moira) 2 "quality_control" (after 1)
  = Raise "R package 'sesame' not found."
  ∧ Core.current_betas (after 2) = Some Sample.two_by_two
  ∧ Core.results (after 3)
    = [ ("read_idat_files", [("n_probes", VInt 2); ("n_samples", VInt 2)]);
        ("quality_control", error_entry "R package 'sesame' not found.");
        ("basic_statistics", [("missing_values", VInt 0)]) ]
  ∧ snd (Main._run_workflow_sync Sample.qc_fails Sample.load_samplesheet
           (fun _ _ _ (u : unit) => u) "u1" Sample.meta steps [] tt)
    = Ret (Core.results (after 3)).
Proof. by split_and!. Qed.

(** ** Benjamini-Hochberg adjustment *)

Section BH.
Import Analysis.
Implicit Types (ps : list Q) (p q : Q).

Lemma lookup_map {A B} (f : A → B) (l : list A) i :
  map f l !! i = f <$> l !! i.
Proof. revert i. induction l; intros [|i]; simpl; auto. Qed.

Lemma lookup_combine {A B} (l1 : list A) (l2 : list B) i a b :
  l1 !! i = Some a → l2 !! i = Some b → combine l1 l2 !! i = Some (a, b).
Proof.
  revert l2 i. induction l1 as [|x l1 IH]; intros [|y l2] [|i] ??;
    simplify_eq/=; auto.
Qed.

Lemma Qlt_bool_iff p q : Qlt_bool p q = true ↔ (p < q)%Q.
Proof.
  unfold Qlt_bool. rewrite negb_true_iff, <- not_true_iff_false, Qle_bool_iff.
  split; [apply Qnot_le_lt | apply Qlt_not_le].
Qed.

(** Smaller and equal values are different values. *)
Lemma smaller_equal_length ps p :
  length (List.filter (fun q => Qlt_bool q p) ps)
  + length (List.filter (fun q => Qeq_bool q p) ps) ≤ length ps.
Proof.
  induction ps as [|q ps IH]; simpl; [done |].
  destruct (Qlt_bool q p) eqn:Hlt, (Qeq_bool q p) eqn:Heq; simpl; try lia.
  apply Qlt_bool_iff in Hlt. apply Qeq_bool_iff in Heq.
  rewrite Heq in Hlt. by apply Qlt_irrefl in Hlt.
Qed.

Lemma equal_length_pos ps p :
  In p ps → 1 ≤ length (List.filter (fun q => Qeq_bool q p) ps).
Proof.
  induction ps as [|q ps IH]; simpl; [done |].
  intros [->|Hin].
  - rewrite (proj2 (Qeq_bool_iff p p)) by reflexivity. simpl. lia.
  - destruct (Qeq_bool q p); simpl; [lia | auto].
Qed.

(** A rank lies between 1 and the number of values. *)
Lemma average_rank_bounds ps p :
  In p ps →
  (1 <= average_rank ps p)%Q
  ∧ (average_rank ps p <= inject_Z (Z.of_nat (length ps)))%Q.
Proof.
  intros Hin. unfold average_rank.
  pose proof (smaller_equal_length ps p) as Hle.
  pose proof (equal_length_pos ps p Hin) as Hpos.
  set (s := length (List.filter (fun q => Qlt_bool q p) ps)) in *.
  set (e := length (List.filter (fun q => Qeq_bool q p) ps)) in *.
  assert (0 <= inject_Z (Z.of_nat s))%Q as Hs
    by (rewrite <- (Zle_Qle 0); lia).
  assert (1 <= inject_Z (Z.of_nat e))%Q as He
    by (rewrite <- (Zle_Qle 1); lia).
  assert (inject_Z (Z.of_nat s) + inject_Z (Z.of_nat e)
          <= inject_Z (Z.of_nat (length ps)))%Q as Hse.
  { rewrite <- inject_Z_plus, <- Zle_Qle. lia. }
  assert (inject_Z (Z.of_nat s) + 1 <= inject_Z (Z.of_nat (length ps)))%Q
    as Hs1.
  { rewrite <- (inject_Z_plus _ 1), <- Zle_Qle. lia. }
  unfold Qdiv. change (/ 2)%Q with (1 # 2)%Q. split; Lqa.lra.
Qed.

Lemma bh_fdr_lookup ps i p :
  ps !! i = Some p →
  bh_fdr ps !! i
  = Some (Qmin (fl64 (fl64 (p * inject_Z (Z.of_nat (length ps)))
                      / average_rank ps p)) 1).
Proof.
  intros Hi. unfold bh_fdr, rankdata.
  rewrite lookup_map.
  erewrite lookup_combine; [done | done |].
  by rewrite lookup_map, Hi.
Qed.

Lemma bh_fdr_length ps : length (bh_fdr ps) = length ps.
Proof.
  unfold bh_fdr, rankdata.
  rewrite length_map, length_combine, length_map. lia.
Qed.

(** Rounding keeps the sign. *)
Lemma round_half_even_nonneg x : (0 <= x)%Q → (0 <= round_half_even x)%Z.
Proof.
  intros Hx. unfold round_half_even.
  pose proof (Qfloor_resp_le 0 x Hx) as Hf. change (Qfloor 0) with 0%Z in Hf.
  destruct (Qcompare _ _); [destruct (Z.even _) | |]; lia.
Qed.

Lemma fl64_pos_nonneg x : (0 <= x)%Q → (0 <= fl64_pos x)%Q.
Proof.
  intros Hx. unfold fl64_pos.
  set (e := Z.max (floor_log2 x - 52) (-1074)).
  assert (0 < Qpower 2 e)%Q as He by (by apply Qpower_0_lt).
  apply Qmult_le_0_compat; [| by apply Qlt_le_weak].
  rewrite <- (Zle_Qle 0). apply round_half_even_nonneg.
  apply Qle_shift_div_l; [done |]. by rewrite Qmult_0_l.
Qed.

Lemma fl64_nonneg x : (0 <= x)%Q → (0 <= fl64 x)%Q.
Proof.
  intros Hx. unfold fl64. destruct (Qcompare x 0) eqn:Hc.
  - done.
  - apply Qlt_alt in Hc. by apply Qle_not_lt in Hx.
  - by apply fl64_pos_nonneg.
Qed.

(** An adjusted value lies in [0, 1]. *)
Lemma bh_fdr_value_bounds ps p :
  In p ps → (0 <= p)%Q →
  let q := Qmin (fl64 (fl64 (p * inject_Z (Z.of_nat (length ps)))
                       / average_rank ps p)) 1 in
  (0 <= q)%Q ∧ (q <= 1)%Q.
Proof.
  intros Hin H0.
  destruct (average_rank_bounds ps p Hin) as [Hr1 Hrn].
  set (r := average_rank ps p) in *.
  set (n := inject_Z (Z.of_nat (length ps))) in *.
  assert (0 < r)%Q as Hr by Lqa.lra.
  assert (0 <= n)%Q as Hn by Lqa.lra.
  simpl. split; [| apply Q.le_min_r].
  apply Q.min_glb; [| done]. apply fl64_nonneg.
  apply Qle_shift_div_l; [done |]. rewrite Qmult_0_l.
  apply fl64_nonneg. by apply Qmult_le_0_compat.
Qed.

End BH.

(** C3, as amended.  The adjustment maps the p-value [p] at each position to
    [min(p * n / rank, 1)], the product and the quotient being those of
    binary64 numbers, where [n] is the number of p-values and [rank],
    between 1 and [n], the average rank of [p] among them (the number of
    smaller p-values plus half the number of equal ones plus one); the
    result has
    the length of the input; for p-values in [0, 1] every adjusted value lies
    in [0, 1]. *)
Theorem bh_fdr_adjustment (p_values : list Q)
    (Hrange : ∀ p, In p p_values → (0 <= p)%Q ∧ (p <= 1)%Q) :
  let n := inject_Z (Z.of_nat (length p_values)) in
  length (Analysis.bh_fdr p_values) = length p_values
  ∧ (∀ i p, p_values !! i = Some p →
       ∃ q rank,
         Analysis.rankdata p_values !! i = Some rank
         ∧ Analysis.bh_fdr p_values !! i = Some q
         ∧ q = Qmin (Analysis.fl64 (Analysis.fl64 (p * n) / rank)) 1
         ∧ rank
           = (inject_Z
                (Z.of_nat
                   (length (List.filter (fun x => Analysis.Qlt_bool x p)
                              p_values)))
              + (inject_Z
                   (Z.of_nat
                      (length (List.filter (fun x => Qeq_bool x p)
                                 p_values)))
                 + 1) / 2)%Q
         ∧ (1 <= rank)%Q ∧ (rank <= n)%Q
         ∧ (0 <= q)%Q ∧ (q <= 1)%Q).
Proof.
  intros n. split; [apply bh_fdr_length |].
  intros i p Hi.
  exists (Qmin (Analysis.fl64
                  (Analysis.fl64 (p * n) / Analysis.average_rank p_values p))
            1).
  exists (Analysis.average_rank p_values p).
  assert (In p p_values) as Hin
    by (apply list_elem_of_In, list_elem_of_lookup; eauto).
  destruct (Hrange p Hin) as [H0 H1].
  destruct (average_rank_bounds p_values p Hin) as [Hr1 Hrn].
  destruct (bh_fdr_value_bounds p_values p Hin H0) as (? & ?).
  split_and!; try done.
  - unfold Analysis.rankdata. by rewrite lookup_map, Hi.
  - by apply bh_fdr_lookup.
Qed.

Lemma bh_fdr_adjustment_witness :
  length (Analysis.bh_fdr [1 # 128; 9 # 1024]) = 2.
Proof.
  refine (proj1 (bh_fdr_adjustment [1 # 128; 9 # 1024] _)).
  intros p [<-|[<-|[]]]; split; discriminate.
Defined.

(** C3 as stated fails on the p-values 1/128 and 9/1024, both binary64
    numbers: the first is the smallest raw p-value, and its adjusted value
    1/64 is larger than the adjusted value 9/1024 of the second. *)
Lemma bh_fdr_smallest_counterexample :
  let p_values := [1 # 128; 9 # 1024] in
  map Qred (Analysis.bh_fdr p_values) = [1 # 64; 9 # 1024]
  ∧ (∀ p, In p p_values → (1 # 128 <= p)%Q)
  ∧ ¬ (∀ q, In q (map Qred (Analysis.bh_fdr p_values)) → (1 # 64 <= q)%Q).
Proof.
  split_and!.
  - by vm_compute.
  - intros p [<-|[<-|[]]]; discriminate.
  - intros Hall. specialize (Hall (9 # 1024)%Q).
    assert (1 # 64 <= 9 # 1024)%Q as Hle
      by (apply Hall; vm_compute; auto).
    by compute in Hle.
Qed.

(** An adjusted value can be smaller than its raw p-value: for the binary64
    number nearest to 0.173, the largest of three p-values, the rounded
    product by 3 divided by 3 is one unit in the last place below it. *)
Lemma bh_fdr_rounds_down :
  let p := (3116490942140383 # 18014398509481984)%Q in
  Qred (Analysis.fl64 (173 # 1000)) = p
  ∧ map Qred (Analysis.bh_fdr [1 # 1024; 1 # 512; p]) !! 2
    = Some (6232981884280765 # 36028797018963968)%Q
  ∧ (6232981884280765 # 36028797018963968 < p)%Q.
Proof. intros p. split_and!; by vm_compute. Qed.

(** ** Selection of the grouping column *)

Section GroupColumn.
Import Analysis.
Implicit Types (t : Targets) (betas : Matrix) (cm : pydict string).

Lemma find_none_iff {A} (f : A → bool) (l : list A) :
  List.find f l = None ↔ ∀ x, In x l → f x = false.
Proof.
  split; [apply find_none |].
  induction l as [|x l IH]; simpl; [done |]. intros Hall.
  rewrite (Hall x) by auto. apply IH. auto.
Qed.

Lemma existsb_eqb_In (s : string) (l : list string) :
  existsb (String.eqb s) l = true ↔ In s l.
Proof.
  rewrite existsb_exists. split.
  - by intros (x & Hin & ->%String.eqb_eq).
  - intros Hin. exists s. by rewrite String.eqb_refl.
Qed.

(** A candidate that passes the test is a two-valued column of the sheet. *)
Lemma candidate_ok_inv t common c :
  candidate_ok t common c = true →
  ∃ col, c = Some col ∧ In col (t_columns t) ∧ two_valued t common col = true.
Proof.
  destruct c as [col|]; simpl; [| done].
  rewrite !andb_true_iff, existsb_eqb_In. intros [[_ ?] ?]. eauto.
Qed.

Lemma select_group_column_sound betas t cm col :
  _select_group_column betas t cm = Some col →
  common_samples betas t ≠ [] ∧ In col (t_columns t)
  ∧ two_valued t (common_samples betas t) col = true.
Proof.
  unfold _select_group_column.
  destruct (common_samples betas t) as [|s common] eqn:Hc; [done |].
  destruct (List.find (candidate_ok t (s :: common)) _) as [c|] eqn:Hf.
  - intros ->. apply find_some in Hf as [_ Hok].
    apply candidate_ok_inv in Hok as (col' & ? & ? & ?). by simplify_eq.
  - intros [? ?]%find_some. done.
Qed.

Lemma select_group_column_none betas t cm :
  _select_group_column betas t cm = None ↔
  common_samples betas t = []
  ∨ ∀ col, In col (t_columns t) →
           two_valued t (common_samples betas t) col = false.
Proof.
  unfold _select_group_column.
  destruct (common_samples betas t) as [|s common] eqn:Hc; [split; auto |].
  split.
  - destruct (List.find (candidate_ok t (s :: common)) _) as [c|] eqn:Hf.
    + intros ->. apply find_some in Hf as [_ Hok]. done.
    + intros Hscan. right. by apply find_none_iff.
  - intros [|Hall]; [done |].
    destruct (List.find (candidate_ok t (s :: common)) _) as [c|] eqn:Hf.
    + apply find_some in Hf as [_ Hok].
      apply candidate_ok_inv in Hok as (col & -> & Hin & Htwo).
      by rewrite (Hall col Hin) in Htwo.
    + by apply find_none_iff.
Qed.

(** [unique] on strings: the same values, each once. *)
Lemma unique_from_In (seen l : list string) x :
  In x (unique_from String.eqb seen l) ↔ In x l ∧ ¬ In x seen.
Proof.
  revert seen. induction l as [|y l IH]; intros seen; simpl; [tauto |].
  destruct (existsb (String.eqb y) seen) eqn:Hy.
  - apply existsb_eqb_In in Hy.
    rewrite IH. split; [tauto |]. intros [[<-|Hin] Hn]; tauto.
  - apply not_true_iff_false in Hy.
    rewrite existsb_eqb_In in Hy.
    simpl. rewrite IH. simpl. split.
    + intros [<-|(Hin & Hn)]; tauto.
    + intros [[<-|Hin] Hn]; [tauto |].
      destruct (decide (y = x)) as [->|Hne]; [tauto |]. right. tauto.
Qed.

Lemma unique_from_NoDup (seen l : list string) :
  NoDup (unique_from String.eqb seen l).
Proof.
  revert seen. induction l as [|y l IH]; intros seen; simpl; [constructor |].
  destruct (existsb (String.eqb y) seen); [apply IH |].
  apply NoDup_cons_2; [| apply IH].
  rewrite list_elem_of_In, unique_from_In. simpl. tauto.
Qed.

Lemma dropna_In (l : list cell) v : In v (dropna l) ↔ In (Some v) l.
Proof.
  unfold dropna. induction l as [|[x|] l IH]; simpl; [tauto | |].
  - rewrite IH. split; intros [?|?]; auto; left; congruence.
  - rewrite IH. split; [auto | intros [?|?]; [done | auto]].
Qed.

Lemma loc_In t labels col s (c : cell) :
  In (s, c) (loc t labels col)
  ↔ In s labels ∧ In (s, c) (combine (t_index t) (column_cells t col)).
Proof.
  unfold loc. rewrite in_flat_map. split.
  - intros (label & Hlabel & [Hin Heq]%filter_In). simpl in Heq.
    apply String.eqb_eq in Heq as ->. done.
  - intros [Hs Hin]. exists s. split; [done |]. apply filter_In.
    split; [done |]. simpl. apply String.eqb_refl.
Qed.

Lemma common_samples_In betas t s :
  In s (common_samples betas t) ↔ In s (columns betas) ∧ In s (t_index t).
Proof. unfold common_samples. by rewrite filter_In, existsb_eqb_In. Qed.

Lemma common_samples_eq betas t :
  common_samples betas t
  = List.filter (fun s => bool_decide (s ∈ t_index t)) (columns betas).
Proof.
  unfold common_samples. apply List.filter_ext. intros s.
  destruct (existsb (String.eqb s) (t_index t)) eqn:Hs.
  - symmetry. apply bool_decide_eq_true, list_elem_of_In.
    by apply existsb_eqb_In.
  - symmetry. apply bool_decide_eq_false.
    rewrite list_elem_of_In, <- existsb_eqb_In. congruence.
Qed.

(** The values that the code counts are the values of the column for the
    samples present in both tables. *)
Lemma counted_values betas t col v :
  In v (unique String.eqb
          (dropna (map snd (loc t (common_samples betas t) col))))
  ↔ group_value betas t col v.
Proof.
  unfold unique. rewrite unique_from_In, dropna_In, in_map_iff.
  unfold group_value. split.
  - intros [([s c] & Hc & [Hs Hin]%loc_In) _]. simpl in Hc. subst c.
    apply common_samples_In in Hs as [Hs _]. eauto.
  - intros (s & Hs & Hin). split; [| by intros []].
    exists (s, Some v). split; [done |]. apply loc_In. split; [| done].
    apply common_samples_In. split; [done |].
    by apply in_combine_l in Hin.
Qed.

(** The test of the code decides what the specification says. *)
Lemma two_valued_iff betas t col :
  two_valued t (common_samples betas t) col = true
  ↔ exactly_two_values betas t col.
Proof.
  unfold two_valued, exactly_two_values. rewrite Nat.eqb_eq.
  pose proof (counted_values betas t col) as Hv.
  pose proof (unique_from_NoDup []
                (dropna (map snd (loc t (common_samples betas t) col))))
    as Hnd.
  change (unique_from String.eqb [])
    with (@unique string String.eqb) in Hnd.
  set (u := unique String.eqb _) in *. split.
  - intros Hlen. destruct u as [|a [|b [|c u]]]; try done.
    exists a, b. split.
    + intros ->. apply NoDup_cons_1_1 in Hnd. apply Hnd. left.
    + intros v. rewrite <- Hv. simpl. split; [intros [?|[?|[]]] | intros [?|?]];
        auto.
  - intros (a & b & Hne & Hab).
    assert (Permutation u [a; b]) as Hperm.
    { apply NoDup_Permutation.
      - exact Hnd.
      - apply NoDup_cons_2; [| apply NoDup_singleton].
        rewrite list_elem_of_In. intros [?|[]]. congruence.
      - intros v. rewrite !list_elem_of_In, Hv, Hab. simpl.
        split; [intros [?|?] | intros [?|[?|[]]]]; auto. }
    by rewrite (Permutation_length Hperm).
Qed.

Lemma find_first {A} (f : A → bool) (before after : list A) x :
  (∀ y, In y before → f y = false) → f x = true →
  List.find f (before ++ x :: after) = Some x.
Proof.
  induction before as [|y before IH]; intros Hb Hx; simpl.
  - by rewrite Hx.
  - rewrite (Hb y) by (by left). apply IH; [| done].
    intros z Hz. apply Hb. by right.
Qed.

End GroupColumn.

(** C5. [_select_group_column] returns a column of the sample sheet whose
    values, restricted to the samples present in both the beta matrix and
    the sample sheet and missing values left aside, are exactly two distinct
    values.  It tries the mapped genotype column, then the mapped tissue
    column, then the other mapped columns in the order of the mapping, then
    every column of the sheet in order, and returns the first that
    qualifies; it returns no column exactly when no sample is present in
    both tables or no column of the sheet qualifies.
    [differential_analysis] then returns an error payload, as a value: when
    there is no sample sheet, when no column is selected and when fewer
    than 4 samples are matched. *)
Theorem group_column_selection (welch : Analysis.Welch) (betas : Matrix)
    (t : Targets) (cm : pydict string) (fdr_threshold : Q) (top_n : nat) :
  let select := Analysis._select_group_column betas t cm in
  let qualifies := Analysis.exactly_two_values betas t in
  let ok (candidate : option string) :=
    ∃ col, candidate = Some col ∧ col ≠ EmptyString
           ∧ In col (t_columns t) ∧ qualifies col in
  let matched := ∃ s, In s (columns betas) ∧ In s (t_index t) in
  let n_matched :=
    length (List.filter (fun s => bool_decide (s ∈ t_index t))
              (columns betas)) in
  let diff targets :=
    Analysis.differential_analysis welch betas targets cm fdr_threshold top_n in
  (∀ col, select = Some col → In col (t_columns t) ∧ qualifies col)
  ∧ (select = None ↔
     ¬ matched ∨ ∀ col, In col (t_columns t) → ¬ qualifies col)
  ∧ (matched →
     (ok (dict_get cm "genotype") → select = dict_get cm "genotype")
     ∧ (¬ ok (dict_get cm "genotype") → ok (dict_get cm "tissue") →
        select = dict_get cm "tissue")
     ∧ (¬ ok (dict_get cm "genotype") → ¬ ok (dict_get cm "tissue") →
        ∀ before col after,
          dict_values cm = before ++ col :: after →
          (∀ c, In c before → ¬ ok (Some c)) → ok (Some col) →
          select = Some col)
     ∧ (¬ ok (dict_get cm "genotype") → ¬ ok (dict_get cm "tissue") →
        (∀ c, In c (dict_values cm) → ¬ ok (Some c)) →
        ∀ before col after,
          t_columns t = before ++ col :: after →
          (∀ c, In c before → ¬ qualifies c) → qualifies col →
          select = Some col))
  ∧ diff None = error_entry "No targets (samplesheet) provided."
  ∧ (select = None →
     diff (Some t)
     = error_entry
         ("Could not find a suitable two-group column in targets. "
          +:+ "Ensure 'genotype' or 'tissue' is mapped and has exactly 2 unique values."))
  ∧ (is_Some select → n_matched < 4 →
     diff (Some t)
     = error_entry ("Too few matched samples (" +:+ str_of_nat n_matched
                    +:+ ") for differential analysis.")).
Proof.
  intros select qualifies ok matched n_matched diff.
  set (common := Analysis.common_samples betas t).
  assert (∀ c, Analysis.candidate_ok t common c = true ↔ ok c) as Hok.
  { intros c. unfold Analysis.candidate_ok, ok. destruct c as [col|].
    - rewrite !andb_true_iff, negb_true_iff, String.eqb_neq, existsb_eqb_In.
      unfold common. rewrite two_valued_iff. split.
      + intros [[? ?] ?]. by exists col.
      + intros (col' & [= <-] & ? & ? & ?). done.
    - split; [done | by intros (? & [=] & _)]. }
  assert (∀ c, ¬ ok c → Analysis.candidate_ok t common c = false) as Hnok.
  { intros c Hc. destruct (Analysis.candidate_ok t common c) eqn:E; [| done].
    by apply Hok in E. }
  assert (∀ col, ¬ qualifies col → Analysis.two_valued t common col = false)
    as Hnq.
  { intros col Hc. destruct (Analysis.two_valued t common col) eqn:E; [| done].
    by apply two_valued_iff in E. }
  assert (common = [] ↔ ¬ matched) as Hcommon.
  { split.
    - intros Hc (s & Hs & Hi).
      assert (In s common) as Hin by (by apply common_samples_In).
      by rewrite Hc in Hin.
    - intros Hn. destruct common as [|s c] eqn:E; [done |]. destruct Hn.
      exists s. apply common_samples_In. fold common. rewrite E. by left. }
  split_and!.
  - intros col Hsel.
    destruct (select_group_column_sound betas t cm col Hsel) as (_ & ? & ?).
    split; [done |]. by apply two_valued_iff.
  - subst select. rewrite select_group_column_none. fold common.
    rewrite Hcommon. split; (intros [?|Hall]; [by left | right]).
    + intros col Hin Hq. apply two_valued_iff in Hq. fold common in Hq.
      by rewrite (Hall col Hin) in Hq.
    + intros col Hin. apply Hnq. by apply Hall.
  - intros Hm. subst select. unfold Analysis._select_group_column.
    fold common.
    destruct common as [|s common'] eqn:Ecommon; [by apply Hcommon in Hm |].
    rewrite <- Ecommon in *. clear Ecommon. cbn [app List.find].
    split_and!.
    + intros Hg. by rewrite (proj2 (Hok _) Hg).
    + intros Hg Ht. by rewrite (Hnok _ Hg), (proj2 (Hok _) Ht).
    + intros Hg Ht before col after Hvalues Hbefore Hcol.
      rewrite (Hnok _ Hg), (Hnok _ Ht), Hvalues, map_app. cbn [map].
      rewrite (find_first _ (map Some before) (map Some after) (Some col));
        [done | | by apply Hok].
      intros c [c' [<- Hc']]%in_map_iff. apply Hnok. by apply Hbefore.
    + intros Hg Ht Hvalues before col after Hcolumns Hbefore Hcol.
      rewrite (Hnok _ Hg), (Hnok _ Ht).
      rewrite (proj2 (find_none_iff _ (map Some (dict_values cm)))).
      * rewrite Hcolumns. apply find_first; [| by apply two_valued_iff].
        intros c Hc. apply Hnq. by apply Hbefore.
      * intros c [c' [<- Hc']]%in_map_iff. apply Hnok. by apply Hvalues.
  - done.
  - intros Hsel. subst diff select. simpl. by rewrite Hsel.
  - intros [col Hsel] Hlen. subst diff select n_matched. simpl.
    rewrite Hsel. rewrite <- common_samples_eq in *. fold common in Hlen |- *.
    apply Nat.ltb_lt in Hlen. by rewrite Hlen.
Qed.

Lemma group_column_selection_witness :
  let t := {| t_index := ["s1"; "s2"; "s3"; "s5"];
              t_data := [ ("Tissue", [Some "liver"; Some "liver"; Some "liver";
                                      Some "brain"]);
                          ("Genotype", [Some "wt"; Some "ko"; Some "wt";
                                        Some "het"]) ] |} in
  let betas := {| index := ["cg01"]; columns := ["s1"; "s2"; "s3"; "s4"];
                  cells := [] |} in
  In "Genotype" (t_columns t)
  ∧ Analysis.exactly_two_values betas t "Genotype".
Proof.
  intros t betas.
  exact (proj1 (group_column_selection (fun _ _ _ _ => []) betas t
                  [("tissue", "Tissue")] (1 # 20) 200) "Genotype" eq_refl).
Defined.

(** ** Principal component analysis *)

Lemma matched_samples_length na_text betas targets :
  length (Analysis.matched_samples na_text betas targets)
  ≤ length (columns betas).
Proof.
  unfold Analysis.matched_samples.
  destruct (List.filter _ (columns betas)) as [|s l] eqn:Hf; [done |].
  rewrite <- Hf. apply filter_length_le.
Qed.

(** C6, as amended.  The number of top-variance probes that [perform_pca]
    reports is [min(n_top_cpgs, probe count)], with [n_top_cpgs] defaulting
    to 10000, so it never exceeds the probe count; the number of retained
    components never exceeds 10, nor the number of included samples, nor
    the number of selected probes. *)
Theorem pca_counts (na_text : option string) (n_top_cpgs : Z)
    (betas : Matrix) (targets : option Targets) :
  let probes := Z.of_nat (length (index betas)) in
  let samples := length (Analysis.matched_samples na_text betas targets) in
  Analysis._DEFAULT_N_TOP_CPGS = 10000%Z
  ∧ Analysis.actual_top n_top_cpgs betas = Z.min n_top_cpgs probes
  ∧ (Analysis.actual_top n_top_cpgs betas <= probes)%Z
  ∧ Analysis.n_features n_top_cpgs betas ≤ length (index betas)
  ∧ Analysis.n_components na_text n_top_cpgs betas targets ≤ 10
  ∧ Analysis.n_components na_text n_top_cpgs betas targets ≤ samples
  ∧ Analysis.n_components na_text n_top_cpgs betas targets
    ≤ Analysis.n_features n_top_cpgs betas
  ∧ samples ≤ length (columns betas)
  ∧ Analysis.perform_pca_counts na_text n_top_cpgs betas targets
    = [ ("n_components",
         VInt (Z.of_nat
                 (Analysis.n_components na_text n_top_cpgs betas targets)));
        ("n_top_cpgs_used", VInt (Z.min n_top_cpgs probes)) ].
Proof.
  intros probes samples.
  unfold Analysis.n_components, Analysis.pca_columns, Analysis.n_features,
    Analysis.actual_top.
  split_and!; try done; try lia.
  apply matched_samples_length.
Qed.

(** C6 as stated fails for 3 samples and 5 probes: scikit-learn keeps
    min(3, 5) = 3 components, one more than the number of samples minus 1. *)
Lemma pca_components_counterexample :
  let betas := {| index := ["cg1"; "cg2"; "cg3"; "cg4"; "cg5"];
                  columns := ["s1"; "s2"; "s3"];
                  cells := [] |} in
  length (Analysis.matched_samples (Some "nan") betas None) = 3
  ∧ Analysis.n_components (Some "nan") Analysis._DEFAULT_N_TOP_CPGS betas None
    = 3
  ∧ ¬ (Analysis.n_components (Some "nan") Analysis._DEFAULT_N_TOP_CPGS betas
         None
       ≤ length (Analysis.matched_samples (Some "nan") betas None) - 1).
Proof. split_and!; [reflexivity | reflexivity | vm_compute; lia]. Qed.

(** ** Volcano plot *)

Section Volcano.
Import Analysis.
Implicit Types (row d : payload) (rows dmps : list payload)
  (q fc : option Q).

(** The three colours are the three tiers of the legend. *)
Lemma colour_cases rows fc_threshold fdr_threshold row q fc :
  row_float rows row "fdr" = Ret q → row_float rows row "log2_fc" = Ret fc →
  let significant := ∃ x, q = Some x ∧ (x < fdr_threshold)%Q in
  let large := ∃ x, fc = Some x ∧ (fc_threshold <= Qabs x)%Q in
  (_colour rows fc_threshold fdr_threshold row = Ret RED
   ∧ significant ∧ large)
  ∨ (_colour rows fc_threshold fdr_threshold row = Ret BLUE
     ∧ significant ∧ ¬ large)
  ∨ (_colour rows fc_threshold fdr_threshold row = Ret GREY
     ∧ ¬ significant).
Proof.
  intros Hq Hfc significant large. subst significant large.
  unfold _colour, mbind, Exc_bind. rewrite Hq.
  destruct q as [x|]; simpl.
  - destruct (Qlt_bool x fdr_threshold) eqn:Hlt.
    + apply Qlt_bool_iff in Hlt. rewrite Hfc. destruct fc as [y|]; simpl.
      * destruct (Qle_bool fc_threshold (Qabs y)) eqn:Hle.
        -- left. apply Qle_bool_iff in Hle.
           split_and!; [done | by exists x | by exists y].
        -- right; left. split_and!; [done | by exists x |].
           intros (y' & [= <-] & Hle'%Qle_bool_iff). congruence.
      * right; left. split_and!; [done | by exists x |].
        by intros (? & [=] & _).
    + right; right. split; [done |].
      intros (x' & [= <-] & Hlt'%Qlt_bool_iff). congruence.
  - right; right. split; [done |]. by intros (? & [=] & _).
Qed.

Lemma colour_is_tier rows fc_threshold fdr_threshold row c :
  _colour rows fc_threshold fdr_threshold row = Ret c →
  c = RED ∨ c = BLUE ∨ c = GREY.
Proof.
  unfold _colour, mbind, Exc_bind.
  destruct (row_float rows row "fdr") as [|q]; [done |].
  destruct (from_option _ _ q); [| intros [= <-]; auto].
  destruct (row_float rows row "log2_fc") as [|fc]; [done |].
  destruct (from_option _ _ fc); intros [= <-]; auto.
Qed.

Lemma volcano_mkdir_fails fig welch betas targets x cm step pd fc_thr fdr_thr
    msg :
  fig_mkdir fig pd = Some msg →
  create_volcano_plot fig welch betas targets x cm step pd fc_thr fdr_thr
  = Raise msg.
Proof. unfold create_volcano_plot. by intros ->. Qed.

Lemma volcano_error fig welch betas targets d cm step pd fc_thr fdr_thr :
  fig_mkdir fig pd = None → dict_has d "error" = true →
  create_volcano_plot fig welch betas targets (Some d) cm step pd fc_thr
    fdr_thr
  = Ret d.
Proof. unfold create_volcano_plot. by intros -> ->. Qed.

(** Past the directory, the error key and the empty table: the colours, the
    two columns, the figure. *)
Lemma volcano_body fig welch betas targets d cm step pd fc_thr fdr_thr dmps :
  fig_mkdir fig pd = None → dict_has d "error" = false →
  top_dmps_rows d = Some dmps → empty dmps = false →
  create_volcano_plot fig welch betas targets (Some d) cm step pd fc_thr
    fdr_thr
  = (colours ← mapM (_colour dmps fc_thr fdr_thr) dmps;
     _ ← column dmps "p_value";
     _ ← from_option Raise (Ret tt) (fig_subplots fig);
     _ ← column dmps "log2_fc";
     _ ← from_option Raise (Ret tt)
           (fig_draw fig dmps colours (pd +:+ "/" +:+ step +:+ ".png"));
     Ret [ ("comparison",
            default (VStr EmptyString) (dict_get d "comparison"));
           ("n_highlighted_dmps", VInt (Z.of_nat (count_colour RED colours)));
           ("fc_threshold", VFloat fc_thr);
           ("fdr_threshold", VFloat fdr_thr);
           ("plots",
            VDict [("volcano", VStr (pd +:+ "/" +:+ step +:+ ".png"))]) ]).
Proof. unfold create_volcano_plot. by intros -> -> -> ->. Qed.

Lemma volcano_payload fig welch betas targets d cm step pd fc_thr fdr_thr
    dmps colours :
  fig_mkdir fig pd = None → dict_has d "error" = false →
  top_dmps_rows d = Some dmps → empty dmps = false →
  mapM (_colour dmps fc_thr fdr_thr) dmps = Ret colours →
  has_column dmps "p_value" = true → has_column dmps "log2_fc" = true →
  fig_subplots fig = None →
  fig_draw fig dmps colours (pd +:+ "/" +:+ step +:+ ".png") = None →
  create_volcano_plot fig welch betas targets (Some d) cm step pd fc_thr
    fdr_thr
  = Ret [ ("comparison", default (VStr EmptyString) (dict_get d "comparison"));
          ("n_highlighted_dmps", VInt (Z.of_nat (count_colour RED colours)));
          ("fc_threshold", VFloat fc_thr);
          ("fdr_threshold", VFloat fdr_thr);
          ("plots", VDict [("volcano", VStr (pd +:+ "/" +:+ step +:+ ".png"))]) ].
Proof.
  intros Hdir Herr Hrows Hempty Hc Hp Hfc Hsub Hdraw.
  rewrite (volcano_body _ _ _ _ _ _ _ _ _ _ dmps) by done.
  unfold column. rewrite Hc, Hp, Hfc, Hsub. simpl. by rewrite Hdraw.
Qed.

Lemma volcano_no_p_value fig welch betas targets d cm step pd fc_thr fdr_thr
    dmps colours :
  fig_mkdir fig pd = None → dict_has d "error" = false →
  top_dmps_rows d = Some dmps → empty dmps = false →
  mapM (_colour dmps fc_thr fdr_thr) dmps = Ret colours →
  has_column dmps "p_value" = false →
  create_volcano_plot fig welch betas targets (Some d) cm step pd fc_thr
    fdr_thr
  = Raise "'p_value'".
Proof.
  intros Hdir Herr Hrows Hempty Hc Hp.
  rewrite (volcano_body _ _ _ _ _ _ _ _ _ _ dmps) by done.
  unfold column. by rewrite Hc, Hp.
Qed.

End Volcano.

(** C9, as amended.  [create_volcano_plot] first creates the plot
    directory, and raises if that raises.  It gives every row of the
    consumed differential-analysis result exactly one of three colours: red
    ("significant & large effect") when FDR < threshold and |fold change| >=
    threshold, blue ("significant only") when only FDR < threshold, grey
    ("not significant") otherwise, a comparison with a missing number being
    false.  When the table has the columns that are read and matplotlib
    does not raise, its payload holds the number of red rows,
    [n_highlighted_dmps], and no count for the other two tiers; without a
    "p_value" column it raises [KeyError].  A result carrying an "error" key
    is returned unchanged.  Without a result to consume it computes one with
    [differential_analysis]; given one, it does not consult the t-test at
    all, and the orchestrator hands it the ledger entry of
    [differential_analysis] whenever the ledger has one; for an error entry
    the stage stores the same error, with an empty list of plot files. *)
Theorem volcano_tiers_and_reuse (fig : Analysis.Figure)
    (welch : Analysis.Welch) (betas : Matrix)
    (targets : option Targets) (cm : pydict string) (step pd : string)
    (fc_thr fdr_thr : Q) :
  let volcano diff_results :=
    Analysis.create_volcano_plot fig welch betas targets diff_results cm step
      pd fc_thr fdr_thr in
  (∀ rows row q fc,
     Analysis.row_float rows row "fdr" = Ret q →
     Analysis.row_float rows row "log2_fc" = Ret fc →
     let significant := ∃ x, q = Some x ∧ (x < fdr_thr)%Q in
     let large := ∃ x, fc = Some x ∧ (fc_thr <= Qabs x)%Q in
     (Analysis._colour rows fc_thr fdr_thr row = Ret Analysis.RED
      ∧ significant ∧ large)
     ∨ (Analysis._colour rows fc_thr fdr_thr row = Ret Analysis.BLUE
        ∧ significant ∧ ¬ large)
     ∨ (Analysis._colour rows fc_thr fdr_thr row = Ret Analysis.GREY
        ∧ ¬ significant))
  ∧ (∀ rows row c,
       Analysis._colour rows fc_thr fdr_thr row = Ret c →
       c = Analysis.RED ∨ c = Analysis.BLUE ∨ c = Analysis.GREY)
  ∧ (Analysis.RED ≠ Analysis.BLUE ∧ Analysis.RED ≠ Analysis.GREY
     ∧ Analysis.BLUE ≠ Analysis.GREY)
  ∧ (∀ d dmps colours,
       Analysis.fig_mkdir fig pd = None →
       dict_has d "error" = false →
       Analysis.top_dmps_rows d = Some dmps →
       Analysis.empty dmps = false →
       mapM (Analysis._colour dmps fc_thr fdr_thr) dmps = Ret colours →
       Analysis.has_column dmps "p_value" = true →
       Analysis.has_column dmps "log2_fc" = true →
       Analysis.fig_subplots fig = None →
       Analysis.fig_draw fig dmps colours (pd +:+ "/" +:+ step +:+ ".png")
       = None →
       volcano (Some d)
       = Ret [ ("comparison", default (VStr EmptyString) (dict_get d "comparison"));
               ("n_highlighted_dmps",
                VInt (Z.of_nat (Analysis.count_colour Analysis.RED colours)));
               ("fc_threshold", VFloat fc_thr);
               ("fdr_threshold", VFloat fdr_thr);
               ("plots",
                VDict [("volcano", VStr (pd +:+ "/" +:+ step +:+ ".png"))]) ])
  ∧ (∀ d dmps colours,
       Analysis.fig_mkdir fig pd = None →
       dict_has d "error" = false →
       Analysis.top_dmps_rows d = Some dmps →
       Analysis.empty dmps = false →
       mapM (Analysis._colour dmps fc_thr fdr_thr) dmps = Ret colours →
       Analysis.has_column dmps "p_value" = false →
       volcano (Some d) = Raise "'p_value'")
  ∧ (∀ d, Analysis.fig_mkdir fig pd = None → dict_has d "error" = true →
          volcano (Some d) = Ret d)
  ∧ (∀ x msg, Analysis.fig_mkdir fig pd = Some msg → volcano x = Raise msg)
  ∧ volcano None
    = volcano (Some (Analysis.differential_analysis welch betas targets cm
                       (1 # 20) 200))
  ∧ (∀ welch' d,
       volcano (Some d)
       = Analysis.create_volcano_plot fig welch' betas targets (Some d) cm
           step pd fc_thr fdr_thr)
  ∧ (∀ m h welch' plots_dir idx st b d,
       Core.current_betas st = Some b →
       dict_get (Core.results st) "differential_analysis" = Some d →
       Core.try_body m (Core.with_engine fig welch h) plots_dir idx
         "create_volcano_plot" st
       = (res ← Analysis.create_volcano_plot fig welch' b
                  (Core.current_targets st) (Some d) (Core.column_mappings m)
                  "volcano" plots_dir 1 (1 # 20);
          entry ← Core.with_plot_files res;
          Ret (Core.set_result st "create_volcano_plot" entry)))
  ∧ (∀ m h plots_dir idx st b msg,
       Analysis.fig_mkdir fig plots_dir = None →
       Core.current_betas st = Some b →
       dict_get (Core.results st) "differential_analysis"
       = Some (error_entry msg) →
       Core.results
         (Core.run_stage m (Core.with_engine fig welch h) plots_dir idx
            "create_volcano_plot" st)
       = dict_set (Core.results st) "create_volcano_plot"
           [("error", VStr msg); ("plot_files", VList [])]).
Proof.
  intros volcano. split_and!.
  - intros rows row q fc Hq Hfc. by apply colour_cases.
  - intros rows row c. apply colour_is_tier.
  - done.
  - done.
  - done.
  - intros. by eapply volcano_payload.
  - intros. by eapply volcano_no_p_value.
  - intros. by apply volcano_error.
  - intros. by apply volcano_mkdir_fails.
  - subst volcano. unfold Analysis.create_volcano_plot. reflexivity.
  - intros welch' d. subst volcano. unfold Analysis.create_volcano_plot.
    reflexivity.
  - intros m h welch' plots_dir idx st b d Hb Hd.
    unfold Core.try_body. simpl. rewrite Hb, Hd.
    unfold Analysis.create_volcano_plot. reflexivity.
  - intros m h plots_dir idx st b msg Hdir Hb Hd.
    unfold Core.run_stage, Core.try_body. simpl. rewrite Hb, Hd.
    unfold Analysis.create_volcano_plot. by rewrite Hdir.
Qed.

Lemma volcano_tiers_and_reuse_witness :
  Analysis.create_volcano_plot Sample.figure (fun _ _ _ _ => [])
    {| index := []; columns := []; cells := [] |} None
    (Some (error_entry "Too few matched samples (2) for differential analysis."))
    [] "volcano" "plots" 1 (1 # 20)
  = Ret (error_entry "Too few matched samples (2) for differential analysis.").
Proof.
  destruct (volcano_tiers_and_reuse Sample.figure (fun _ _ _ _ => [])
              {| index := []; columns := []; cells := [] |} None [] "volcano"
              "plots" 1 (1 # 20)) as (_ & _ & _ & _ & _ & Herror & _).
  exact (Herror
           (error_entry "Too few matched samples (2) for differential analysis.")
           eq_refl eq_refl).
Defined.

(** C9 as stated fails: the payload has no count for the tiers "significant
    only" and "not significant".  Two results whose single probe falls in
    the one and in the other tier give the same payload. *)
Lemma volcano_counts_counterexample :
  let row q : payload :=
    [ ("probe", VStr "cg01"); ("log2_fc", VFloat (1 # 2));
      ("t_stat", VFloat 3); ("p_value", VFloat (1 # 1000));
      ("fdr", VFloat q) ] in
  let result q : payload :=
    [ ("comparison", VStr "wt vs ko"); ("top_dmps", VList [VDict (row q)]) ] in
  let volcano d :=
    Analysis.create_volcano_plot Sample.figure (fun _ _ _ _ => [])
      {| index := ["cg01"]; columns := []; cells := [] |} None (Some d) []
      "volcano" "plots" 1 (1 # 20) in
  Analysis.top_dmps_rows (result (1 # 100)) = Some [row (1 # 100)]
  ∧ Analysis.top_dmps_rows (result (1 # 2)) = Some [row (1 # 2)]
  ∧ mapM (Analysis._colour [row (1 # 100)] 1 (1 # 20)) [row (1 # 100)]
    = Ret [Analysis.BLUE]
  ∧ mapM (Analysis._colour [row (1 # 2)] 1 (1 # 20)) [row (1 # 2)]
    = Ret [Analysis.GREY]
  ∧ volcano (result (1 # 100)) = volcano (result (1 # 2))
  ∧ volcano (result (1 # 100))
    = Ret [ ("comparison", VStr "wt vs ko");
            ("n_highlighted_dmps", VInt 0);
            ("fc_threshold", VFloat 1);
            ("fdr_threshold", VFloat (1 # 20));
            ("plots", VDict [("volcano", VStr "plots/volcano.png")]) ].
Proof. by split_and!. Qed.

(** ** M-values *)

Section MValues.
Local Open Scope R_scope.
Implicit Types (beta x : R).

Lemma np_clip_bounds x lo hi : lo <= hi → lo <= np_clip x lo hi <= hi.
Proof.
  intros Hle. unfold np_clip, Rmin, Rmax.
  repeat (destruct (Rle_dec _ _)); Lra.lra.
Qed.

Lemma np_clip_inside x lo hi : lo <= x <= hi → np_clip x lo hi = x.
Proof.
  intros Hx. unfold np_clip, Rmin, Rmax.
  repeat (destruct (Rle_dec _ _)); Lra.lra.
Qed.

(** The logarithm of a positive quotient with a non-zero denominator is a
    number. *)
Lemma log2_div_finite a b :
  0 < a → 0 < b → np_log2 (np_div a b) = Finite (ln (a / b) / ln 2).
Proof.
  intros Ha Hb. unfold np_div.
  destruct (Req_EM_T b 0); [Lra.lra |]. simpl.
  destruct (Rlt_dec 0 (a / b)) as [|Hn]; [done |].
  destruct Hn. by apply Rdiv_lt_0_compat.
Qed.

Lemma beta_to_m_values_finite beta :
  let c := np_clip beta (1 / 1000) (999 / 1000) in
  Preprocessing._beta_to_m_values beta = Finite (ln (c / (1 - c)) / ln 2).
Proof.
  intros c. unfold Preprocessing._beta_to_m_values. fold c.
  assert (1 / 1000 <= c <= 999 / 1000) by (apply np_clip_bounds; Lra.lra).
  apply log2_div_finite; Lra.lra.
Qed.

Lemma Rpower_2_log2 x : 0 < x → Rpower 2 (ln x / ln 2) = x.
Proof.
  intros Hx. unfold Rpower.
  replace (ln x / ln 2 * ln 2) with (ln x).
  - by apply exp_ln.
  - pose proof ln_lt_2. field. Lra.lra.
Qed.

(** The M-value of an odds of at most 999 is far below 1024. *)
Lemma log2_lt_1024 x : 0 < x → x <= 999 → ln x / ln 2 < 1024.
Proof.
  intros Hpos Hx.
  assert (ln x < 512) as Hln.
  { rewrite <- (ln_exp 512). apply ln_increasing; [done |].
    replace 512 with (256 + 256) by Lra.lra. rewrite exp_plus.
    assert (257 < exp 256) as H256.
    { pose proof (exp_ineq1 256). Lra.lra. }
    Lra.nra. }
  pose proof ln_lt_2 as H2.
  apply (Rmult_lt_reg_r (ln 2)); [Lra.lra |].
  replace (ln x / ln 2 * ln 2) with (ln x) by (field; Lra.lra). Lra.lra.
Qed.

Lemma m_values_to_beta_range m :
  m < 1024 →
  ∃ b, Preprocessing._m_values_to_beta (Finite m) = Finite b ∧ 0 <= b <= 1.
Proof.
  intros Hm. simpl. destruct (Rle_dec 1024 m); [Lra.lra |].
  eexists. split; [done |]. apply np_clip_bounds. Lra.lra.
Qed.

Lemma m_values_to_beta_overflow m :
  1024 <= m → Preprocessing._m_values_to_beta (Finite m) = NaN.
Proof. intros Hm. simpl. by destruct (Rle_dec 1024 m). Qed.

(** Over the reals the round trip is the clipping of [_beta_to_m_values]. *)
Lemma round_trip_is_clip beta :
  Preprocessing._m_values_to_beta (Preprocessing._beta_to_m_values beta)
  = Finite (np_clip beta (1 / 1000) (999 / 1000)).
Proof.
  rewrite beta_to_m_values_finite. simpl.
  set (c := np_clip beta (1 / 1000) (999 / 1000)).
  assert (1 / 1000 <= c <= 999 / 1000) as Hc by (apply np_clip_bounds; Lra.lra).
  assert (0 < c / (1 - c)) as Hpos by (apply Rdiv_lt_0_compat; Lra.lra).
  destruct (Rle_dec 1024 (ln (c / (1 - c)) / ln 2)) as [Hbig|_].
  { exfalso. apply (Rlt_irrefl 1024). eapply Rle_lt_trans; [exact Hbig |].
    apply log2_lt_1024; [done |].
    apply (Rmult_le_reg_r (1 - c)); [Lra.lra |].
    replace (c / (1 - c) * (1 - c)) with c by (field; Lra.lra). Lra.lra. }
  rewrite (Rpower_2_log2 _ Hpos).
  replace (c / (1 - c) / (1 + c / (1 - c))) with c by (field; Lra.lra).
  f_equal. apply np_clip_inside. Lra.lra.
Qed.

Lemma pca_m_value_zero : Analysis.pca_m_value 0 = NegInf.
Proof.
  unfold Analysis.pca_m_value, np_div.
  destruct (Req_EM_T (1 - 0 + 1 / 1000000) 0); [Lra.lra |]. simpl.
  replace (0 / (1 - 0 + 1 / 1000000)) with 0 by (field; Lra.lra).
  destruct (Rlt_dec 0 0); [Lra.lra |].
  by destruct (Req_EM_T 0 0).
Qed.

Lemma pca_m_value_finite beta :
  0 < beta <= 1 → ∃ m, Analysis.pca_m_value beta = Finite m.
Proof.
  intros Hb. unfold Analysis.pca_m_value. eexists.
  apply log2_div_finite; Lra.lra.
Qed.

Lemma diff_m_value_finite beta : ∃ m, Analysis.diff_m_value beta = Finite m.
Proof.
  unfold Analysis.diff_m_value. eexists.
  assert (1 / 1000 <= np_clip beta (1 / 1000) (999 / 1000) <= 999 / 1000)
    by (apply np_clip_bounds; Lra.lra).
  apply log2_div_finite; Lra.lra.
Qed.

End MValues.

(** C7, as amended.  The beta-to-M transform followed by the M-to-beta
    transform returns the beta value clipped to [0.001, 0.999]: it
    reproduces every beta value in [0.001, 0.999] (exactly over the reals),
    and the result lies in [0, 1].  The M-to-beta transform on its own
    returns a number in [0, 1] for every M-value below 1024; from 1024 on,
    where [2**m] overflows, and for an infinite or undefined M-value other
    than minus infinity, it returns NaN, which the clipping leaves as it
    is. *)
Theorem beta_m_round_trip (beta : R) :
  Preprocessing._m_values_to_beta (Preprocessing._beta_to_m_values beta)
  = Finite (np_clip beta (1 / 1000) (999 / 1000))
  ∧ (0 <= np_clip beta (1 / 1000) (999 / 1000) <= 1)%R
  ∧ ((1 / 1000 <= beta <= 999 / 1000)%R →
     Preprocessing._m_values_to_beta (Preprocessing._beta_to_m_values beta)
     = Finite beta)
  ∧ (∀ m, (m < 1024)%R →
          ∃ b, Preprocessing._m_values_to_beta (Finite m) = Finite b
               ∧ (0 <= b <= 1)%R)
  ∧ (∀ m, (1024 <= m)%R → Preprocessing._m_values_to_beta (Finite m) = NaN)
  ∧ Preprocessing._m_values_to_beta PosInf = NaN
  ∧ Preprocessing._m_values_to_beta NaN = NaN
  ∧ Preprocessing._m_values_to_beta NegInf = Finite 0.
Proof.
  split_and!; try reflexivity.
  - apply round_trip_is_clip.
  - pose proof (np_clip_bounds beta (1 / 1000) (999 / 1000)). Lra.lra.
  - pose proof (np_clip_bounds beta (1 / 1000) (999 / 1000)). Lra.lra.
  - intros Hb. rewrite round_trip_is_clip. f_equal. by apply np_clip_inside.
  - apply m_values_to_beta_range.
  - apply m_values_to_beta_overflow.
Qed.

Lemma beta_m_round_trip_witness :
  Preprocessing._m_values_to_beta (Preprocessing._beta_to_m_values (1 / 2))
  = Finite (1 / 2)%R.
Proof.
  apply (proj1 (proj2 (proj2 (beta_m_round_trip (1 / 2))))). Lra.lra.
Defined.

(** C7 as stated fails at beta = 0.0005, strictly inside (0, 1): the round
    trip returns 0.001, twice the original value.  And the output of the
    inverse transform is not always in [0, 1]: at the M-value 1024 it is
    NaN. *)
Lemma beta_m_round_trip_counterexample :
  (0 < 1 / 2000 < 1)%R
  ∧ Preprocessing._m_values_to_beta
      (Preprocessing._beta_to_m_values (1 / 2000))
    = Finite (1 / 1000)%R
  ∧ (1 / 1000 - 1 / 2000 = 1 / 2000)%R
  ∧ Preprocessing._m_values_to_beta (Finite 1024) = NaN.
Proof.
  split; [Lra.lra |]. split; [| split; [Lra.lra |]].
  - rewrite round_trip_is_clip. f_equal.
    unfold np_clip, Rmin, Rmax. repeat (destruct (Rle_dec _ _)); Lra.lra.
  - apply m_values_to_beta_overflow. Lra.lra.
Qed.

(** C8 fails in [perform_pca]: it does not clip, it adds 1e-6 to the
    denominator, and for beta = 0 it takes the logarithm of zero, which is
    minus infinity.  (For 0 < beta <= 1 its M-value is a number, and so it is
    for every beta at the two sites that clip to [0.001, 0.999].) *)
Theorem pca_m_value_not_finite_at_zero :
  Analysis.pca_m_value 0 = NegInf
  ∧ (∀ beta, ∃ m, Analysis.diff_m_value beta = Finite m)
  ∧ (∀ beta, ∃ m, Preprocessing._beta_to_m_values beta = Finite m)
  ∧ (∀ beta, (0 < beta <= 1)%R → ∃ m, Analysis.pca_m_value beta = Finite m).
Proof.
  split; [| split; [| split]].
  - apply pca_m_value_zero.
  - apply diff_m_value_finite.
  - intros beta. eexists. apply beta_to_m_values_finite.
  - apply pca_m_value_finite.
Qed.

(** * Further properties of the code *)

(** ** The ledger holds exactly the requested stages of the vocabulary *)

Section ExactKeys.
Import Core.
Variable m : MoIRA.
Variable h : Handlers.
Implicit Types (st : State) (step raw : string) (steps : list string).

Lemma is_known_iff step : is_known step = true ↔ step ∈ KNOWN_STEPS.
Proof.
  unfold is_known. rewrite existsb_eqb_In. symmetry. apply list_elem_of_In.
Qed.

Lemma run_steps_keys_exact pd total idx steps st seen :
  (∀ x, existsb (String.eqb x) seen = true ↔ x ∈ dict_keys (results st)) →
  dict_keys
    (results (snd (run_steps (W := unit) m h None pd total idx steps tt st)))
  = dict_keys (results st)
    ++ Analysis.unique_from String.eqb seen
         (List.filter is_known (map normalize steps)).
Proof.
  revert idx st seen.
  induction steps as [|raw steps IH]; intros idx st seen Hseen; simpl.
  - by rewrite app_nil_r.
  - destruct (run_stage_cases m h pd idx (normalize raw) st)
      as [[Hunk Heq]|[Hkn [v Heq]]].
    + rewrite Heq.
      destruct (is_known (normalize raw)) eqn:Hk;
        [by apply is_known_iff in Hk |].
      by apply IH.
    + rewrite (proj2 (is_known_iff _) Hkn). simpl.
      destruct (existsb (String.eqb (normalize raw)) seen) eqn:Hex.
      * (* the key is already there: assignment keeps the keys *)
        assert (dict_has (results st) (normalize raw) = true) as Hh.
        { destruct (dict_has _ _) eqn:E; [done |].
          apply dict_has_keys in E. by apply Hseen in Hex. }
        rewrite (IH (S idx) _ seen); [by rewrite Heq, dict_keys_set, Hh |].
        intros x. by rewrite Heq, dict_keys_set, Hh.
      * (* a new key goes last *)
        assert (dict_has (results st) (normalize raw) = false) as Hh.
        { apply dict_has_keys. intros Hin%Hseen. congruence. }
        rewrite (IH (S idx) _ (normalize raw :: seen)).
        -- by rewrite Heq, dict_keys_set, Hh, <- app_assoc.
        -- intros x. rewrite Heq, dict_keys_set, Hh. simpl.
           rewrite orb_true_iff, elem_of_app, list_elem_of_singleton, Hseen.
           rewrite String.eqb_eq. tauto.
Qed.

End ExactKeys.

Lemma unique_from_elem (seen l : list string) x :
  x ∈ l → existsb (String.eqb x) seen = false →
  x ∈ Analysis.unique_from String.eqb seen l.
Proof.
  revert seen. induction l as [|y l IH]; intros seen Hx Hs;
    [by apply elem_of_nil in Hx |].
  simpl. destruct (existsb (String.eqb y) seen) eqn:Hy.
  - apply elem_of_cons in Hx as [->|Hx]; [congruence | by apply IH].
  - destruct (decide (x = y)) as [->|Hne]; [by left |].
    right. apply elem_of_cons in Hx as [?|Hx]; [done |].
    apply IH; [done |]. simpl. rewrite Hs.
    by apply orb_false_iff, conj; [apply String.eqb_neq |].
Qed.

Lemma returned_ledger {W} (m : Core.MoIRA) (h : Core.Handlers) steps
    (cb : option (string → nat → nat → W → W)) (w w' : W) (l : ledger) :
  Core.run_workflow m h steps cb w = (w', Ret l) →
  l = Core.results (Core.state_after m h steps (length steps)).
Proof.
  intros Hret. pose proof (run_workflow_returns m h cb steps w) as Hsnd.
  rewrite Hret in Hsnd. simpl in Hsnd.
  destruct (Core.make_plots_dir h _); [done |].
  destruct (Core.write_summary _ _ _ _); by simplify_eq.
Qed.

Lemma final_keys_exact (m : Core.MoIRA) (h : Core.Handlers) steps :
  dict_keys (Core.results (Core.state_after m h steps (length steps)))
  = Analysis.unique String.eqb
      (List.filter Core.is_known (map Core.normalize steps)).
Proof.
  unfold Core.state_after. rewrite firstn_all.
  rewrite (run_steps_keys_exact m h _ _ _ _ _ []); [done |].
  intros x. simpl. split; [done | by intros ?%elem_of_nil].
Qed.

(** X1. The keys of the ledger that [run_workflow] returns are exactly the
    requested names that normalize into the vocabulary, normalized, each
    once, in the order of their first request; so every requested stage of
    the vocabulary has an entry, a result or an error. *)
Theorem ledger_has_every_known_stage {W} (m : Core.MoIRA)
    (h : Core.Handlers) (steps : list string)
    (cb : option (string → nat → nat → W → W)) (w w' : W) (l : ledger)
    (Hret : Core.run_workflow m h steps cb w = (w', Ret l)) :
  dict_keys l
  = Analysis.unique String.eqb
      (List.filter Core.is_known (map Core.normalize steps))
  ∧ (∀ raw, raw ∈ steps → Core.normalize raw ∈ Core.KNOWN_STEPS →
            is_Some (dict_get l (Core.normalize raw))).
Proof.
  rewrite (returned_ledger m h steps cb w w' l Hret).
  split; [apply final_keys_exact |].
  intros raw Hin Hkn.
  destruct (dict_get _ (Core.normalize raw)) eqn:Hg; [by eexists |].
  apply dict_get_None_keys in Hg. destruct Hg. rewrite final_keys_exact.
  apply unique_from_elem; [| done].
  apply list_elem_of_In, filter_In. split; [| by apply is_known_iff].
  apply in_map. by apply list_elem_of_In.
Qed.

Lemma ledger_has_every_known_stage_witness :
  dict_keys
    [ ("perform_pca", error_entry "perform_pca requires beta values.");
      ("read_idat_files", error_entry "R package 'sesame' not found.") ]
  = Analysis.unique String.eqb
      (List.filter Core.is_known
         (map Core.normalize
            ["perform_pca"; "polish"; " Read_IDAT_Files"; "PERFORM_PCA"])).
Proof.
  exact (proj1 (ledger_has_every_known_stage (W := unit) Sample.moira
                  Sample.offline
                  ["perform_pca"; "polish"; " Read_IDAT_Files"; "PERFORM_PCA"]
                  None tt tt _ eq_refl)).
Defined.

(** ** A run without [read_idat_files] *)

Section NoData.
Import Core.
Implicit Types (st : State) (step raw : string) (steps : list string).

Lemma try_body_no_betas m h h' pd idx step st :
  current_betas st = None → step ≠ "read_idat_files" →
  try_body m h pd idx step st = try_body m h' pd idx step st.
Proof.
  intros Hb Hne. unfold_stage. rewrite Hb. split_stage; done.
Qed.

Lemma run_steps_no_data m h h' pd total idx steps st :
  current_betas st = None →
  (∀ k v, dict_get (results st) k = Some v → ∃ msg, v = error_entry msg) →
  (∀ raw, raw ∈ steps → normalize raw ≠ "read_idat_files") →
  let st' := snd (run_steps (W := unit) m h None pd total idx steps tt st) in
  st' = snd (run_steps (W := unit) m h' None pd total idx steps tt st)
  ∧ current_betas st' = None
  ∧ (∀ k v, dict_get (results st') k = Some v → ∃ msg, v = error_entry msg).
Proof.
  revert idx st. induction steps as [|raw steps IH]; intros idx st Hb He Hno.
  { by split_and!. }
  simpl.
  assert (normalize raw ≠ "read_idat_files") as Hne by (apply Hno; by left).
  assert (run_stage m h pd idx (normalize raw) st
          = run_stage m h' pd idx (normalize raw) st) as Heq.
  { unfold run_stage. by rewrite (try_body_no_betas m h h'). }
  rewrite <- Heq. apply IH.
  - by apply run_stage_no_betas.
  - intros k v. destruct (decide (normalize raw ∈ KNOWN_STEPS)) as [Hk|Hk].
    + destruct (try_body_requires_betas m h pd idx _ st Hb Hk Hne) as [msg Hr].
      rewrite (run_stage_raise _ _ _ _ _ _ _ Hr). simpl.
      destruct (decide (normalize raw = k)) as [<-|Hkk].
      * rewrite dict_get_set_eq. intros [= <-]. by eexists.
      * rewrite dict_get_set_ne by done. apply He.
    + unfold run_stage. rewrite try_body_unknown by done. apply He.
  - intros raw' ?. apply Hno. by right.
Qed.

End NoData.

(** X2. When no requested name normalizes to [read_idat_files], no
    collaborator and no analysis function has any influence on the run: the
    local variables after the loop are the same for all handlers, the beta
    matrix is still absent, and every entry of the ledger is an error. *)
Theorem run_without_data_only_records_errors (m : Core.MoIRA)
    (h h' : Core.Handlers) (steps : list string)
    (Hno : ∀ raw, raw ∈ steps → Core.normalize raw ≠ "read_idat_files") :
  let final := Core.state_after m h steps (length steps) in
  final = Core.state_after m h' steps (length steps)
  ∧ Core.current_betas final = None
  ∧ (∀ k v, dict_get (Core.results final) k = Some v →
            ∃ msg, v = error_entry msg).
Proof.
  unfold Core.state_after. rewrite firstn_all.
  by apply run_steps_no_data.
Qed.

Lemma run_without_data_only_records_errors_witness :
  Core.state_after Sample.moira Sample.offline
    ["quality_control"; "Perform_PCA"] 2
  = Core.state_after Sample.moira
      (Core.with_engine Sample.figure (fun _ _ _ _ => []) Sample.offline)
      ["quality_control"; "Perform_PCA"] 2.
Proof.
  refine (proj1 (run_without_data_only_records_errors Sample.moira
                   Sample.offline
                   (Core.with_engine Sample.figure (fun _ _ _ _ => []) Sample.offline)
                   ["quality_control"; "Perform_PCA"] _)).
  intros raw [->|[->|[]%elem_of_nil]%elem_of_cons]%elem_of_cons; by vm_compute.
Defined.

(** ** Queries on the job store *)

Section Queries.
Import Main.
Implicit Types (jobs : gmap string Job) (j job : Job) (ts : list Transition).

Lemma apply_created_at t j : created_at (apply t j) = created_at j.
Proof. by destruct t. Qed.

(** The outcome of the run does not depend on the progress callback. *)
Lemma run_workflow_sync_outcome {W W'} h load
    (cb : string → nat → nat → W → W) (cb' : string → nat → nat → W' → W')
    user meta steps cm w w' :
  snd (_run_workflow_sync h load cb user meta steps cm w)
  = snd (_run_workflow_sync h load cb' user meta steps cm w').
Proof.
  unfold _run_workflow_sync. destruct (load _); [done |].
  by rewrite !run_workflow_returns.
Qed.

End Queries.

(** X3. A query for a job under another identity than its owner's fails with
    403 on both endpoints, in every state the job can be in (the task never
    changes the owner); a query for an unknown identifier fails with 404. *)
Theorem job_queries_check_the_owner (h : Core.Handlers)
    (load : string → Exc Targets) (owner other job_id now : string)
    (meta : Main.Meta) (cm : pydict string) (steps : list string) (k : nat)
    (jobs : gmap string Main.Job)
    (Hother : other ≠ owner) :
  let ts := Main.task_transitions h load owner meta steps cm in
  let job := Main.job_after k ts (Main.new_job owner now steps) in
  let forbidden := {| Main.status_code := 403; Main.detail := "Forbidden." |} in
  let not_found :=
    {| Main.status_code := 404; Main.detail := "Job not found." |} in
  Main.get_job other job_id (<[job_id := job]> jobs) = inl forbidden
  ∧ Main.get_job_result other job_id (<[job_id := job]> jobs) = inl forbidden
  ∧ (jobs !! job_id = None →
     Main.get_job other job_id jobs = inl not_found
     ∧ Main.get_job_result other job_id jobs = inl not_found).
Proof.
  intros ts job forbidden not_found.
  assert (String.eqb (Main.user_id job) other = false) as Hne.
  { subst job. rewrite job_after_user_id. simpl.
    apply String.eqb_neq. congruence. }
  unfold Main.get_job, Main.get_job_result.
  rewrite lookup_insert_eq, Hne. simpl.
  split_and!; try done. by intros ->.
Qed.

Lemma job_queries_check_the_owner_witness :
  Main.get_job_result "u2" "job-1"
    (<[ "job-1" :=
         Main.job_after 3
           (Main.task_transitions Sample.offline Sample.load_samplesheet "u1"
              Sample.meta ["perform_pca"] [])
           (Main.new_job "u1" "2024-01-01" ["perform_pca"]) ]> ∅)
  = inl {| Main.status_code := 403; Main.detail := "Forbidden." |}.
Proof.
  refine (proj1 (proj2 (job_queries_check_the_owner Sample.offline
                          Sample.load_samplesheet "u1" "u2" "job-1"
                          "2024-01-01" Sample.meta [] ["perform_pca"] 3 ∅ _))).
  discriminate.
Defined.

(** X4. For the owner, the result endpoint refuses a job that is still
    pending, naming that status; after the task has run it returns exactly
    the ledger that the run returned, and when the run raised it refuses
    again, naming the status failed, while the status endpoint reports the
    message of the exception. *)
Theorem job_result_after_the_task (h : Core.Handlers)
    (load : string → Exc Targets) (user job_id now : string)
    (meta : Main.Meta) (cm : pydict string) (steps : list string)
    (jobs : gmap string Main.Job) :
  let launched := <[job_id := Main.new_job user now steps]> jobs in
  let finished :=
    Main._run_workflow_task h load job_id user meta steps cm launched in
  let outcome :=
    snd (Main._run_workflow_sync h load (fun _ _ _ (u : unit) => u) user meta
           steps cm tt) in
  Main.get_job_result user job_id launched
  = inl {| Main.status_code := 400;
           Main.detail :=
             "Job is not completed yet (current status: 'pending')." |}
  ∧ match outcome with
    | Ret l => Main.get_job_result user job_id finished = inr (Some l)
    | Raise msg =>
        Main.get_job_result user job_id finished
        = inl {| Main.status_code := 400;
                 Main.detail :=
                   "Job is not completed yet (current status: 'failed')." |}
        ∧ ∃ st, Main.get_job user job_id finished = inr st
                ∧ Main.js_status st = Main.failed
                ∧ Main.js_error st = Some msg
    end.
Proof.
  intros launched finished outcome. split.
  { unfold Main.get_job_result. subst launched. rewrite lookup_insert_eq.
    simpl. by rewrite String.eqb_refl. }
  set (ts := Main.task_transitions h load user meta steps cm).
  set (job := Main.job_after (length ts) ts (Main.new_job user now steps)).
  assert (finished !! job_id = Some job) as Hjob
    by (subst finished launched; apply task_store).
  assert (Main.user_id job = user) as Huser
    by (subst job; apply job_after_user_id).
  pose proof (task_final h load user meta cm now steps) as Hfinal.
  cbv zeta in Hfinal. fold ts job in Hfinal.
  unfold Main.get_job_result, Main.get_job. rewrite Hjob, Huser.
  rewrite String.eqb_refl. simpl.
  subst outcome. unfold Main._run_workflow_sync.
  destruct (load _) as [msg|sheet]; simpl.
  { destruct Hfinal as (Hs & He & _). rewrite Hs. split; [done |].
    eexists. by split_and!. }
  rewrite run_workflow_returns.
  destruct (Core.make_plots_dir h _) as [msg|].
  { destruct Hfinal as (Hs & He & _). rewrite Hs. split; [done |].
    eexists. by split_and!. }
  destruct Hfinal as (_ & _ & Hsum). simpl.
  destruct (Core.write_summary _ _ _ _) as [msg|].
  - destruct Hsum as (Hs & He & _). rewrite Hs. split; [done |].
    eexists. by split_and!.
  - destruct Hsum as (Hs & Hr & _). by rewrite Hs, Hr.
Qed.

(** X5. The task of one job never writes to the record of another job, and
    the tasks of two different jobs can run in either order: the store ends
    up the same. *)
Theorem tasks_of_different_jobs_do_not_interfere (h : Core.Handlers)
    (load : string → Exc Targets) (a b user_a user_b : string)
    (meta_a meta_b : Main.Meta) (cm_a cm_b : pydict string)
    (steps_a steps_b : list string) (jobs : gmap string Main.Job)
    (Hab : a ≠ b) :
  let task_a := Main._run_workflow_task h load a user_a meta_a steps_a cm_a in
  let task_b := Main._run_workflow_task h load b user_b meta_b steps_b cm_b in
  task_a jobs !! b = jobs !! b
  ∧ task_a (task_b jobs) = task_b (task_a jobs).
Proof.
  intros task_a task_b. subst task_a task_b.
  rewrite !run_workflow_task_eq, !fold_write. split.
  - by apply lookup_alter_ne.
  - by apply alter_alter_ne.
Qed.

Lemma tasks_of_different_jobs_do_not_interfere_witness :
  let jobs : gmap string Main.Job :=
    <[ "job-2" := Main.new_job "u2" "2024-01-02" ["perform_pca"] ]>
      (<[ "job-1" := Main.new_job "u1" "2024-01-01" ["quality_control"] ]> ∅) in
  Main._run_workflow_task Sample.offline Sample.load_samplesheet "job-1" "u1"
    Sample.meta ["quality_control"] [] jobs !! "job-2"
  = jobs !! "job-2".
Proof.
  intros jobs.
  refine (proj1 (tasks_of_different_jobs_do_not_interfere Sample.offline
                   Sample.load_samplesheet "job-1" "job-2" "u1" "u2"
                   Sample.meta Sample.meta [] [] ["quality_control"]
                   ["perform_pca"] jobs _)).
  discriminate.
Defined.

(** ** The workflow suggested by the AI *)

Section Parse.
Import Core.
Implicit Types (data : value) (steps : list string).

Lemma normalize_known step : step ∈ KNOWN_STEPS → normalize step = step.
Proof.
  unfold KNOWN_STEPS. rewrite !elem_of_cons.
  intros [->|[->|[->|[->|[->|[->|[->|[->|[]%elem_of_nil]]]]]]]]; reflexivity.
Qed.

Lemma mapM_known_tool l tools :
  mapM known_tool l = Ret tools →
  omap Datatypes.id tools = List.filter is_known (omap tool_of l).
Proof.
  revert tools. induction l as [|s l IH]; intros tools; simpl.
  { by intros [= <-]. }
  unfold mbind, Exc_bind, mret, Exc_ret.
  destruct (known_tool s) as [|o] eqn:Hs; [done |].
  destruct (mapM known_tool l) as [|tools'] eqn:Hl; [done |].
  intros [= <-]. specialize (IH _ eq_refl). simpl.
  unfold known_tool, tool_of in *. destruct s; try done.
  destruct (dict_get d "tool") as [[]|]; simplify_eq/=; try done.
  destruct (is_known s); simpl; by rewrite IH.
Qed.

Lemma keep_mapping_inv v :
  keep_mapping v = true →
  v ≠ VNone ∧ v ≠ VStr EmptyString
  ∧ ∀ s, v = VStr s → lower s ≠ "null" ∧ lower s ≠ "none".
Proof.
  unfold keep_mapping. rewrite andb_true_iff. intros [Ht Hs].
  split_and!.
  - by intros ->.
  - by intros ->.
  - intros s ->. simpl in Hs. rewrite !orb_false_r in Hs.
    apply negb_true_iff, orb_false_iff in Hs as [H1 H2].
    apply orb_false_iff in H2 as [H2 _].
    apply String.eqb_neq in H1, H2. done.
Qed.

End Parse.

(** X6. When [_parse_response] returns, the steps it returns are the tools
    of the suggested workflow that are in the vocabulary, in the order
    suggested, and nothing else; and no column mapping it returns is null,
    an empty string, or the word "null" or "none" in any letter case. *)
Theorem parse_response_filters (data : value) (mappings : pydict value)
    (steps : list string)
    (Hparse : Core._parse_response data = Ret (mappings, steps)) :
  (∀ s, s ∈ steps → s ∈ Core.KNOWN_STEPS)
  ∧ (∃ d workflow suggested,
       data = VDict d
       ∧ Core.get_dict d "workflow" = Ret workflow
       ∧ Core.iterate_steps (default (VList []) (dict_get workflow "steps"))
         = Ret suggested
       ∧ steps = List.filter Core.is_known (omap Core.tool_of suggested))
  ∧ (∀ k v, (k, v) ∈ mappings →
       v ≠ VNone ∧ v ≠ VStr EmptyString
       ∧ ∀ s, v = VStr s → lower s ≠ "null" ∧ lower s ≠ "none").
Proof.
  unfold Core._parse_response in Hparse.
  destruct data as [| | | | | |d]; try done.
  unfold mbind, Exc_bind in Hparse.
  destruct (Core.get_dict d "column_mappings") as [|raw] eqn:Hraw; [done |].
  destruct (Core.get_dict d "workflow") as [|workflow] eqn:Hwf; [done |].
  destruct (Core.iterate_steps _) as [|suggested] eqn:Hit; [done |].
  destruct (mapM Core.known_tool suggested) as [|tools] eqn:Htools; [done |].
  injection Hparse as <- <-.
  pose proof (mapM_known_tool _ _ Htools) as Hsteps.
  split_and!.
  - intros s. rewrite Hsteps.
    intros [_ Hk]%list_elem_of_In%filter_In. by apply is_known_iff.
  - by exists d, workflow, suggested.
  - intros k v [_ Hk]%list_elem_of_In%filter_In. by apply keep_mapping_inv.
Qed.

Lemma parse_response_filters_witness :
  "perform_pca" ∈ Core.KNOWN_STEPS.
Proof.
  apply (proj1 (parse_response_filters
    (VDict
       [ ("column_mappings",
          VDict [("batch", VStr "Plate"); ("tissue", VStr "NULL");
                 ("genotype", VNone)]);
         ("workflow",
          VDict [("steps",
                  VList [ VDict [("step_number", VInt 1);
                                 ("tool", VStr "read_idat_files")];
                          VDict [("tool", VStr "normalise")];
                          VDict [("tool", VStr "perform_pca")] ])]) ])
    [("batch", VStr "Plate")] ["read_idat_files"; "perform_pca"] eq_refl)).
  apply list_elem_of_In. simpl. auto.
Defined.

(** X7. A workflow that [_parse_response] returned is executed in full by
    [run_workflow]: the ledger it returns has one entry for each distinct
    step, in the order suggested, and none is skipped as unknown. *)
Theorem suggested_workflow_runs_in_full {W} (data : value)
    (mappings : pydict value) (steps : list string) (m : Core.MoIRA)
    (h : Core.Handlers) (cb : option (string → nat → nat → W → W))
    (w w' : W) (l : ledger)
    (Hparse : Core._parse_response data = Ret (mappings, steps))
    (Hret : Core.run_workflow m h steps cb w = (w', Ret l)) :
  dict_keys l = Analysis.unique String.eqb steps
  ∧ (∀ s, s ∈ steps → is_Some (dict_get l s)).
Proof.
  assert (∀ s, s ∈ steps → s ∈ Core.KNOWN_STEPS) as Hknown.
  { unfold Core._parse_response in Hparse.
    destruct data as [| | | | | |d]; try done.
    unfold mbind, Exc_bind in Hparse.
    destruct (Core.get_dict d "column_mappings"); [done |].
    destruct (Core.get_dict d "workflow"); [done |].
    destruct (Core.iterate_steps _) as [|suggested]; [done |].
    destruct (mapM Core.known_tool suggested) as [|tools] eqn:Htools; [done |].
    injection Hparse as <- <-. intros s.
    rewrite (mapM_known_tool _ _ Htools).
    intros [_ Hk]%list_elem_of_In%filter_In. by apply is_known_iff. }
  assert (List.filter Core.is_known (map Core.normalize steps) = steps) as Hid.
  { clear -Hknown. induction steps as [|s steps IH]; [done |]. simpl.
    rewrite (normalize_known s) by (apply Hknown; by left).
    rewrite (proj2 (is_known_iff s)) by (apply Hknown; by left).
    f_equal. apply IH. intros ??. apply Hknown. by right. }
  rewrite (returned_ledger m h steps cb w w' l Hret).
  pose proof (final_keys_exact m h steps) as Hkeys. rewrite Hid in Hkeys.
  split; [done |].
  intros s Hin.
  destruct (dict_get _ s) eqn:Hg; [by eexists |].
  apply dict_get_None_keys in Hg. destruct Hg. rewrite Hkeys.
  by apply unique_from_elem.
Qed.

Lemma suggested_workflow_runs_in_full_witness :
  dict_keys
    [ ("read_idat_files", error_entry "R package 'sesame' not found.");
      ("perform_pca", error_entry "perform_pca requires beta values.") ]
  = Analysis.unique String.eqb ["read_idat_files"; "perform_pca"].
Proof.
  exact (proj1 (suggested_workflow_runs_in_full (W := unit)
    (VDict
       [ ("column_mappings", VDict [("batch", VStr "Plate")]);
         ("workflow",
          VDict [("steps",
                  VList [ VDict [("tool", VStr "read_idat_files")];
                          VDict [("tool", VStr "normalise")];
                          VDict [("tool", VStr "perform_pca")] ])]) ])
    [("batch", VStr "Plate")] ["read_idat_files"; "perform_pca"]
    Sample.moira Sample.offline None tt tt _ eq_refl eq_refl)).
Defined.

(** ** The table of differentially methylated probes *)

Section Dmps.
Import Analysis.
Implicit Types (d : Dmp) (l : list Dmp).

Lemma insert_by_fdr_In d l x : In x (insert_by_fdr d l) ↔ x = d ∨ In x l.
Proof.
  induction l as [|d' l IH]; simpl.
  - split; [intros [<-|[]]; by left | intros [->|[]]; by left].
  - destruct (Qlt_bool (fdr d) (fdr d')); simpl.
    + split; [intros [<-|?]; auto | intros [->|?]; auto].
    + rewrite IH. split; intros [?|[?|?]]; subst; auto.
Qed.

Lemma insert_by_fdr_sorted d l :
  StronglySorted fdr_le l → StronglySorted fdr_le (insert_by_fdr d l).
Proof.
  induction 1 as [|d' l Hs IH Hall]; simpl.
  { repeat constructor. }
  destruct (Qlt_bool (fdr d) (fdr d')) eqn:Hlt.
  - apply Qlt_bool_iff in Hlt. constructor; [by constructor |].
    constructor; [by apply Qlt_le_weak |].
    eapply Forall_impl; [exact Hall |].
    intros x Hx. unfold fdr_le in *. Lqa.lra.
  - assert (fdr d' <= fdr d)%Q as Hle.
    { apply Qnot_lt_le. intros Hlt'%Qlt_bool_iff. congruence. }
    constructor; [done |].
    apply List.Forall_forall. intros x [->|Hx]%insert_by_fdr_In; [done |].
    by eapply List.Forall_forall in Hall.
Qed.

Lemma sort_by_fdr_sorted l : StronglySorted fdr_le (sort_by_fdr l).
Proof.
  induction l; simpl; [constructor | by apply insert_by_fdr_sorted].
Qed.

Lemma insert_by_fdr_length d l : length (insert_by_fdr d l) = S (length l).
Proof.
  induction l as [|d' l IH]; simpl; [done |].
  destruct (Qlt_bool _ _); simpl; by rewrite ?IH.
Qed.

Lemma sort_by_fdr_length l : length (sort_by_fdr l) = length l.
Proof.
  induction l; simpl; [done | by rewrite insert_by_fdr_length, IHl].
Qed.

Lemma insert_by_fdr_perm d l : insert_by_fdr d l ≡ₚ d :: l.
Proof.
  induction l as [|d' l IH]; simpl; [done |].
  destruct (Qlt_bool (fdr d) (fdr d')); [done |].
  rewrite IH. apply perm_swap.
Qed.

Lemma sort_by_fdr_perm l : sort_by_fdr l ≡ₚ l.
Proof.
  induction l as [|d l IH]; simpl; [done |].
  by rewrite insert_by_fdr_perm, IH.
Qed.

Lemma sort_by_fdr_In l x : In x (sort_by_fdr l) ↔ In x l.
Proof.
  induction l as [|d l IH]; simpl; [done |].
  rewrite insert_by_fdr_In, IH. split; intros [?|?]; subst; auto.
Qed.

Lemma filter_all_false {A} (f : A → bool) (l0 : list A) :
  (∀ x, In x l0 → f x = false) → List.filter f l0 = [].
Proof.
  induction l0 as [|y l0 IH]; simpl; [done |]. intros Hall.
  rewrite (Hall y) by auto. apply IH. auto.
Qed.

(** In a sorted table the rows below a threshold come first. *)
Lemma sorted_filter_prefix thr l :
  StronglySorted fdr_le l →
  List.filter (fun d => Qlt_bool (fdr d) thr) l
  = take (length (List.filter (fun d => Qlt_bool (fdr d) thr) l)) l.
Proof.
  induction 1 as [|d l Hs IH Hall]; simpl; [done |].
  destruct (Qlt_bool (fdr d) thr) eqn:Hlt; simpl; [by rewrite <- IH |].
  assert (List.filter (fun d => Qlt_bool (fdr d) thr) l = []) as ->; [| done].
  apply filter_all_false.
  intros x Hx. eapply List.Forall_forall in Hall; [| exact Hx].
  apply not_true_iff_false. intros Hx'%Qlt_bool_iff.
  apply not_true_iff_false in Hlt. apply Hlt, Qlt_bool_iff.
  unfold fdr_le in Hall. Lqa.lra.
Qed.

Lemma In_drop {A} n (l : list A) x : In x (drop n l) → In x l.
Proof.
  revert n. induction l as [|y l IH]; intros [|n]; simpl; auto.
  intros Hx. right. by apply (IH n).
Qed.

(** The first rows of a sorted table are the smallest. *)
Lemma sorted_take_drop n l d d' :
  StronglySorted fdr_le l → In d (take n l) → In d' (drop n l) → fdr_le d d'.
Proof.
  intros Hs. revert n. induction Hs as [|x l Hs IH Hall]; intros [|n]; simpl;
    try done.
  intros [->|Hd] Hd'.
  - eapply List.Forall_forall in Hall; [done |]. by apply In_drop in Hd'.
  - by apply (IH n).
Qed.

End Dmps.

Section DiffResult.
Import Analysis.
Implicit Types (d : Dmp) (l table : list Dmp) (res : payload).

(** The probes of the rows are those of the index, when there is a test
    and an adjusted value for each. *)
Lemma rows_probes (idx : list string) (tests : list ProbeTest) (qs : list Q) :
  length tests = length idx → length qs = length idx →
  map probe
    (map (fun row =>
            let '(name, test, q) := row in
            {| probe := name; log2_fc := pt_log2_fc test;
               t_stat := pt_t_stat test; p_value := pt_p_value test;
               fdr := q |})
       (combine (combine idx tests) qs))
  = idx.
Proof.
  revert tests qs.
  induction idx as [|name idx IH]; intros [|test tests] [|q qs] Ht Hq;
    try done.
  simpl. f_equal. apply IH; simpl in *; lia.
Qed.

(** What a result without an "error" key holds. *)
Lemma differential_analysis_success welch betas targets cm thr top_n :
  let res := differential_analysis welch betas targets cm thr top_n in
  dict_has res "error" = false →
  ∃ table,
    StronglySorted fdr_le table
    ∧ dict_get res "top_dmps" = Some (VList (map dmp_record (take top_n table)))
    ∧ dict_get res "n_probes_tested" = Some (VInt (Z.of_nat (length table)))
    ∧ dict_get res "n_significant_dmps"
      = Some (VInt (Z.of_nat
                      (length (List.filter (fun d => Qlt_bool (fdr d) thr)
                                 table))))
    ∧ length table ≤ length (index betas)
    ∧ (∀ d, In d table → In (probe d) (index betas))
    ∧ ((∀ common g1 g2,
          length (welch betas common g1 g2) = length (index betas)) →
       map probe table ≡ₚ index betas).
Proof.
  unfold differential_analysis.
  destruct targets as [t|]; [| done].
  destruct (_select_group_column betas t cm) as [group_col|]; [| done].
  destruct (length (common_samples betas t) <? 4); [done |].
  destruct (unique cell_same _) as [|u1 [|u2 [|u3 us]]]; try done.
  intros _. eexists. split_and!; try reflexivity.
  - apply sort_by_fdr_sorted.
  - rewrite sort_by_fdr_length, length_map, !length_combine. lia.
  - intros d [[[name test] q] [<- Hin]]%sort_by_fdr_In%in_map_iff. simpl.
    by apply in_combine_l, in_combine_l in Hin.
  - intros Hwelch. rewrite sort_by_fdr_perm.
    rewrite rows_probes; [done | apply Hwelch |].
    by rewrite bh_fdr_length, length_map, Hwelch.
Qed.






End DiffResult.

(** X8. Let the t-test give one result per probe of the beta matrix.  A
    result of [differential_analysis] without an "error" key comes from a
    table sorted by ascending FDR with exactly one row per probe of the beta
    matrix: [top_dmps] holds its first [top_n] rows, so no probe left out
    has a smaller FDR than a probe reported; [n_probes_tested] is its
    length, the number of probes; and [n_significant_dmps] counts the rows
    below the threshold, which are the first rows of the table. *)
Theorem differential_analysis_reports_smallest_fdr (welch : Analysis.Welch)
    (betas : Matrix) (targets : option Targets) (cm : pydict string)
    (fdr_threshold : Q) (top_n : nat)
    (Hwelch : ∀ common g1 g2,
       length (welch betas common g1 g2) = length (index betas))
    (Hok : dict_has
             (Analysis.differential_analysis welch betas targets cm
                fdr_threshold top_n) "error" = false) :
  let res :=
    Analysis.differential_analysis welch betas targets cm fdr_threshold top_n in
  ∃ table significant,
    StronglySorted Analysis.fdr_le table
    ∧ map Analysis.probe table ≡ₚ index betas
    ∧ dict_get res "top_dmps"
      = Some (VList (map Analysis.dmp_record (take top_n table)))
    ∧ (∀ d d', In d (take top_n table) → In d' (drop top_n table) →
               (Analysis.fdr d <= Analysis.fdr d')%Q)
    ∧ dict_get res "n_probes_tested"
      = Some (VInt (Z.of_nat (length (index betas))))
    ∧ length table = length (index betas)
    ∧ dict_get res "n_significant_dmps" = Some (VInt (Z.of_nat significant))
    ∧ significant ≤ length table
    ∧ (∀ d, In d (take significant table) ↔
            In d table ∧ (Analysis.fdr d < fdr_threshold)%Q).
Proof.
  intros res.
  destruct (differential_analysis_success welch betas targets cm fdr_threshold
              top_n Hok)
    as (table & Hs & Htop & Hn & Hsig & Hlen & Hprobe & Hperm).
  specialize (Hperm Hwelch).
  assert (length table = length (index betas)) as Hlength.
  { rewrite <- (length_map Analysis.probe table). by rewrite Hperm. }
  exists table, (length (List.filter
                           (fun d => Analysis.Qlt_bool (Analysis.fdr d)
                                       fdr_threshold) table)).
  split_and!; try done.
  - intros d d'. by apply sorted_take_drop.
  - fold res in Hn. by rewrite Hn, Hlength.
  - apply filter_length_le.
  - intros d. rewrite <- sorted_filter_prefix by done.
    by rewrite filter_In, Qlt_bool_iff.
Qed.

Lemma differential_analysis_reports_smallest_fdr_witness :
  let betas := {| index := ["cg1"; "cg2"];
                  columns := ["s1"; "s2"; "s3"; "s4"]; cells := [] |} in
  let t := {| t_index := ["s1"; "s2"; "s3"; "s4"];
              t_data := [("Genotype",
                          [Some "wt"; Some "ko"; Some "wt"; Some "ko"])] |} in
  let welch : Analysis.Welch := fun _ _ _ _ =>
    [ {| Analysis.pt_log2_fc := 2; Analysis.pt_t_stat := 3;
         Analysis.pt_p_value := 1 # 2 |};
      {| Analysis.pt_log2_fc := 1 # 2; Analysis.pt_t_stat := 5;
         Analysis.pt_p_value := 1 # 100 |} ] in
  let res :=
    Analysis.differential_analysis welch betas (Some t) [] (1 # 20) 1 in
  ∃ table significant,
    StronglySorted Analysis.fdr_le table
    ∧ map Analysis.probe table ≡ₚ index betas
    ∧ dict_get res "top_dmps"
      = Some (VList (map Analysis.dmp_record (take 1 table)))
    ∧ (∀ d d', In d (take 1 table) → In d' (drop 1 table) →
               (Analysis.fdr d <= Analysis.fdr d')%Q)
    ∧ dict_get res "n_probes_tested"
      = Some (VInt (Z.of_nat (length (index betas))))
    ∧ length table = length (index betas)
    ∧ dict_get res "n_significant_dmps" = Some (VInt (Z.of_nat significant))
    ∧ significant ≤ length table
    ∧ (∀ d, In d (take significant table) ↔
            In d table ∧ (Analysis.fdr d < 1 # 20)%Q).
Proof.
  intros betas t welch res.
  exact (differential_analysis_reports_smallest_fdr welch betas (Some t) []
           (1 # 20) 1 (fun _ _ _ => eq_refl) eq_refl).
Defined.


(** ** The two groups of the differential analysis *)

Section Groups.
Import Analysis.
Implicit Types (t : Targets) (betas : Matrix) (cm : pydict string)
  (l seen : list cell).

Lemma cell_same_eq (a b : cell) : cell_same a b = true ↔ a = b.
Proof.
  destruct a as [x|], b as [y|]; simpl; try (split; congruence).
  rewrite String.eqb_eq. split; congruence.
Qed.

Lemma existsb_cell_same (x : cell) seen :
  existsb (cell_same x) seen = true ↔ In x seen.
Proof.
  rewrite existsb_exists. split.
  - by intros (y & Hin & ->%cell_same_eq).
  - intros Hin. exists x. split; [done | by apply cell_same_eq].
Qed.

Lemma unique_from_cells_In seen l (x : cell) :
  In x (unique_from cell_same seen l) ↔ In x l ∧ ¬ In x seen.
Proof.
  revert seen. induction l as [|y l IH]; intros seen; simpl; [tauto |].
  destruct (existsb (cell_same y) seen) eqn:Hy.
  - apply existsb_cell_same in Hy. rewrite IH.
    split; [tauto |]. intros [[<-|Hin] Hn]; tauto.
  - apply not_true_iff_false in Hy. rewrite existsb_cell_same in Hy.
    simpl. rewrite IH. simpl. split.
    + intros [<-|(Hin & Hn)]; [tauto |]. split; [tauto |]. tauto.
    + intros [[<-|Hin] Hn]; [tauto |].
      destruct (decide (y = x)) as [->|Hne]; [tauto |]. right. split; [done |].
      intros [?|?]; tauto.
Qed.

Lemma unique_from_cells_NoDup seen l : NoDup (unique_from cell_same seen l).
Proof.
  revert seen. induction l as [|y l IH]; intros seen; simpl; [constructor |].
  destruct (existsb (cell_same y) seen); [apply IH |].
  apply NoDup_cons_2; [| apply IH].
  rewrite list_elem_of_In, unique_from_cells_In. simpl. tauto.
Qed.

Lemma existsb_dropna (s : string) seen :
  existsb (cell_same (Some s)) seen = existsb (String.eqb s) (dropna seen).
Proof.
  induction seen as [|[y|] seen IH]; simpl; [done | | done].
  by rewrite IH.
Qed.

(** Dropping the missing values before or after [unique] gives the same
    values. *)
Lemma dropna_unique_from seen l :
  dropna (unique_from cell_same seen l)
  = unique_from String.eqb (dropna seen) (dropna l).
Proof.
  revert seen. induction l as [|[s|] l IH]; intros seen; simpl; [done | |].
  - rewrite existsb_dropna.
    destruct (existsb (String.eqb s) (dropna seen)); [apply IH |].
    simpl. f_equal. apply (IH (Some s :: seen)).
  - destruct (existsb (cell_same None) seen); [apply IH |].
    simpl. apply (IH (None :: seen)).
Qed.

Lemma dropna_length_NoDup l :
  NoDup l →
  (In None l → length l = S (length (dropna l)))
  ∧ (¬ In None l → length l = length (dropna l)).
Proof.
  induction 1 as [|x l Hx Hnd [IH1 IH2]]; simpl; [tauto |].
  rewrite list_elem_of_In in Hx.
  destruct x as [s|]; simpl.
  - split.
    + intros [?|Hin]; [done |]. by rewrite IH1.
    + intros Hn. rewrite IH2; [done | tauto].
  - split; [| tauto]. intros _. by rewrite IH2.
Qed.

(** The number of distinct values of a two-valued column, the missing value
    counted as one. *)
Lemma two_valued_unique_length t common col :
  two_valued t common col = true →
  let cells := map snd (loc t common col) in
  (In None cells → length (unique cell_same cells) = 3)
  ∧ (¬ In None cells → length (unique cell_same cells) = 2).
Proof.
  unfold two_valued. intros Htwo%Nat.eqb_eq.
  set (cells := map snd (loc t common col)) in *.
  pose proof (dropna_unique_from [] cells) as Hdrop.
  change (unique_from String.eqb (dropna []) (dropna cells))
    with (unique String.eqb (dropna cells)) in Hdrop.
  change (unique_from cell_same [] cells) with (unique cell_same cells) in Hdrop.
  rewrite <- Hdrop in Htwo.
  destruct (dropna_length_NoDup (unique cell_same cells)
              (unique_from_cells_NoDup [] cells)) as [H1 H2].
  unfold unique in H1, H2. rewrite unique_from_cells_In in H1, H2.
  unfold unique. simpl in H1, H2. split.
  - intros Hin. rewrite H1 by tauto. unfold unique in Htwo. lia.
  - intros Hn. rewrite H2 by tauto. unfold unique in Htwo. lia.
Qed.











End Groups.

(** X10. [differential_analysis] returns an error payload exactly when there
    is no sample sheet, no two-valued column is selected, fewer than four
    samples are matched, or a matched sample has no value in the selected
    column.  In the last case the message always counts 3 unique values:
    the column was selected for its two values, missing values left aside,
    and the count that follows takes the missing value as a third. *)
Theorem differential_analysis_fails_iff (welch : Analysis.Welch)
    (betas : Matrix) (targets : option Targets) (cm : pydict string)
    (fdr_threshold : Q) (top_n : nat) :
  let res :=
    Analysis.differential_analysis welch betas targets cm fdr_threshold top_n in
  (dict_has res "error" = true ↔
   match targets with
   | None => True
   | Some t =>
       match Analysis._select_group_column betas t cm with
       | None => True
       | Some col =>
           length (Analysis.common_samples betas t) < 4
           ∨ In None
               (map snd (Analysis.loc t (Analysis.common_samples betas t) col))
       end
   end)
  ∧ (∀ t col,
       targets = Some t →
       Analysis._select_group_column betas t cm = Some col →
       4 ≤ length (Analysis.common_samples betas t) →
       In None (map snd (Analysis.loc t (Analysis.common_samples betas t) col)) →
       res = error_entry
               ("Column '" +:+ col
                +:+ "' has 3 unique values; exactly 2 are required.")).
Proof.
  intros res. subst res. unfold Analysis.differential_analysis.
  destruct targets as [t|]; [| split; [by split | by intros ?? [=]]].
  destruct (Analysis._select_group_column betas t cm) as [col|] eqn:Hsel;
    [| split; [by split | intros ?? [= <-] ?; congruence]].
  destruct (select_group_column_sound betas t cm col Hsel) as (_ & _ & Htwo).
  destruct (two_valued_unique_length t _ col Htwo) as [H3 H2].
  destruct (length (Analysis.common_samples betas t) <? 4) eqn:Hlen.
  { apply Nat.ltb_lt in Hlen. split; [split; auto |].
    intros ?? ? ? ?. simplify_eq. lia. }
  apply Nat.ltb_ge in Hlen.
  set (cells := map snd (Analysis.loc t (Analysis.common_samples betas t) col))
    in *.
  destruct (in_dec (option_eq_dec (A := string)) None cells) as [Hin|Hn].
  - specialize (H3 Hin).
    destruct (Analysis.unique Analysis.cell_same cells)
      as [|u1 [|u2 [|u3 [|u4 us]]]]; try done.
    split; [split; auto |]. intros ?? ? ? _ _. by simplify_eq.
  - specialize (H2 Hn).
    destruct (Analysis.unique Analysis.cell_same cells)
      as [|u1 [|u2 [|u3 us]]]; try done.
    split.
    + split; [done |]. intros [?|?]; [lia | done].
    + intros ?? ? ? _ ?. by simplify_eq.
Qed.

Lemma differential_analysis_fails_iff_witness :
  let betas := {| index := ["cg1"; "cg2"];
                  columns := ["s1"; "s2"; "s3"; "s4"]; cells := [] |} in
  let t := {| t_index := ["s1"; "s2"; "s3"; "s4"];
              t_data := [("Genotype",
                          [Some "wt"; Some "ko"; Some "wt"; None])] |} in
  Analysis.differential_analysis (fun _ _ _ _ => []) betas (Some t) []
    (1 # 20) 200
  = error_entry "Column 'Genotype' has 3 unique values; exactly 2 are required.".
Proof.
  intros betas t.
  apply (proj2 (differential_analysis_fails_iff (fun _ _ _ _ => []) betas
                  (Some t) [] (1 # 20) 200) t "Genotype").
  - reflexivity.
  - reflexivity.
  - simpl. lia.
  - simpl. auto.
Defined.



(** ** The retry loop of [_make_request] *)

Section Retry.
Import Core.

Lemma schedule_SS i k :
  schedule i (S (S k)) = Post i :: Sleep (2 ^ i) :: schedule (S i) (S k).
Proof. reflexivity. Qed.

Lemma seconds_slept_app log1 log2 :
  seconds_slept (log1 ++ log2) = seconds_slept log1 + seconds_slept log2.
Proof.
  unfold seconds_slept. induction log1 as [|e log1 IH]; simpl; [done |].
  rewrite IH. lia.
Qed.

Lemma seconds_slept_schedule i k :
  seconds_slept (schedule i (S k)) + 2 ^ i = 2 ^ (i + k).
Proof.
  revert i. induction k as [|k IH]; intros i.
  - simpl. unfold seconds_slept. simpl. by rewrite Nat.add_0_r.
  - rewrite schedule_SS.
    change (seconds_slept (Post i :: Sleep (2 ^ i) :: schedule (S i) (S k)))
      with (2 ^ i + seconds_slept (schedule (S i) (S k))).
    specialize (IH (S i)). rewrite Nat.pow_succ_r' in IH.
    replace (i + S k) with (S i + k) by lia. lia.
Qed.

Lemma attempts_from_spec reply max_retries i n last_error log :
  i + n = Z.to_nat max_retries →
  ∃ k,
    k ≤ n
    ∧ fst (attempts_from reply max_retries (seq i n) last_error log)
      = log ++ schedule i k
    ∧ (∀ j, i ≤ j < i + k - 1 → ∃ e, attempt_result (reply j) = inr e)
    ∧ match snd (attempts_from reply max_retries (seq i n) last_error log) with
      | Ret content =>
          0 < k ∧ attempt_result (reply (i + k - 1)) = inl content
      | Raise msg =>
          k = n
          ∧ ∃ last,
              msg = "OpenRouter request failed after "
                    +:+ str_of_Z max_retries +:+ " attempts: " +:+ last
              ∧ match n with
                | 0 => last = last_error
                | S n' => attempt_result (reply (i + n')) = inr last
                end
      end.
Proof.
  revert i last_error log. induction n as [|n IH]; intros i last_error log Hn.
  { exists 0. simpl. rewrite app_nil_r.
    split; [done |]. split; [done |]. split; [intros j ?; lia |].
    split; [done |]. eauto. }
  cbn [seq attempts_from].
  destruct (attempt_result (reply i)) as [content|e] eqn:Hr.
  { exists 1. simpl. replace (i + 1 - 1) with i by lia.
    split; [lia |]. split; [done |]. split; [intros j ?; lia |].
    split; [lia | done]. }
  destruct n as [|n].
  - assert ((Z.of_nat i <? max_retries - 1)%Z = false) as ->
      by (apply Z.ltb_ge; lia).
    exists 1. simpl. rewrite Nat.add_0_r.
    split; [done |]. split; [done |]. split; [intros j ?; lia |].
    split; [done |]. eauto.
  - assert ((Z.of_nat i <? max_retries - 1)%Z = true) as ->
      by (apply Z.ltb_lt; lia).
    destruct (IH (S i) e ((log ++ [Post i]) ++ [Sleep (2 ^ i)]))
      as (k & Hk & Hlog & Hfail & Hres); [lia |].
    destruct k as [|k].
    { destruct (snd (attempts_from reply max_retries (seq (S i) (S n)) e _));
        [by destruct Hres | destruct Hres; lia]. }
    exists (S (S k)). split_and!.
    + lia.
    + rewrite Hlog, schedule_SS, <- !app_assoc. done.
    + intros j Hj. destruct (decide (j = i)) as [->|Hne]; [eauto |].
      apply Hfail. lia.
    + destruct (snd (attempts_from reply max_retries (seq (S i) (S n)) e _))
        as [msg|content].
      * destruct Hres as (-> & last & -> & Hlast). split; [done |].
        exists last. split; [done |].
        by replace (i + S n) with (S i + n) by lia.
      * destruct Hres as [_ Hres]. split; [lia |].
        by replace (i + S (S k) - 1) with (S i + S k - 1) by lia.
Qed.

End Retry.

(** X12. [_make_request] sends at most [max_retries] requests, one after the
    other, and sleeps [2 ^ attempt] seconds between two requests only: never
    after the request that returns, never after the last one; in all it
    sleeps [2 ^ (k - 1) - 1] seconds for [k] requests.  It returns the
    content of the first reply whose content is not blank, every earlier
    request having failed; it raises when all [max_retries] requests have
    failed, with the error of the last one in the message, or
    "Unknown error" when no request was allowed. *)
Theorem make_request_retries (reply : nat → Core.Reply) (max_retries : Z) :
  let run := Core._make_request reply max_retries in
  ∃ k,
    k ≤ Z.to_nat max_retries
    ∧ fst run = Core.schedule 0 k
    ∧ Core.seconds_slept (fst run) = 2 ^ (k - 1) - 1
    ∧ (∀ j, j < k - 1 → ∃ e, Core.attempt_result (reply j) = inr e)
    ∧ match snd run with
      | Ret content =>
          0 < k ∧ reply (k - 1) = Core.Message content
          ∧ strip content ≠ EmptyString
      | Raise msg =>
          k = Z.to_nat max_retries
          ∧ (∀ j, j < k → ∃ e, Core.attempt_result (reply j) = inr e)
          ∧ ∃ last,
              msg = "OpenRouter request failed after "
                    +:+ Core.str_of_Z max_retries +:+ " attempts: " +:+ last
              ∧ match k with
                | 0 => last = "Unknown error"
                | S k' => Core.attempt_result (reply k') = inr last
                end
      end.
Proof.
  intros run. subst run. unfold Core._make_request.
  destruct (attempts_from_spec reply max_retries 0 (Z.to_nat max_retries)
              "Unknown error" [] eq_refl) as (k & Hk & Hlog & Hfail & Hres).
  exists k. split_and!.
  - done.
  - by rewrite Hlog.
  - rewrite Hlog. simpl. destruct k as [|k]; [done |].
    pose proof (seconds_slept_schedule 0 k) as Hs. simpl in Hs.
    replace (S k - 1) with k by lia. simpl. lia.
  - intros j Hj. apply Hfail. lia.
  - destruct (snd (Core.attempts_from reply max_retries _ _ _))
      as [msg|content].
    + destruct Hres as (-> & last & -> & Hlast). split_and!; [done | |].
      * intros j Hj.
        destruct (decide (j = Z.to_nat max_retries - 1)) as [->|Hne].
        -- destruct (Z.to_nat max_retries) as [|n]; [lia |].
           replace (S n - 1) with n by lia. eauto.
        -- apply Hfail. lia.
      * exists last. split; [done |].
        by destruct (Z.to_nat max_retries).
    + destruct Hres as [Hpos Hres]. simpl in Hres. split; [done |].
      unfold Core.attempt_result in Hres.
      destruct (reply (k - 1)) as [exc|err|c|code detail]; try done.
      destruct (String.eqb (strip c) EmptyString) eqn:Hblank; [done |].
      injection Hres as ->. split; [done |]. by apply String.eqb_neq.
Qed.

(** ** Quality control *)

Section QualityControl.
Import Preprocessing.

Lemma select_nil_r {A} (l : list A) : select [] l = [].
Proof. unfold select. by destruct l. Qed.

Lemma select_cons {A} (b : bool) mask (x : A) l :
  select (b :: mask) (x :: l) = if b then x :: select mask l else select mask l.
Proof. unfold select. simpl. by destruct b. Qed.

Lemma select_map_self {A} (f : A → bool) (l : list A) :
  select (map f l) l = List.filter f l.
Proof.
  induction l as [|x l IH]; [done |].
  cbn [map List.filter]. rewrite select_cons, IH. done.
Qed.

Lemma select_map {A B} (g : A → B) mask (l : list A) :
  select mask (map g l) = map g (select mask l).
Proof.
  revert mask. induction l as [|x l IH]; intros [|b mask]; try done.
  cbn [map]. rewrite !select_cons, IH. by destruct b.
Qed.

Lemma select_In {A} mask (l : list A) x : In x (select mask l) → In x l.
Proof.
  revert mask. induction l as [|y l IH]; intros [|b mask]; try done.
  rewrite select_cons. destruct b; simpl; [intros [?|?] |]; eauto.
Qed.

Lemma select_sublist {A} mask (l : list A) : sublist (select mask l) l.
Proof.
  revert mask. induction l as [|y l IH]; intros [|b mask].
  - constructor.
  - constructor.
  - rewrite select_nil_r. apply sublist_nil_l.
  - rewrite select_cons. destruct b; [apply sublist_skip | apply sublist_cons];
      apply IH.
Qed.

Lemma select_length_eq {A B} mask (l1 : list A) (l2 : list B) :
  length l1 = length l2 → length (select mask l1) = length (select mask l2).
Proof.
  revert mask l2. induction l1 as [|x l1 IH]; intros mask [|y l2] Hlen;
    try done.
  destruct mask as [|b mask]; [by rewrite !select_nil_r |].
  rewrite !select_cons. simpl in Hlen.
  destruct b; simpl; rewrite (IH mask l2) by lia; done.
Qed.

Lemma select_nonempty {A} mask (l : list A) :
  length mask = length l → existsb Datatypes.id mask = true →
  select mask l ≠ [].
Proof.
  revert l. induction mask as [|b mask IH]; intros [|x l] Hlen; try done.
  rewrite select_cons. simpl. destruct b; [done |]. simpl. apply IH.
  simpl in Hlen. lia.
Qed.

Lemma f_index_select_rows mask f :
  f_index (select_rows mask f) = select mask (f_index f).
Proof. unfold f_index, select_rows. simpl. by rewrite select_map. Qed.

Lemma f_index_select_columns mask f :
  f_index (select_columns mask f) = f_index f.
Proof.
  unfold f_index, select_columns. simpl. rewrite map_map. done.
Qed.

Lemma aligned_select_rows mask f g :
  aligned f g → aligned (select_rows mask f) (select_rows mask g).
Proof.
  intros [Hc Hi]. split; [done |]. by rewrite !f_index_select_rows, Hi.
Qed.

Lemma aligned_select_columns mask f g :
  aligned f g → aligned (select_columns mask f) (select_columns mask g).
Proof.
  intros [Hc Hi]. split.
  - simpl. by rewrite Hc.
  - by rewrite !f_index_select_columns.
Qed.

Lemma rectangular_select_rows mask f :
  rectangular f → rectangular (select_rows mask f).
Proof.
  unfold rectangular. rewrite !List.Forall_forall. simpl.
  intros Hall r Hin. apply Hall. by apply select_In in Hin.
Qed.

Lemma rectangular_select_columns mask f :
  rectangular f → rectangular (select_columns mask f).
Proof.
  unfold rectangular. rewrite !List.Forall_forall. simpl.
  intros Hall r [r0 [<- Hin]]%in_map_iff. simpl.
  apply select_length_eq. by apply Hall.
Qed.

(** A property of the rows that a row selection establishes, or keeps. *)
Lemma select_rows_self (p : string * list (option Q) → bool) f :
  f_rows (select_rows (map p (f_rows f)) f) = List.filter p (f_rows f).
Proof. simpl. apply select_map_self. Qed.

Lemma select_rows_In mask f r :
  In r (f_rows (select_rows mask f)) → In r (f_rows f).
Proof. simpl. apply select_In. Qed.

Lemma sublist_select_rows mask f :
  sublist (f_index (select_rows mask f)) (f_index f).
Proof. rewrite f_index_select_rows. apply select_sublist. Qed.

End QualityControl.

(** X13. On two rectangular frames with the same labels, a
    [quality_control] that returns gives two frames that are again
    rectangular and carry the same labels, with at least one sample; the
    samples and the probes are kept in their order; every detection
    p-value left is a number below the threshold, no beta value left is
    missing, every probe left starts with "cg" and is none of the sex
    probes when the annotation was available, which is what
    [sex_cpgs_removed] reports; the two counts are those of the beta
    frame. *)
Theorem quality_control_postconditions (sex_cpgs : Exc (list string))
    (betas detP : Preprocessing.Frame) (det_p_threshold : Q)
    (r : Preprocessing.QCResult)
    (Haligned : Preprocessing.aligned betas detP)
    (Hbetas : Preprocessing.rectangular betas)
    (HdetP : Preprocessing.rectangular detP)
    (Hqc : Preprocessing.quality_control sex_cpgs betas detP det_p_threshold
           = Ret r) :
  let betas_qc := Preprocessing.betas_qc r in
  let detP_qc := Preprocessing.detP_qc r in
  Preprocessing.aligned betas_qc detP_qc
  ∧ Preprocessing.rectangular betas_qc ∧ Preprocessing.rectangular detP_qc
  ∧ Preprocessing.f_columns betas_qc ≠ []
  ∧ sublist (Preprocessing.f_columns betas_qc) (Preprocessing.f_columns betas)
  ∧ sublist (Preprocessing.f_index betas_qc) (Preprocessing.f_index betas)
  ∧ (∀ row x, In row (Preprocessing.f_rows detP_qc) → In x (snd row) →
              ∃ q, x = Some q ∧ (q < det_p_threshold)%Q)
  ∧ (∀ row x, In row (Preprocessing.f_rows betas_qc) → In x (snd row) →
              is_Some x)
  ∧ (∀ p, In p (Preprocessing.f_index betas_qc) →
          String.prefix "cg" p = true
          ∧ ∀ sex, sex_cpgs = Ret sex → ¬ In p sex)
  ∧ Preprocessing.n_probes_after_qc r = length (Preprocessing.f_index betas_qc)
  ∧ Preprocessing.n_samples_after_qc r
    = length (Preprocessing.f_columns betas_qc)
  ∧ (Preprocessing.sex_cpgs_removed r = true ↔ ∃ sex, sex_cpgs = Ret sex).
Proof.
  intros betas_qc detP_qc. subst betas_qc detP_qc. revert Hqc.
  unfold Preprocessing.quality_control.
  set (good := map _ (seq 0 (length (Preprocessing.f_columns detP)))).
  destruct (existsb Datatypes.id good) eqn:Hgood; [| done]. simpl negb.
  cbv iota.
  set (b1 := Preprocessing.select_columns good betas).
  set (d1 := Preprocessing.select_columns good detP).
  set (kp := fun r : string * list (option Q) =>
               forallb (Preprocessing.below det_p_threshold) (snd r)).
  set (b2 := Preprocessing.select_rows (map kp (Preprocessing.f_rows d1)) b1).
  set (d2 := Preprocessing.select_rows (map kp (Preprocessing.f_rows d1)) d1).
  set (cp := fun r : string * list (option Q) =>
               forallb (fun x : option Q => bool_decide (is_Some x)) (snd r)).
  set (b3 := Preprocessing.select_rows (map cp (Preprocessing.f_rows b2)) b2).
  set (d3 := Preprocessing.select_rows (map cp (Preprocessing.f_rows b2)) d2).
  set (cg := fun r : string * list (option Q) => String.prefix "cg" (fst r)).
  set (b4 := Preprocessing.select_rows (map cg (Preprocessing.f_rows b3)) b3).
  set (d4 := Preprocessing.select_rows (map cg (Preprocessing.f_rows b3)) d3).
  assert (Preprocessing.aligned b4 d4) as Hal4
    by (do 3 apply aligned_select_rows; by apply aligned_select_columns).
  assert (Preprocessing.rectangular b4) as Hrb4
    by (do 3 apply rectangular_select_rows;
        by apply rectangular_select_columns).
  assert (Preprocessing.rectangular d4) as Hrd4
    by (do 3 apply rectangular_select_rows;
        by apply rectangular_select_columns).
  assert (Preprocessing.f_columns b4 ≠ []) as Hne.
  { simpl. apply select_nonempty; [| done].
    unfold good. rewrite length_map, length_seq. by destruct Haligned as [-> _]. }
  assert (sublist (Preprocessing.f_columns b4) (Preprocessing.f_columns betas))
    as Hcols by apply select_sublist.
  assert (sublist (Preprocessing.f_index b4) (Preprocessing.f_index betas))
    as Hidx.
  { etrans; [apply sublist_select_rows |].
    etrans; [apply sublist_select_rows |].
    etrans; [apply sublist_select_rows |].
    unfold b1. by rewrite f_index_select_columns. }
  assert (∀ row x, In row (Preprocessing.f_rows d4) → In x (snd row) →
                   ∃ q, x = Some q ∧ (q < det_p_threshold)%Q) as Hdet.
  { intros row x Hrow Hx.
    do 2 apply select_rows_In in Hrow.
    unfold d2 in Hrow. rewrite select_rows_self in Hrow.
    apply filter_In in Hrow as [_ Hkp]. unfold kp in Hkp.
    rewrite forallb_forall in Hkp. specialize (Hkp x Hx).
    destruct x as [q|]; [| done]. exists q. split; [done |].
    by apply Qlt_bool_iff. }
  assert (∀ row x, In row (Preprocessing.f_rows b4) → In x (snd row) →
                   is_Some x) as Hbeta.
  { intros row x Hrow Hx.
    apply select_rows_In in Hrow.
    unfold b3 in Hrow. rewrite select_rows_self in Hrow.
    apply filter_In in Hrow as [_ Hcp]. unfold cp in Hcp.
    rewrite forallb_forall in Hcp. specialize (Hcp x Hx).
    by apply bool_decide_eq_true in Hcp. }
  assert (∀ p, In p (Preprocessing.f_index b4) → String.prefix "cg" p = true)
    as Hcg.
  { intros p [row [<- Hrow]]%in_map_iff.
    unfold b4 in Hrow. rewrite select_rows_self in Hrow.
    by apply filter_In in Hrow as [_ Hrow]. }
  destruct sex_cpgs as [msg|sex].
  - intros [= <-].
    cbn [Preprocessing.betas_qc Preprocessing.detP_qc
         Preprocessing.n_probes_after_qc Preprocessing.n_samples_after_qc
         Preprocessing.sex_cpgs_removed].
    split_and!; try done.
    + intros p Hp. split; [by apply Hcg | done].
    + unfold Preprocessing.f_index. by rewrite length_map.
    + split; [done | by intros [? ?]].
  - set (ns := fun r : string * list (option Q) =>
                 negb (existsb (String.eqb (fst r)) sex)).
    intros [= <-].
    cbn [Preprocessing.betas_qc Preprocessing.detP_qc
         Preprocessing.n_probes_after_qc Preprocessing.n_samples_after_qc
         Preprocessing.sex_cpgs_removed].
    split_and!.
    + by apply aligned_select_rows.
    + by apply rectangular_select_rows.
    + by apply rectangular_select_rows.
    + done.
    + done.
    + etrans; [apply sublist_select_rows | done].
    + intros row x Hrow. apply Hdet. by apply select_rows_In in Hrow.
    + intros row x Hrow. apply Hbeta. by apply select_rows_In in Hrow.
    + intros p Hp. split.
      * apply Hcg. apply in_map_iff in Hp as [row [<- Hrow]].
        apply select_rows_In in Hrow. by apply in_map.
      * intros ? [= <-]. apply in_map_iff in Hp as [row [<- Hrow]].
        cbn [Preprocessing.f_rows Preprocessing.select_rows] in Hrow.
        rewrite select_map_self in Hrow.
        apply filter_In in Hrow as [_ Hns]. unfold ns in Hns.
        apply negb_true_iff in Hns. intros Hin.
        apply existsb_eqb_In in Hin. congruence.
    + unfold Preprocessing.f_index. by rewrite length_map.
    + done.
    + split; [eauto | done].
Qed.

Lemma quality_control_postconditions_witness :
  let betas :=
    {| Preprocessing.f_columns := ["s1"; "s2"];
       Preprocessing.f_rows :=
         [ ("cg1", [Some (1 # 2); Some (3 # 5)]);
           ("cg2", [Some (1 # 10); None]);
           ("rs1", [Some (1 # 2); Some (1 # 2)]);
           ("cgX", [Some (1 # 2); Some (1 # 2)]);
           ("cg3", [Some (1 # 2); Some (1 # 2)]) ] |} in
  let detP :=
    {| Preprocessing.f_columns := ["s1"; "s2"];
       Preprocessing.f_rows :=
         [ ("cg1", [Some (1 # 100); Some (1 # 100)]);
           ("cg2", [Some (1 # 100); Some (1 # 100)]);
           ("rs1", [Some (1 # 100); Some (1 # 100)]);
           ("cgX", [Some (1 # 100); Some (1 # 100)]);
           ("cg3", [Some (1 # 100); Some (6 # 100)]) ] |} in
  ∃ r,
    Preprocessing.quality_control (Ret ["cgX"]) betas detP (1 # 20) = Ret r
    ∧ Preprocessing.f_index (Preprocessing.betas_qc r) = ["cg1"]
    ∧ Preprocessing.aligned (Preprocessing.betas_qc r)
        (Preprocessing.detP_qc r).
Proof.
  intros betas detP. eexists. split; [reflexivity |]. split; [reflexivity |].
  refine (proj1 (quality_control_postconditions (Ret ["cgX"]) betas detP
                   (1 # 20) _ _ _ _ eq_refl)).
  - split; reflexivity.
  - repeat constructor.
  - repeat constructor.
Defined.

(** ** The JSON object in the answer of the model *)

Section NormalizeJson.
Import Core.
Implicit Types (s t p body : string) (c : ascii).

Lemma append_nil t : EmptyString +:+ t = t.
Proof. reflexivity. Qed.

Lemma append_cons c s t : String c s +:+ t = String c (s +:+ t).
Proof. reflexivity. Qed.

Lemma isspace_strip_head c s :
  isspace c = false → lstrip (String c s) = String c s.
Proof. simpl. by intros ->. Qed.

Lemma rstrip_app_r s t :
  rstrip t ≠ EmptyString → rstrip (s +:+ t) = s +:+ rstrip t.
Proof.
  intros Ht. induction s as [|a s IH]; [reflexivity |].
  rewrite !append_cons. cbn [rstrip]. rewrite IH.
  destruct (s +:+ rstrip t) eqn:Hs; [| done].
  destruct s; [| done]. rewrite append_nil in Hs. done.
Qed.

Lemma rstrip_app_space s t :
  rstrip t = EmptyString → rstrip (s +:+ t) = rstrip s.
Proof.
  intros Ht. induction s as [|a s IH]; [by rewrite append_nil |].
  rewrite append_cons. cbn [rstrip]. by rewrite IH.
Qed.

Lemma lstrip_app_space s t :
  lstrip s = EmptyString → lstrip (s +:+ t) = lstrip t.
Proof.
  induction s as [|a s IH]; [reflexivity |].
  rewrite append_cons. cbn [lstrip].
  destruct (isspace a); [done | by intros [=]].
Qed.

Lemma rstrip_last s c :
  isspace c = false →
  rstrip (s +:+ String c EmptyString) = s +:+ String c EmptyString.
Proof.
  intros Hc. rewrite rstrip_app_r; simpl; rewrite Hc; done.
Qed.

Lemma length_append s t :
  String.length (s +:+ t) = String.length s + String.length t.
Proof.
  induction s as [|a s IH]; [reflexivity |].
  rewrite append_cons. simpl. by rewrite IH.
Qed.

Lemma str_drop_app s t : str_drop (String.length s) (s +:+ t) = t.
Proof.
  induction s as [|a s IH]; [by destruct t |].
  rewrite append_cons. simpl. done.
Qed.

Lemma str_take_app s t : str_take (String.length s) (s +:+ t) = s.
Proof.
  induction s as [|a s IH]; [by destruct t |].
  rewrite append_cons. simpl. by rewrite IH.
Qed.

Lemma prefix_app_self p t : String.prefix p (p +:+ t) = true.
Proof.
  induction p as [|a p IH]; [rewrite append_nil; by destruct t |].
  rewrite append_cons. simpl. by destruct (ascii_dec a a).
Qed.

(** A match of [p] cannot end in a text that begins with a character that
    [p] does not have. *)
Lemma prefix_app_other p s c t :
  ¬ In c (list_ascii_of_string p) →
  String.prefix p (s +:+ String c t) = String.prefix p s.
Proof.
  revert s. induction p as [|a p IH]; intros s Hc; [by destruct s |].
  simpl in Hc. destruct s as [|b s].
  - rewrite append_nil. simpl.
    destruct (ascii_dec a c) as [->|]; [tauto | done].
  - rewrite append_cons. simpl.
    destruct (ascii_dec a b); [| done]. apply IH. tauto.
Qed.

Lemma str_contains_app_other p s c t :
  ¬ In c (list_ascii_of_string p) →
  str_contains p (String c t) = false →
  str_contains p (s +:+ String c t) = str_contains p s.
Proof.
  intros Hc Ht. induction s as [|b s IH].
  - rewrite append_nil, Ht. destruct p; [done |]. done.
  - rewrite append_cons. cbn [str_contains]. rewrite IH. f_equal.
    rewrite <- append_cons. by apply prefix_app_other.
Qed.

Lemma remove_think_none s :
  str_contains "<think>" s = false → remove_think_from 0 s = s.
Proof.
  induction s as [|a s IH]; [done |].
  cbn [str_contains remove_think_from]. intros [Hp Hs]%orb_false_iff.
  rewrite Hp. by rewrite IH.
Qed.

Lemma remove_think_skip s t :
  remove_think_from (String.length s) (s +:+ t) = remove_think_from 0 t.
Proof.
  induction s as [|a s IH]; [reflexivity |].
  rewrite append_cons. simpl. done.
Qed.

Lemma str_contains_head p c s :
  str_contains p (String c s) = false →
  String.prefix p (String c s) = false ∧ str_contains p s = false.
Proof. cbn [str_contains]. by intros ?%orb_false_iff. Qed.

Lemma prefix_empty t : String.prefix EmptyString t = true.
Proof. by destruct t. Qed.

Lemma prefix_cons a p b s :
  String.prefix (String a p) (String b s)
  = if ascii_dec a b then String.prefix p s else false.
Proof. reflexivity. Qed.

Lemma find_char_app c s t :
  find (String c EmptyString) s = None →
  find (String c EmptyString) (s +:+ String c t) = Some (String.length s).
Proof.
  induction s as [|a s IH].
  - intros _. rewrite append_nil. simpl.
    destruct (ascii_dec c c); [| done]. by rewrite prefix_empty.
  - rewrite append_cons. simpl. rewrite !prefix_empty.
    destruct (ascii_dec c a); [done |].
    destruct (find (String c EmptyString) s); [done |]. intros _.
    by rewrite IH.
Qed.

Lemma find_prefix p t : String.prefix p t = true → find p t = Some 0.
Proof. destruct t; simpl; by intros ->. Qed.

(** A closing tag that begins inside a text [r] and is complete within [r]
    followed by a closing tag is complete within [r]: the tag does not
    overlap itself. *)
Lemma prefix_close_tag r t :
  r ≠ EmptyString →
  String.prefix "</think>" (r +:+ "</think>" +:+ t)
  = String.prefix "</think>" r.
Proof.
  intros Hne. destruct r as [|c r]; [done |]. clear Hne.
  rewrite append_cons, !prefix_cons.
  destruct (ascii_dec "<" c) as [<-|]; [| done].
  do 7 (destruct r as [|c r];
        [ rewrite append_nil, append_cons, prefix_cons;
          match goal with
          | |- context [ascii_dec ?a ?b] =>
              destruct (ascii_dec a b) as [Heq|]; [discriminate Heq | done]
          end
        | rewrite append_cons, !prefix_cons;
          match goal with
          | |- context [ascii_dec ?a c] =>
              destruct (ascii_dec a c) as [<-|]; [| done]
          end ]).
  by rewrite !prefix_empty.
Qed.

(** The first closing tag after a text that holds none. *)
Lemma find_close_tag s t :
  str_contains "</think>" s = false →
  find "</think>" (s +:+ "</think>" +:+ t) = Some (String.length s).
Proof.
  induction s as [|a s IH].
  - intros _. rewrite append_nil. apply find_prefix, prefix_app_self.
  - intros [Hp Hs]%str_contains_head.
    assert (String a s ≠ EmptyString) as Hne by done.
    pose proof (prefix_close_tag (String a s) t Hne) as Hc.
    rewrite Hp in Hc. rewrite append_cons in Hc |- *.
    cbn [find]. rewrite Hc. by rewrite (IH Hs).
Qed.

Lemma rfind_fence s : rfind "```" (s +:+ "```") = Some (String.length s).
Proof.
  induction s as [|a s IH]; [reflexivity |].
  rewrite append_cons. cbn [rfind]. by rewrite IH.
Qed.

Lemma endswith_app s t : endswith t (s +:+ t) = true.
Proof.
  induction s as [|a s IH].
  - rewrite append_nil. destruct t; simpl; [done |].
    by rewrite Ascii.eqb_refl, String.eqb_refl.
  - rewrite append_cons. cbn [endswith]. rewrite IH. apply orb_true_r.
Qed.

End NormalizeJson.

Section Unwrap.
Import Core.
Implicit Types (s t p body : string) (c : ascii).

Lemma append_assoc s t u : (s +:+ t) +:+ u = s +:+ t +:+ u.
Proof.
  induction s as [|a s IH]; [reflexivity |].
  rewrite !append_cons. by rewrite IH.
Qed.

Lemma append_nonempty_r s t : t ≠ EmptyString → s +:+ t ≠ EmptyString.
Proof. destruct s; [by rewrite append_nil | by rewrite append_cons]. Qed.

Lemma rstrip_fixed_app s t :
  rstrip t = t → t ≠ EmptyString → rstrip (s +:+ t) = s +:+ t.
Proof. intros Ht Hne. rewrite rstrip_app_r; rewrite Ht; done. Qed.

Lemma str_contains_skip a p b s :
  a ≠ b →
  str_contains (String a p) (String b s) = str_contains (String a p) s.
Proof.
  intros Hne. cbn [str_contains]. rewrite prefix_cons.
  by destruct (ascii_dec a b).
Qed.

Lemma find_skip a p b s :
  a ≠ b → find (String a p) (String b s) = S <$> find (String a p) s.
Proof.
  intros Hne. cbn [find]. rewrite prefix_cons.
  by destruct (ascii_dec a b).
Qed.

Lemma str_drop_app_cons s c t :
  str_drop (String.length s + 1) (s +:+ String c t) = t.
Proof.
  induction s as [|a s IH]; [by destruct t |].
  rewrite append_cons. simpl. done.
Qed.

Lemma str_contains_space_app s t :
  lstrip s = EmptyString →
  str_contains "<think>" (s +:+ t) = str_contains "<think>" t.
Proof.
  induction s as [|a s IH]; [reflexivity |].
  rewrite append_cons. cbn [lstrip].
  destruct (isspace a) eqn:Ha; [| by intros [=]]. intros Hs.
  rewrite str_contains_skip; [by apply IH |].
  intros <-. done.
Qed.

(** The object, written with its braces apart. *)
Lemma object_eq body :
  "{" +:+ body +:+ "}" = String "{" (body +:+ String "}" EmptyString).
Proof. reflexivity. Qed.

Lemma strip_object body : strip ("{" +:+ body +:+ "}") = "{" +:+ body +:+ "}".
Proof.
  rewrite object_eq. unfold strip. rewrite isspace_strip_head by done.
  rewrite <- append_cons. by apply rstrip_last.
Qed.

Lemma str_contains_object body t :
  str_contains "<think>" body = false →
  str_contains "<think>" (String "}" t) = false →
  str_contains "<think>" (String "{" (body +:+ String "}" t)) = false.
Proof.
  intros Hbody Ht. rewrite str_contains_skip by done.
  rewrite str_contains_app_other; [done | | done].
  simpl. intros [?|[?|[?|[?|[?|[?|[?|[]]]]]]]]; done.
Qed.

Lemma strip_fences_object body :
  strip_fences ("{" +:+ body +:+ "}") = "{" +:+ body +:+ "}".
Proof. by rewrite object_eq. Qed.

Lemma strip_json_prefix_object body :
  strip_json_prefix ("{" +:+ body +:+ "}") = "{" +:+ body +:+ "}".
Proof. by rewrite object_eq. Qed.

Lemma extract_object_object body :
  extract_object ("{" +:+ body +:+ "}") = "{" +:+ body +:+ "}".
Proof.
  unfold extract_object.
  assert (String.prefix "{" ("{" +:+ body +:+ "}") = true) as ->
    by apply prefix_app_self.
  assert (endswith "}" ("{" +:+ body +:+ "}") = true) as ->.
  { rewrite <- append_assoc. apply endswith_app. }
  done.
Qed.

(** The steps after the removal of the reasoning blocks leave an object as
    it is. *)
Lemma normalize_after_think text body :
  strip (remove_think_from 0 (strip text)) = "{" +:+ body +:+ "}" →
  _normalize_json text = "{" +:+ body +:+ "}".
Proof.
  unfold _normalize_json. intros ->.
  by rewrite strip_fences_object, strip_json_prefix_object, strip_object,
    extract_object_object.
Qed.

End Unwrap.

Section Fences.
Import Core.
Implicit Types (s t p body lang reasoning space : string) (c : ascii).

Lemma rstrip_object body : rstrip ("{" +:+ body +:+ "}") = "{" +:+ body +:+ "}".
Proof. rewrite <- append_assoc. by apply rstrip_last. Qed.

Lemma lstrip_object body : lstrip ("{" +:+ body +:+ "}") = "{" +:+ body +:+ "}".
Proof. by rewrite object_eq. Qed.

Lemma object_nonempty body : "{" +:+ body +:+ "}" ≠ EmptyString.
Proof. by rewrite object_eq. Qed.

Lemma str_contains_think_object body :
  str_contains "<think>" body = false →
  str_contains "<think>" ("{" +:+ body +:+ "}") = false.
Proof. intros Hbody. rewrite object_eq. by apply str_contains_object. Qed.

(** A reasoning block in front of a text is removed with its tags. *)
Lemma remove_think_block reasoning t :
  str_contains "</think>" reasoning = false →
  remove_think_from 0 ("<think>" +:+ reasoning +:+ "</think>" +:+ t)
  = remove_think_from 0 t.
Proof.
  intros Hr.
  change ("<think>" +:+ reasoning +:+ "</think>" +:+ t)
    with (String "<" ("think>" +:+ reasoning +:+ "</think>" +:+ t)).
  cbn [remove_think_from].
  change (String "<" ("think>" +:+ reasoning +:+ "</think>" +:+ t))
    with ("<think>" +:+ reasoning +:+ "</think>" +:+ t).
  rewrite prefix_app_self.
  rewrite (str_drop_app "<think>"), find_close_tag by done.
  replace (6 + String.length reasoning + 8)
    with (String.length ("think>" +:+ reasoning +:+ "</think>"))
    by (rewrite !length_append; simpl; lia).
  rewrite <- (remove_think_skip ("think>" +:+ reasoning +:+ "</think>") t).
  by rewrite !append_assoc.
Qed.

Lemma find_LF_fence lang t :
  find LF lang = None →
  find LF ("```" +:+ lang +:+ LF +:+ t) = Some (3 + String.length lang).
Proof.
  intros Hlang.
  change ("```" +:+ lang +:+ LF +:+ t)
    with (String "`" (String "`" (String "`" (lang +:+ LF +:+ t)))).
  unfold LF in *. rewrite !find_skip by done.
  change (String (ascii_of_nat 10) EmptyString +:+ t)
    with (String (ascii_of_nat 10) t).
  by rewrite find_char_app.
Qed.

Lemma str_drop_fence lang t :
  str_drop (3 + String.length lang + 1) ("```" +:+ lang +:+ LF +:+ t) = t.
Proof.
  change ("```" +:+ lang +:+ LF +:+ t)
    with (String "`" (String "`" (String "`"
            (lang +:+ String (ascii_of_nat 10) t)))).
  replace (3 + String.length lang + 1)
    with (S (S (S (String.length lang + 1)))) by lia.
  cbn [str_drop]. apply str_drop_app_cons.
Qed.

Lemma strip_fences_fenced lang body :
  find LF lang = None →
  strip_fences ("```" +:+ lang +:+ LF +:+ ("{" +:+ body +:+ "}") +:+ LF +:+ "```")
  = "{" +:+ body +:+ "}".
Proof.
  intros Hlang. unfold strip_fences.
  rewrite prefix_app_self, find_LF_fence by done.
  cbv zeta. rewrite str_drop_fence.
  rewrite <- (append_assoc ("{" +:+ body +:+ "}") LF).
  rewrite rfind_fence, str_take_app.
  rewrite rstrip_app_space by done. apply rstrip_object.
Qed.

End Fences.

(** X14. [_normalize_json] recovers a JSON object [{...}] that holds no
    "<think>" tag from the three wrappings that the code provides for: the
    object alone; the object in a Markdown code fence, whatever the language
    tag on the opening line; the object after a reasoning block
    [<think>...</think>] and white space, whatever the reasoning says up to
    its closing tag (other tags and a second "<think>" included). *)
Theorem normalize_json_unwraps (body lang reasoning space : string)
    (Hbody : str_contains "<think>" body = false)
    (Hlang : Core.find Core.LF lang = None)
    (Hlang' : str_contains "<think>" lang = false)
    (Hreasoning : str_contains "</think>" reasoning = false)
    (Hspace : lstrip space = EmptyString) :
  let object := "{" +:+ body +:+ "}" in
  Core._normalize_json object = object
  ∧ Core._normalize_json
      ("```" +:+ lang +:+ Core.LF +:+ object +:+ Core.LF +:+ "```")
    = object
  ∧ Core._normalize_json
      ("<think>" +:+ reasoning +:+ "</think>" +:+ space +:+ object)
    = object.
Proof.
  intros object. subst object. split_and!.
  - apply normalize_after_think.
    rewrite strip_object, remove_think_none
      by (by apply str_contains_think_object).
    apply strip_object.
  - unfold Core._normalize_json.
    set (fenced := "```" +:+ lang +:+ Core.LF +:+ ("{" +:+ body +:+ "}")
                   +:+ Core.LF +:+ "```").
    assert (strip fenced = fenced) as Hstrip.
    { unfold strip.
      assert (lstrip fenced = fenced) as -> by done.
      unfold fenced.
      do 4 (apply rstrip_fixed_app; [| repeat apply append_nonempty_r; done]).
      done. }
    assert (str_contains "<think>" fenced = false) as Hthink.
    { unfold fenced.
      change ("```" +:+ lang +:+ Core.LF +:+ ("{" +:+ body +:+ "}")
              +:+ Core.LF +:+ "```")
        with (String "`" (String "`" (String "`"
                (lang +:+ String (ascii_of_nat 10)
                   (("{" +:+ body +:+ "}") +:+ Core.LF +:+ "```"))))).
      rewrite !str_contains_skip by done.
      rewrite str_contains_app_other; [done | |].
      - simpl. intros [?|[?|[?|[?|[?|[?|[?|[]]]]]]]]; done.
      - rewrite str_contains_skip by done.
        rewrite !append_assoc.
        change ("{" +:+ body +:+ "}" +:+ Core.LF +:+ "```")
          with (String "{" (body +:+ String "}" (Core.LF +:+ "```"))).
        by apply str_contains_object. }
    rewrite Hstrip, remove_think_none, Hstrip by done.
    unfold fenced. rewrite strip_fences_fenced by done.
    by rewrite strip_json_prefix_object, strip_object, extract_object_object.
  - apply normalize_after_think.
    set (text := "<think>" +:+ reasoning +:+ "</think>" +:+ space
                 +:+ "{" +:+ body +:+ "}").
    assert (strip text = text) as ->.
    { unfold strip.
      assert (lstrip text = text) as -> by done.
      unfold text.
      do 4 (apply rstrip_fixed_app;
            [| repeat first [apply object_nonempty | apply append_nonempty_r]]).
      apply rstrip_object. }
    unfold text. rewrite remove_think_block by done.
    rewrite remove_think_none.
    + unfold strip. rewrite lstrip_app_space by done.
      by rewrite lstrip_object, rstrip_object.
    + rewrite str_contains_space_app by done.
      by apply str_contains_think_object.
Qed.

Lemma normalize_json_unwraps_witness :
  Core._normalize_json
    ("```json" +:+ Core.LF +:+ "{a: 1}" +:+ Core.LF +:+ "```") = "{a: 1}"
  ∧ Core._normalize_json
      ("<think>if a<b, <i>plan</i> <think> twice</think> {a: 1}")
    = "{a: 1}".
Proof.
  split.
  - exact (proj1 (proj2 (normalize_json_unwraps "a: 1" "json"
                           "if a<b, <i>plan</i> <think> twice" " "
                           eq_refl eq_refl eq_refl eq_refl eq_refl))).
  - exact (proj2 (proj2 (normalize_json_unwraps "a: 1" "json"
                           "if a<b, <i>plan</i> <think> twice" " "
                           eq_refl eq_refl eq_refl eq_refl eq_refl))).
Defined.

(** ** The extraction of the outermost object *)

Section Extract.
Import Core.
Implicit Types (s t p : string) (c : ascii).

Lemma str_take_drop n s : s = str_take n s +:+ str_drop n s.
Proof.
  revert n. induction s as [|a s IH]; intros [|n]; try reflexivity.
  cbn [str_take str_drop]. rewrite append_cons. by rewrite <- IH.
Qed.

Lemma find_brace s k :
  find "{" s = Some k →
  str_contains "{" (str_take k s) = false
  ∧ String.prefix "{" (str_drop k s) = true.
Proof.
  revert k. induction s as [|b s IH]; intros k; [done |].
  cbn [find]. rewrite prefix_cons, prefix_empty.
  destruct (ascii_dec "{" b) as [<-|Hne].
  - intros [= <-]. split; [done |]. cbn [str_drop].
    rewrite prefix_cons, prefix_empty. by destruct (ascii_dec "{" "{").
  - destruct (find "{" s) as [k'|] eqn:Hf; [| done]. intros [= <-].
    destruct (IH k' eq_refl) as [Hpre Hrest]. split; [| done].
    cbn [str_take]. by rewrite str_contains_skip.
Qed.

Lemma object_end_take depth s n :
  object_end depth s = Some n →
  0 < n ∧ endswith "}" (str_take n s) = true.
Proof.
  revert depth n. induction s as [|a s IH]; intros depth n; [done |].
  cbn [object_end].
  assert (∀ d, S <$> object_end d s = Some n →
               0 < n ∧ endswith "}" (str_take n (String a s)) = true) as Hrec.
  { intros d Hd. destruct (object_end d s) as [n'|] eqn:Hn'; [| done].
    injection Hd as <-. destruct (IH d n' Hn') as [_ Hend].
    split; [lia |]. cbn [str_take endswith]. rewrite Hend. apply orb_true_r. }
  destruct (Ascii.eqb a "{"); [apply Hrec |].
  destruct (Ascii.eqb a "}") eqn:Ha; [| apply Hrec].
  destruct (depth - 1 =? 0)%Z; [| apply Hrec].
  intros [= <-]. apply Ascii.eqb_eq in Ha as ->. split; [lia |].
  by destruct s.
Qed.

End Extract.

(** X15. The extraction step of [_normalize_json] never makes text up: it
    returns the text as it is, or a part of it that starts at the first
    opening brace of the text, starts with "{" and ends with "}". *)
Theorem extract_object_is_part_of_the_text (s : string) :
  let r := Core.extract_object s in
  r = s
  ∨ ∃ before after,
      s = before +:+ r +:+ after
      ∧ str_contains "{" before = false
      ∧ String.prefix "{" r = true
      ∧ Core.endswith "}" r = true.
Proof.
  intros r. subst r. unfold Core.extract_object.
  destruct (String.prefix "{" s && Core.endswith "}" s); [by left |].
  destruct (Core.find "{" s) as [start|] eqn:Hstart; [| by left].
  destruct (Core.object_end 0 (Core.str_drop start s)) as [n|] eqn:Hn;
    [| by left].
  right.
  destruct (find_brace s start Hstart) as [Hbefore Hbrace].
  destruct (object_end_take 0 _ n Hn) as [Hpos Hend].
  exists (Core.str_take start s), (Core.str_drop n (Core.str_drop start s)).
  split_and!.
  - rewrite <- str_take_drop. apply str_take_drop.
  - done.
  - destruct (Core.str_drop start s) as [|a rest]; [done |].
    destruct n as [|n]; [lia |]. cbn [Core.str_take].
    by rewrite prefix_cons, prefix_empty in Hbrace |- *.
  - done.
Qed.

(** ** The analysis endpoint *)

Section Analyze.
Import Core.

Lemma make_request_default reply :
  ∃ k,
    0 < k ≤ 3
    ∧ fst (_make_request reply 3) = schedule 0 k
    ∧ seconds_slept (fst (_make_request reply 3)) = 2 ^ (k - 1) - 1.
Proof.
  unfold _make_request.
  destruct (attempts_from_spec reply 3 0 (Z.to_nat 3) "Unknown error" []
              eq_refl) as (k & Hk & Hlog & _ & Hres).
  exists k. rewrite Hlog. simpl app.
  assert (0 < k) as Hpos.
  { destruct (snd (attempts_from reply 3 _ _ _)).
    - destruct Hres as [-> _]. simpl. lia.
    - by destruct Hres. }
  split_and!; [done | simpl in Hk; lia | done |].
  destruct k as [|k]; [lia |].
  pose proof (seconds_slept_schedule 0 k) as Hs. simpl in Hs.
  replace (S k - 1) with k by lia. simpl. lia.
Qed.

Lemma schedule_nonempty i k : 0 < k → schedule i k ≠ [].
Proof. destruct k as [|[|k]]; [lia | done | done]. Qed.

Lemma parse_response_sound data mappings steps :
  _parse_response data = Ret (mappings, steps) →
  (∀ k v, (k, v) ∈ mappings → keep_mapping v = true)
  ∧ (∀ s, s ∈ steps → s ∈ KNOWN_STEPS).
Proof.
  unfold _parse_response. destruct data as [| | | | | |d]; try done.
  unfold mbind, Exc_bind.
  destruct (get_dict d "column_mappings") as [|raw]; [done |].
  destruct (get_dict d "workflow") as [|workflow]; [done |].
  destruct (iterate_steps _) as [|suggested]; [done |].
  destruct (mapM known_tool suggested) as [|tools] eqn:Htools; [done |].
  intros [= <- <-]. split.
  - by intros k v [_ Hk]%list_elem_of_In%filter_In.
  - intros s. rewrite (mapM_known_tool _ _ Htools).
    intros [_ Hk]%list_elem_of_In%filter_In. by apply is_known_iff.
Qed.

End Analyze.

(** X16. POST /analyze answers 404 when the user has no project, 500 when
    the server has no key and 500 with the message of the exception when the
    sample sheet cannot be read, each time without a request to the model.
    Otherwise it sends the requests of [_make_request], between one and
    three, and sleeps at most 3 seconds; it answers 500 with the message
    when the exchange fails, when the answer is not JSON and when
    [_parse_response] raises, 422 when no column mapping is left, and else
    the column mappings, of which there is at least one and which all passed
    the filter of [_parse_response], with workflow steps of the vocabulary
    only. *)
Theorem analyze_outcomes (_OPENAI_API_KEY env_key : string)
    (meta : option Main.Meta) (summary : Exc string)
    (json_loads : string → Exc value) (reply : nat → Core.Reply) :
  let run :=
    Main.analyze _OPENAI_API_KEY env_key meta summary json_loads reply in
  let exchange := Core._make_request reply 3 in
  let http code text :=
    inl {| Main.status_code := code; Main.detail := text |}
    : Main.HTTPException + pydict value * list string in
  (meta = None →
   run = ([], http 404 "No uploaded project found for this user. Please upload files first."))
  ∧ (is_Some meta → _OPENAI_API_KEY = EmptyString →
     run = ([], http 500 "Server misconfiguration: OPENAI_API_KEY is not set."))
  ∧ (is_Some meta → _OPENAI_API_KEY ≠ EmptyString →
     ∀ msg, summary = Raise msg → run = ([], http 500 msg))
  ∧ (is_Some meta → _OPENAI_API_KEY ≠ EmptyString →
     (∃ text, summary = Ret text) →
     fst run = fst exchange
     ∧ (∃ k, 0 < k ≤ 3 ∧ fst run = Core.schedule 0 k
             ∧ Core.seconds_slept (fst run) ≤ 3)
     ∧ match snd exchange with
       | Raise msg => snd run = http 500 msg
       | Ret answer =>
           match json_loads (Core._normalize_json answer) with
           | Raise exc =>
               snd run = http 500 ("AI returned invalid JSON: " +:+ exc)
           | Ret data =>
               match Core._parse_response data with
               | Raise msg => snd run = http 500 msg
               | Ret ([], _) =>
                   snd run
                   = http 422 "AI could not extract column mappings from the samplesheet. Please check the samplesheet format and try a more descriptive prompt."
               | Ret (column_mappings, workflow_steps) =>
                   snd run = inr (column_mappings, workflow_steps)
                   ∧ column_mappings ≠ []
                   ∧ (∀ k v, (k, v) ∈ column_mappings →
                             Core.keep_mapping v = true)
                   ∧ (∀ s, s ∈ workflow_steps → s ∈ Core.KNOWN_STEPS)
               end
           end
       end).
Proof.
  intros run exchange http. subst run exchange http. unfold Main.analyze.
  destruct meta as [meta|].
  2: { split_and!; [done | by intros [? [=]] | by intros [? [=]]
                    | by intros [? [=]]]. }
  destruct (String.eqb _OPENAI_API_KEY EmptyString) eqn:Hkey.
  { apply String.eqb_eq in Hkey as ->. split_and!; done. }
  apply String.eqb_neq in Hkey.
  destruct summary as [msg|text].
  { split_and!; [done | done | by intros _ _ ? [= <-] | by intros _ _ [? [=]]]. }
  split_and!; [done | done | by intros _ _ ? [=] |]. intros _ _ _.
  unfold Core.analyze_samplesheet, Core.ai_api_key.
  rewrite (proj2 (String.eqb_neq _ _) Hkey).
  rewrite (proj2 (String.eqb_neq _ _) Hkey).
  destruct (make_request_default reply) as (k & Hk & Hlog & Hslept).
  destruct (Core._make_request reply 3) as [log raw]. simpl in Hlog, Hslept.
  assert (∃ k, 0 < k ≤ 3 ∧ log = Core.schedule 0 k
               ∧ Core.seconds_slept log ≤ 3) as Hrun.
  { exists k. split_and!; [lia | lia | done |]. rewrite Hslept.
    destruct Hk as [? ?].
    destruct k as [|[|[|[|k]]]]; simpl; lia. }
  destruct raw as [msg|answer]; simpl; [done |].
  unfold Core._parse_response_text.
  destruct (json_loads _) as [exc|data]; [done |].
  destruct (Core._parse_response data) as [msg|[mappings steps]] eqn:Hparse;
    [done |].
  destruct (parse_response_sound data mappings steps Hparse) as [Hm Hs].
  destruct mappings as [|kv mappings]; simpl; [done |].
  split; [done |]. split; [done |]. split; [done |]. split; [done |].
  by split.
Qed.

(** ** The row of a sample in the sample sheet *)

Section TargetRow.
Import Analysis.

Lemma position_None_iff {A} (test : A → bool) (l : list A) :
  position test l = None ↔ ∀ x, In x l → test x = false.
Proof.
  induction l as [|x l IH]; simpl; [by split |].
  destruct (test x) eqn:Hx.
  - split; [done |]. intros Hall. specialize (Hall x (or_introl eq_refl)).
    congruence.
  - destruct (position test l) as [i|]; simpl.
    + split; [done |]. intros Hall.
      assert (Some i = None) as [=]. apply IH. auto.
    + split; [| done]. intros _ y [<-|Hy]; [done |]. by apply IH.
Qed.

Lemma position_first {A} (test : A → bool) (l : list A) i :
  position test l = Some i →
  (∃ x, l !! i = Some x ∧ test x = true)
  ∧ ∀ j y, j < i → l !! j = Some y → test y = false.
Proof.
  revert i. induction l as [|x l IH]; intros i; simpl; [done |].
  destruct (test x) eqn:Hx.
  - intros [= <-]. split; [eauto | intros; lia].
  - destruct (position test l) as [i'|]; simpl; [| done]. intros [= <-].
    destruct (IH i' eq_refl) as [Hi Hbefore]. split; [done |].
    intros [|j] y Hj; simpl; [by intros [= <-] |].
    apply Hbefore. lia.
Qed.

Lemma prefix_refl (s : string) : String.prefix s s = true.
Proof.
  induction s as [|a s IH]; [done |].
  rewrite prefix_cons. by destruct (ascii_dec a a).
Qed.

Lemma str_contains_refl (s : string) : str_contains s s = true.
Proof.
  destruct s as [|a s]; [done |]. cbn [str_contains]. by rewrite prefix_refl.
Qed.

Lemma position_is {A} (test : A → bool) (l : list A) pos x :
  l !! pos = Some x → test x = true →
  (∀ j y, j < pos → l !! j = Some y → test y = false) →
  position test l = Some pos.
Proof.
  revert pos. induction l as [|a l IH]; intros [|pos]; simpl; try done.
  - by intros [= ->] ->.
  - intros Hx Htest Hbefore.
    rewrite (Hbefore 0 a) by (done || lia).
    by rewrite (IH pos Hx Htest) by (intros j y ?; apply (Hbefore (S j)); lia).
Qed.

Lemma positions_from_In {A} (test : A → bool) (l : list A) i k :
  In k (positions_from test i l)
  ↔ i ≤ k ∧ ∃ x, l !! (k - i) = Some x ∧ test x = true.
Proof.
  revert i. induction l as [|a l IH]; intros i; simpl.
  - split; [done | by intros (_ & x & ? & _)].
  - assert (In k (positions_from test (S i) l)
            ↔ i < k ∧ ∃ x, (a :: l) !! (k - i) = Some x ∧ test x = true)
      as Htail.
    { rewrite IH. split.
      - intros (Hle & x & Hx & Hpass). split; [lia |]. exists x.
        split; [| done]. replace (k - i) with (S (k - S i)) by lia. done.
      - intros (Hlt & x & Hx & Hpass). split; [lia |]. exists x.
        split; [| done]. replace (k - i) with (S (k - S i)) in Hx by lia.
        done. }
    destruct (test a) eqn:Ha; simpl; rewrite Htail.
    + split.
      * intros [<-|(Hlt & Hx)]; [| split; [lia | done]].
        split; [done |]. exists a. by rewrite Nat.sub_diag.
      * intros (Hle & x & Hx & Hpass).
        destruct (decide (i = k)) as [->|Hne]; [by left | right].
        split; [lia | eauto].
    + split; [intros (Hlt & Hx); split; [lia | done] |].
      intros (Hle & x & Hx & Hpass). split; [| eauto].
      destruct (decide (i = k)) as [->|Hne]; [| lia].
      rewrite Nat.sub_diag in Hx. simpl in Hx. congruence.
Qed.

Lemma positions_from_sorted {A} (test : A → bool) (l : list A) i :
  StronglySorted lt (positions_from test i l).
Proof.
  revert i. induction l as [|a l IH]; intros i; simpl; [constructor |].
  destruct (test a); [| apply IH]. constructor; [apply IH |].
  apply List.Forall_forall. intros k [Hk _]%positions_from_In. lia.
Qed.

Lemma positions_label t label k :
  In k (positions (String.eqb label) (t_index t))
  ↔ t_index t !! k = Some label.
Proof.
  unfold positions. rewrite positions_from_In, Nat.sub_0_r. split.
  - by intros (_ & x & ? & ->%String.eqb_eq).
  - intros Hk. split; [lia |]. exists label. by rewrite String.eqb_refl.
Qed.

(** [targets.loc[label]] is a series for a label that one row carries and a
    table for a label that several rows carry. *)
Lemma loc_label_unique t label pos :
  t_index t !! pos = Some label →
  (∀ j, j ≠ pos → t_index t !! j ≠ Some label) →
  loc_label t label = Series (row_at t pos).
Proof.
  intros Hpos Hother. unfold loc_label.
  pose proof (positions_label t label) as Hin.
  pose proof (positions_from_sorted (String.eqb label) (t_index t) 0) as Hs.
  change (positions_from (String.eqb label) 0 (t_index t))
    with (positions (String.eqb label) (t_index t)) in Hs.
  assert (∀ k, In k (positions (String.eqb label) (t_index t)) → k = pos)
    as Hall.
  { intros k Hk%Hin. destruct (decide (k = pos)); [done |].
    by destruct (Hother k). }
  apply Hin in Hpos.
  destruct (positions (String.eqb label) (t_index t)) as [|a [|b rest]].
  - done.
  - by rewrite (Hall a) by (by left).
  - apply StronglySorted_inv in Hs as [_ Hlt].
    apply Forall_inv in Hlt.
    rewrite (Hall a), (Hall b) in Hlt by (simpl; auto). lia.
Qed.

Lemma loc_label_several t label i j :
  i < j → t_index t !! i = Some label → t_index t !! j = Some label →
  ∃ several,
    loc_label t label = DataFrame (map (row_at t) several)
    ∧ StronglySorted lt several
    ∧ 2 ≤ length several
    ∧ ∀ k, In k several ↔ t_index t !! k = Some label.
Proof.
  intros Hlt Hi Hj. unfold loc_label.
  pose proof (positions_label t label) as Hin.
  pose proof (positions_from_sorted (String.eqb label) (t_index t) 0) as Hs.
  change (positions_from (String.eqb label) 0 (t_index t))
    with (positions (String.eqb label) (t_index t)) in Hs.
  apply Hin in Hi, Hj.
  destruct (positions (String.eqb label) (t_index t)) as [|a [|b rest]].
  - done.
  - destruct Hi as [<-|[]], Hj as [<-|[]]. lia.
  - eexists. split_and!; [done | done | simpl; lia | done].
Qed.

Lemma cell_contains_iff na_text sample_name (c : cell) :
  cell_contains na_text sample_name c = true
  ↔ ∃ text, (c = Some text ∨ (c = None ∧ na_text = Some text))
            ∧ str_contains sample_name text = true.
Proof.
  unfold cell_contains, astype_str. destruct c as [v|]; [| destruct na_text].
  - split; [eauto |]. by intros (text & [[= ->]|[? _]] & ?).
  - split; [eauto |]. by intros (text & [?|[_ [= ->]]] & ?).
  - split; [done |]. by intros (text & [?|[_ ?]] & ?).
Qed.

End TargetRow.

(** X17. [_find_target_row] looks for the name of the sample among the row
    labels, then as a part of a row label, then as a part of the text of a
    cell, column by column; it finds nothing exactly when the name is part
    of no row label and of no cell text.  What a missing cell reads as
    depends on the version of pandas: "nan", or nothing at all (and then it
    matches no name).  A row label equal to the name wins; otherwise the
    first label that has the name as a part is taken, even when it is the
    label of another sample.  For a label that one row carries the result
    is that row; for a label that several rows carry it is the table of all
    these rows, not a row.  With no label matching, the result is the first
    row with a matching cell in the first column that has one. *)
Theorem find_target_row_matches (na_text : option string)
    (sample_name : string) (t : Targets) :
  let found := Analysis._find_target_row na_text sample_name (Some t) in
  let contains := Analysis.cell_contains na_text sample_name in
  (∀ c, contains c = true
        ↔ ∃ text, (c = Some text ∨ (c = None ∧ na_text = Some text))
                  ∧ str_contains sample_name text = true)
  ∧ (found = None ↔
     (∀ label, In label (t_index t) → str_contains sample_name label = false)
     ∧ (∀ col c, In col (t_data t) → In c (snd col) → contains c = false))
  ∧ (In sample_name (t_index t) →
     found = Some (Analysis.loc_label t sample_name))
  ∧ (¬ In sample_name (t_index t) →
     ∀ before label after,
       t_index t = before ++ label :: after →
       (∀ x, In x before → str_contains sample_name x = false) →
       str_contains sample_name label = true →
       found = Some (Analysis.loc_label t label))
  ∧ (∀ label pos,
       t_index t !! pos = Some label →
       (∀ j, j ≠ pos → t_index t !! j ≠ Some label) →
       Analysis.loc_label t label = Analysis.Series (Analysis.row_at t pos))
  ∧ (∀ label i j,
       i < j → t_index t !! i = Some label → t_index t !! j = Some label →
       ∃ several,
         Analysis.loc_label t label
         = Analysis.DataFrame (map (Analysis.row_at t) several)
         ∧ StronglySorted lt several
         ∧ 2 ≤ length several
         ∧ ∀ k, In k several ↔ t_index t !! k = Some label)
  ∧ ((∀ label, In label (t_index t) →
               str_contains sample_name label = false) →
     ∀ before col after pos c,
       t_data t = before ++ col :: after →
       (∀ col' c', In col' before → In c' (snd col') → contains c' = false) →
       snd col !! pos = Some c → contains c = true →
       (∀ j c', j < pos → snd col !! j = Some c' → contains c' = false) →
       found = Some (Analysis.Series (Analysis.row_at t pos))).
Proof.
  intros found contains.
  assert (∀ l, existsb contains l = false ↔ ∀ c, In c l → contains c = false)
    as Hnone.
  { intros l. split.
    - intros Hl c Hc. destruct (contains c) eqn:E; [| done].
      assert (existsb contains l = true) as Hex
        by (apply existsb_exists; eauto). congruence.
    - intros Hall. destruct (existsb contains l) eqn:E; [| done].
      apply existsb_exists in E as (c & Hc & Hhit).
      by rewrite (Hall c Hc) in Hhit. }
  assert ((∀ label, In label (t_index t) →
                    str_contains sample_name label = false) →
          found
          = match List.find (fun col => existsb contains (snd col))
                    (t_data t) with
            | Some col =>
                Analysis.Series
                  <$> (Analysis.row_at t
                         <$> Analysis.position contains (snd col))
            | None => None
            end) as Hscan.
  { intros Hlabels. subst found. unfold Analysis._find_target_row.
    destruct (existsb (String.eqb sample_name) (t_index t)) eqn:Hexact.
    { apply existsb_exists in Hexact as (x & Hx & ->%String.eqb_eq).
      pose proof (str_contains_refl x) as Hr.
      by rewrite (Hlabels _ Hx) in Hr. }
    destruct (List.find (str_contains sample_name) (t_index t)) as [idx|]
      eqn:Hpart; [| done].
    apply find_some in Hpart as [Hx Hin]. by rewrite (Hlabels _ Hx) in Hin. }
  split_and!.
  - apply cell_contains_iff.
  - split.
    + intros Hfound.
      assert (∀ label, In label (t_index t) →
                       str_contains sample_name label = false) as Hlabels.
      { subst found. unfold Analysis._find_target_row in Hfound.
        destruct (existsb (String.eqb sample_name) (t_index t)); [done |].
        destruct (List.find (str_contains sample_name) (t_index t)) eqn:Hpart;
          [done |].
        intros label Hlabel. apply (find_none _ _ Hpart label Hlabel). }
      split; [done |]. rewrite (Hscan Hlabels) in Hfound.
      destruct (List.find _ (t_data t)) as [col|] eqn:Hfind.
      * apply find_some in Hfind as [_ Hhit].
        destruct (Analysis.position contains (snd col)) eqn:Hpos; [done |].
        rewrite position_None_iff in Hpos.
        apply existsb_exists in Hhit as (c & Hc & Hhit).
        by rewrite (Hpos c Hc) in Hhit.
      * intros col c Hcol Hc.
        pose proof (find_none _ _ Hfind col Hcol) as Hcolnone.
        simpl in Hcolnone. by apply (proj1 (Hnone _) Hcolnone).
    + intros [Hlabels Hcells]. rewrite (Hscan Hlabels).
      destruct (List.find _ (t_data t)) as [col|] eqn:Hfind; [| done].
      apply find_some in Hfind as [Hcol Hhit].
      rewrite (proj2 (Hnone _)) in Hhit; [done |].
      intros c Hc. by apply (Hcells col).
  - intros Hin. subst found. unfold Analysis._find_target_row.
    assert (existsb (String.eqb sample_name) (t_index t) = true) as ->;
      [| done].
    apply existsb_exists. exists sample_name. by rewrite String.eqb_refl.
  - intros Hnot before label after Hidx Hbefore Hlabel. subst found.
    unfold Analysis._find_target_row.
    assert (existsb (String.eqb sample_name) (t_index t) = false) as ->.
    { apply not_true_iff_false. intros (x & Hx & ->%String.eqb_eq)%existsb_exists.
      done. }
    by rewrite Hidx, (find_first _ before after label).
  - apply loc_label_unique.
  - apply loc_label_several.
  - intros Hlabels before col after pos c Hdata Hbefore Hc Hhit Hfirst.
    rewrite (Hscan Hlabels), Hdata.
    rewrite (find_first _ before after col).
    + by rewrite (position_is contains (snd col) pos c).
    + intros col' Hcol'. apply Hnone. intros c'. by apply Hbefore.
    + apply existsb_exists. exists c. split; [| done].
      by apply list_elem_of_In, list_elem_of_lookup_2 with pos.
Qed.
